(** * whatsapp_security: the end-to-end encrypted chat client

    A shallow embedding of [lib/crypto.js] and of the event handlers of
    the two clients ([src/client/index.js] and its restyled twin), with
    the properties of the secure session protocol proved over it.

    Conventions of the embedding.
    - A [Buffer] is a [list byte]; [Buffer.concat] is [++], [subarray]
      is [skipn]/[firstn] with the clamping JavaScript does.
    - A JavaScript string is the [string] of its UTF-8 bytes (a string
      with an unpaired surrogate has none and is not modelled); a value
      that may be [undefined] is an [option].
    - An exception is the [Err] case of [result]; inside a handler it is
      the [Throw] completion of the handler monad [M].
    - The functions of Node's [crypto] and [Buffer] modules are the fields
      of the class [Node]; what a theorem needs of them is a hypothesis of
      that theorem. *)

From Stdlib Require Import List String Ascii ZArith NArith Bool Arith Lia.
From Stdlib.Strings Require Import Byte.
From Stdlib Require Import DecimalString.
Import ListNotations.

Local Open Scope string_scope.
Local Open Scope list_scope.

(** ** Buffers and exceptions *)

Definition bytes := list byte.

Inductive Exn : Type :=
| TypeError     (* ERR_INVALID_ARG_TYPE and the like *)
| RangeError    (* ERR_CRYPTO_TIMING_SAFE_EQUAL_LENGTH, ERR_OUT_OF_RANGE,
                   ERR_CRYPTO_INVALID_KEYLEN *)
| CryptoError.  (* an error raised by OpenSSL *)

Inductive result (A : Type) : Type :=
| Ok (a : A)
| Err (e : Exn).
Arguments Ok {A} a.
Arguments Err {A} e.

Fixpoint bytes_eqb (a b : bytes) : bool :=
  match a, b with
  | [], [] => true
  | x :: a', y :: b' => Byte.eqb x y && bytes_eqb a' b'
  | _, _ => false
  end.

(** [buf.subarray(s, e)] for [0 <= s <= e]. *)
Definition subarray (buf : bytes) (s e : nat) : bytes :=
  firstn (e - s) (skipn s buf).

(** [str.slice(s, e)] for [0 <= s <= e]. *)
Definition slice (str : string) (s e : nat) : string :=
  substring s (e - s) str.

(** [crypto.timingSafeEqual(a, b)]: a [RangeError] unless both buffers
    have the same byte length. *)
Definition timingSafeEqual (a b : bytes) : result bool :=
  if Nat.eqb (List.length a) (List.length b) then Ok (bytes_eqb a b) else Err RangeError.

(** Lowercase hexadecimal, as [digest("hex")] prints it. *)
Definition hex_digit (n : N) : ascii :=
  if (n <? 10)%N then ascii_of_N (48 + n) else ascii_of_N (87 + n).

Definition hex_of_byte (b : byte) : string :=
  let n := Byte.to_N b in
  String (hex_digit (n / 16)) (String (hex_digit (n mod 16)) EmptyString).

Fixpoint hex (buf : bytes) : string :=
  match buf with
  | [] => EmptyString
  | b :: buf' => hex_of_byte b ++ hex buf'
  end.

Definition is_hex_digit (c : ascii) : bool :=
  let n := N_of_ascii c in
  ((48 <=? n) && (n <=? 57) || (97 <=? n) && (n <=? 102))%N.

(** Every character of [s] satisfies [p]. *)
Fixpoint all_chars (p : ascii -> bool) (s : string) : bool :=
  match s with
  | EmptyString => true
  | String c s' => p c && all_chars p s'
  end.

(** ** The Node runtime the program is linked against *)

Class Node : Type := {
  (** [crypto.createHash("sha256").update(data).digest()] *)
  sha256 : bytes -> bytes;
  (** What [crypto.hkdfSync("sha256", ikm, salt, info, len)] derives
      when it accepts its arguments: the output keying material of
      HKDF-SHA256. The arguments it refuses are those of [hkdfSync]
      below. *)
  hkdfSync_sha256 : bytes -> bytes -> bytes -> nat -> bytes;
  (** [crypto.createHmac("sha256", key).update(data).digest()] *)
  createHmac_sha256 : bytes -> bytes -> bytes;
  (** [createCipheriv("aes-256-gcm", key, iv)], [setAAD], [update],
      [final], [getAuthTag]: the ciphertext and the tag, or an error
      (a key or an IV of a length OpenSSL refuses). *)
  aes256gcm_encrypt : bytes -> bytes -> bytes -> bytes -> option (bytes * bytes);
  (** [createDecipheriv("aes-256-gcm", key, iv)], [setAAD], [setAuthTag],
      [update], [final]: the plaintext, or an error (bad lengths, or
      the tag does not verify). Arguments: key, iv, aad, ct, tag. *)
  aes256gcm_decrypt : bytes -> bytes -> bytes -> bytes -> bytes -> option bytes;
  (** [crypto.getCurves()] *)
  getCurves : list string;
  (** The object [crypto.createECDH(curve)] returns, once
      [generateKeys()] has run. *)
  ECDH : Type;
  getPublicKey : ECDH -> bytes;
  (** [ecdh.computeSecret(otherPublicKey)]: an error when the bytes are
      not a public key of the curve. *)
  computeSecret : ECDH -> bytes -> option bytes;
  (** [Buffer.from(str, "utf8")] and [buf.toString("utf8")] *)
  utf8 : string -> bytes;
  toString_utf8 : bytes -> string;
  (** [buf.toString("base64")] and [Buffer.from(str, "base64")] *)
  toString_base64 : bytes -> string;
  from_base64 : string -> bytes;
  (** [JSON.stringify({ room, from, to, counter })]; a property whose
      value is [undefined] is left out by [JSON.stringify]. *)
  JSON_stringify_aad : string -> option string -> string -> option Z -> string
}.

(** ** lib/crypto.js *)

Section Crypto.
Context {node : Node}.

Definition includes (l : list string) (s : string) : bool :=
  existsb (String.eqb s) l.

Definition pickEcdhCurve : result string :=
  let curves := getCurves in
  if includes curves "x25519" then Ok "x25519"
  else if includes curves "prime256v1" then Ok "prime256v1"
  else if includes curves "secp256k1" then Ok "secp256k1"
  else Err CryptoError.

Definition computeSharedSecret (ecdh : ECDH) (otherPubKey : bytes) : result bytes :=
  match computeSecret ecdh otherPubKey with
  | Some s => Ok s
  | None => Err CryptoError
  end.

(** [crypto.hkdfSync("sha256", ikm, salt, info, len)] with the checks
    Node makes of its arguments: an [info] of more than 1024 bytes is out
    of range, and so is a [len] of more than 255 digests; no key of
    length 0 is derived. *)
Definition hkdfSync (ikm salt info : bytes) (len : nat) : result bytes :=
  if (1024 <? List.length info)%nat then Err RangeError
  else if (255 * 32 <? len)%nat then Err RangeError
  else if (len =? 0)%nat then Err CryptoError
  else Ok (hkdfSync_sha256 ikm salt info len).

Definition hkdfSha256 (ikm salt info : bytes) (len : nat) : result bytes :=
  hkdfSync ikm salt info len.

Record SessionKeys : Type := { kEnc : bytes; kMac : bytes }.

Definition deriveSessionKeys (sharedSecret : bytes) (context : string)
    : result SessionKeys :=
  let salt := sha256 (utf8 "chat-e2ee-salt") in
  match hkdfSha256 sharedSecret salt (utf8 context) 64 with
  | Ok okm => Ok {| kEnc := subarray okm 0 32; kMac := subarray okm 32 64 |}
  | Err e => Err e
  end.

Definition fingerprint (buf : bytes) : string :=
  let h := hex (sha256 buf) in
  slice h 0 6 ++ "-" ++ slice h 6 12 ++ "-" ++ slice h 12 18 ++ "-" ++ slice h 18 24.

Record Sealed : Type := { s_iv : bytes; s_ct : bytes; s_tag : bytes }.

(** [iv] is what [crypto.randomBytes(12)] returned. The [aad] is a
    [Buffer] at every call, so [if (aad)] holds. *)
Definition encryptAesGcm (kEnc : bytes) (plaintext : string) (aad : bytes)
    (iv : bytes) : result Sealed :=
  match aes256gcm_encrypt kEnc iv aad (utf8 plaintext) with
  | Some (ct, tag) => Ok {| s_iv := iv; s_ct := ct; s_tag := tag |}
  | None => Err CryptoError
  end.

Definition decryptAesGcm (kEnc iv ct tag aad : bytes) : result string :=
  match aes256gcm_decrypt kEnc iv aad ct tag with
  | Some pt => Ok (toString_utf8 pt)
  | None => Err CryptoError
  end.

Definition hmacSha256 (kMac data : bytes) : bytes :=
  createHmac_sha256 kMac data.

Definition timingSafeEq (a b : bytes) : result bool :=
  if negb (Nat.eqb (List.length a) (List.length b)) then Ok false
  else timingSafeEqual a b.

Definition b64 (buf : bytes) : string := toString_base64 buf.

(** [Buffer.from(s, "base64")] throws a [TypeError] when [s] is
    [undefined]; a string always decodes. *)
Definition unb64 (s : option string) : result bytes :=
  match s with
  | Some str => Ok (from_base64 str)
  | None => Err TypeError
  end.

End Crypto.

(** ** Envelopes on the wire

    What [JSON.parse] makes of a frame: every property may be absent.
    The [payload] of a handshake carries [curve] and [pub], that of a
    [msg] carries [counter], [iv], [ct], [tag] and [hmac]. A property
    that is there is a string, and [counter] an integer: the other JSON
    values are left out of the model. *)

Record Payload : Type := {
  p_curve : option string;
  p_pub : option string;
  p_counter : option Z;
  p_iv : option string;
  p_ct : option string;
  p_tag : option string;
  p_hmac : option string
}.

Record Envelope : Type := {
  e_type : option string;
  e_room : option string;
  e_from : option string;
  e_to : option string;
  e_payload : option Payload
}.

(** [payload || {}] *)
Definition noPayload : Payload :=
  {| p_curve := None; p_pub := None; p_counter := None; p_iv := None;
     p_ct := None; p_tag := None; p_hmac := None |}.

Definition orEmpty (payload : option Payload) : Payload :=
  match payload with Some p => p | None => noPayload end.

(** Truthiness of a string that may be [undefined]. *)
Definition truthy (s : option string) : bool :=
  match s with
  | Some str => negb (str =? "")
  | None => false
  end.

(** [x === s] and [x !== s] for a string [s]. *)
Definition strictEq (x : option string) (s : string) : bool :=
  match x with
  | Some str => str =? s
  | None => false
  end.

(** [`${x}`] *)
Definition show (x : option string) : string :=
  match x with
  | Some str => str
  | None => "undefined"
  end.

(** *** The order of strings

    JavaScript compares strings by their UTF-16 code units. [utf16 s]
    is the sequence of code units of the string whose UTF-8 bytes are
    [s]: one unit for a code point below 0x10000, a surrogate pair for
    the others. Bytes that are no UTF-8 stand for no JavaScript string;
    they are read as U+FFFD. *)

Definition byteval (c : ascii) : N := N_of_ascii c.

Definition trail (c : ascii) : bool :=
  (0x80 <=? byteval c)%N && (byteval c <? 0xC0)%N.

Definition low6 (c : ascii) : N := (byteval c mod 0x40)%N.

Definition units (cp : N) : list N :=
  if (cp <? 0x10000)%N then [cp]
  else [(0xD800 + (cp - 0x10000) / 0x400)%N; (0xDC00 + (cp - 0x10000) mod 0x400)%N].

Fixpoint utf16 (s : string) : list N :=
  match s with
  | EmptyString => []
  | String c0 s0 =>
      let b0 := byteval c0 in
      let single := (if (b0 <? 0x80)%N then b0 else 0xFFFD%N) :: utf16 s0 in
      match s0 with
      | EmptyString => single
      | String c1 s1 =>
          let cp2 := ((b0 mod 0x20) * 0x40 + low6 c1)%N in
          if (0xC2 <=? b0)%N && (b0 <? 0xE0)%N && trail c1 then cp2 :: utf16 s1
          else
            match s1 with
            | EmptyString => single
            | String c2 s2 =>
                let cp3 := (((b0 mod 0x10) * 0x40 + low6 c1) * 0x40 + low6 c2)%N in
                if (0xE0 <=? b0)%N && (b0 <? 0xF0)%N && trail c1 && trail c2
                   && (0x800 <=? cp3)%N
                   && negb ((0xD800 <=? cp3)%N && (cp3 <? 0xE000)%N)
                then cp3 :: utf16 s2
                else
                  match s2 with
                  | EmptyString => single
                  | String c3 s3 =>
                      let cp4 := ((((b0 mod 0x08) * 0x40 + low6 c1) * 0x40
                                   + low6 c2) * 0x40 + low6 c3)%N in
                      if (0xF0 <=? b0)%N && (b0 <? 0xF8)%N
                         && trail c1 && trail c2 && trail c3
                         && (0x10000 <=? cp4)%N && (cp4 <? 0x110000)%N
                      then units cp4 ++ utf16 s3
                      else single
                  end
            end
      end
  end.

(** [x < y] on sequences of code units: [x] is a proper prefix of [y],
    or the first unit in which they differ is smaller in [x]. *)
Fixpoint units_ltb (x y : list N) : bool :=
  match x, y with
  | _, [] => false
  | [], _ :: _ => true
  | a :: x', b :: y' =>
      if (a <? b)%N then true
      else if (b <? a)%N then false
      else units_ltb x' y'
  end.

(** [a < b] on strings *)
Definition js_ltb (a b : string) : bool := units_ltb (utf16 a) (utf16 b).

(** [[me, from].sort()]: the default order is that of the strings, and
    [undefined] goes to the end. The two are swapped when [from < me]. *)
Definition sort2 (me : string) (from : option string) : option string * option string :=
  match from with
  | None => (Some me, None)
  | Some f => if js_ltb f me then (Some f, Some me) else (Some me, Some f)
  end.

(** ** The client: state, effects and the handler monad *)

Record Client : Type := {
  joined : bool;
  handshakeSent : bool;
  session : option SessionKeys;
  sendCounter : N;
  recvCounter : N;
  peerHandshakeReceived : bool;
  pendingMessages : list Envelope;
  promptLoop_running : bool;
  (** [promptLoop] is suspended at [await ask("> ")] *)
  promptLoop_awaiting : bool
}.

Definition initial : Client :=
  {| joined := false; handshakeSent := false; session := None;
     sendCounter := 0; recvCounter := 0; peerHandshakeReceived := false;
     pendingMessages := []; promptLoop_running := false;
     promptLoop_awaiting := false |}.

Definition set_joined (b : bool) (c : Client) : Client :=
  {| joined := b; handshakeSent := handshakeSent c; session := session c;
     sendCounter := sendCounter c; recvCounter := recvCounter c;
     peerHandshakeReceived := peerHandshakeReceived c;
     pendingMessages := pendingMessages c;
     promptLoop_running := promptLoop_running c;
     promptLoop_awaiting := promptLoop_awaiting c |}.

Definition set_handshakeSent (b : bool) (c : Client) : Client :=
  {| joined := joined c; handshakeSent := b; session := session c;
     sendCounter := sendCounter c; recvCounter := recvCounter c;
     peerHandshakeReceived := peerHandshakeReceived c;
     pendingMessages := pendingMessages c;
     promptLoop_running := promptLoop_running c;
     promptLoop_awaiting := promptLoop_awaiting c |}.

Definition set_session (s : option SessionKeys) (c : Client) : Client :=
  {| joined := joined c; handshakeSent := handshakeSent c; session := s;
     sendCounter := sendCounter c; recvCounter := recvCounter c;
     peerHandshakeReceived := peerHandshakeReceived c;
     pendingMessages := pendingMessages c;
     promptLoop_running := promptLoop_running c;
     promptLoop_awaiting := promptLoop_awaiting c |}.

Definition set_sendCounter (n : N) (c : Client) : Client :=
  {| joined := joined c; handshakeSent := handshakeSent c; session := session c;
     sendCounter := n; recvCounter := recvCounter c;
     peerHandshakeReceived := peerHandshakeReceived c;
     pendingMessages := pendingMessages c;
     promptLoop_running := promptLoop_running c;
     promptLoop_awaiting := promptLoop_awaiting c |}.

Definition set_recvCounter (n : N) (c : Client) : Client :=
  {| joined := joined c; handshakeSent := handshakeSent c; session := session c;
     sendCounter := sendCounter c; recvCounter := n;
     peerHandshakeReceived := peerHandshakeReceived c;
     pendingMessages := pendingMessages c;
     promptLoop_running := promptLoop_running c;
     promptLoop_awaiting := promptLoop_awaiting c |}.

Definition set_peerHandshakeReceived (b : bool) (c : Client) : Client :=
  {| joined := joined c; handshakeSent := handshakeSent c; session := session c;
     sendCounter := sendCounter c; recvCounter := recvCounter c;
     peerHandshakeReceived := b;
     pendingMessages := pendingMessages c;
     promptLoop_running := promptLoop_running c;
     promptLoop_awaiting := promptLoop_awaiting c |}.

Definition set_pendingMessages (q : list Envelope) (c : Client) : Client :=
  {| joined := joined c; handshakeSent := handshakeSent c; session := session c;
     sendCounter := sendCounter c; recvCounter := recvCounter c;
     peerHandshakeReceived := peerHandshakeReceived c;
     pendingMessages := q;
     promptLoop_running := promptLoop_running c;
     promptLoop_awaiting := promptLoop_awaiting c |}.

Definition set_promptLoop_running (b : bool) (c : Client) : Client :=
  {| joined := joined c; handshakeSent := handshakeSent c; session := session c;
     sendCounter := sendCounter c; recvCounter := recvCounter c;
     peerHandshakeReceived := peerHandshakeReceived c;
     pendingMessages := pendingMessages c;
     promptLoop_running := b;
     promptLoop_awaiting := promptLoop_awaiting c |}.

Definition set_promptLoop_awaiting (b : bool) (c : Client) : Client :=
  {| joined := joined c; handshakeSent := handshakeSent c; session := session c;
     sendCounter := sendCounter c; recvCounter := recvCounter c;
     peerHandshakeReceived := peerHandshakeReceived c;
     pendingMessages := pendingMessages c;
     promptLoop_running := promptLoop_running c;
     promptLoop_awaiting := b |}.

(** [n++] on a JavaScript number holding a natural number: exact below
    2^53, and stuck there. *)
Definition incr (n : N) : N :=
  if (n <? 2 ^ 53)%N then (n + 1)%N else n.

(** The lines the client prints, without their timestamps. *)
Inductive LogLine : Type :=
| LogHandshakeSent (to : option string)
| LogProcessingPending (n : nat)
| LogMessageQueued
| LogHmacFailed
| LogDecryptFailed (e : Exn)
| LogMessage (from : option string) (text : string)
| LogRequestingHandshake
| LogPeerRequestsHandshake (from : option string)
| LogDuplicateHandshake (from : option string)
| LogHandshakeReceived (from : option string)
| LogPeerFingerprint (fp : string)
| LogVerifyFingerprint
| LogCurveMismatch (mine : string) (theirs : option string)
| LogSessionKeysDerived
| LogStartChatting
| LogReceivedBeforeSession
| LogSessionNotReady
| LogDisconnected
| LogWsError
(* lines of the restyled client only *)
| LogConnected
| LogFingerprintLabel
| LogCurveMismatchDetected
| LogSessionEstablished
| LogMessageNumbered (from : option string) (n : N) (text : string).

(** What a handler does to the world, in the order it does it. *)
Inductive Effect : Type :=
| ws_send (e : Envelope)
| ws_close
| console_log (l : LogLine)
| setTimeout_500
| rl_question
| call_decryptAesGcm (kEnc iv ct tag aad : bytes)
| process_exit (code : Z).

(** How a block of statements ends. *)
Inductive Completion (A : Type) : Type :=
| Normal (a : A)
| Return
| Throw (e : Exn)
| Exit.
Arguments Normal {A} a.
Arguments Return {A}.
Arguments Throw {A} e.
Arguments Exit {A}.

Definition M (A : Type) : Type := Client -> Client * list Effect * Completion A.

Definition ret {A} (a : A) : M A := fun st => (st, [], Normal a).

Definition bind {A B} (m : M A) (f : A -> M B) : M B :=
  fun st =>
    match m st with
    | (st1, out1, Normal a) =>
        match f a st1 with
        | (st2, out2, c) => (st2, out1 ++ out2, c)
        end
    | (st1, out1, Return) => (st1, out1, Return)
    | (st1, out1, Throw e) => (st1, out1, Throw e)
    | (st1, out1, Exit) => (st1, out1, Exit)
    end.

Declare Scope js_scope.
Delimit Scope js_scope with js.
Notation "x <- m ;; k" := (bind m (fun x => k))
  (at level 61, m at next level, right associativity) : js_scope.
Notation "m ;; k" := (bind m (fun _ => k))
  (at level 61, right associativity) : js_scope.

Definition get : M Client := fun st => (st, [], Normal st).
Definition modify (f : Client -> Client) : M unit := fun st => (f st, [], Normal tt).
Definition emit (e : Effect) : M unit := fun st => (st, [e], Normal tt).
Definition log (l : LogLine) : M unit := emit (console_log l).
Definition return_ {A} : M A := fun st => (st, [], Return).
Definition throw {A} (e : Exn) : M A := fun st => (st, [], Throw e).
Definition exit_ {A} : M A := fun st => (st, [], Exit).

Definition lift {A} (r : result A) : M A :=
  match r with
  | Ok a => ret a
  | Err e => throw e
  end.

(** A function call: a [return] in the body ends the call only. *)
Definition call (body : M unit) : M unit :=
  fun st =>
    match body st with
    | (st1, out1, Return) => (st1, out1, Normal tt)
    | r => r
    end.

(** [try { body } catch (e) { handler }] *)
Definition try_catch (body : M unit) (handler : Exn -> M unit) : M unit :=
  fun st =>
    match body st with
    | (st1, out1, Throw e) =>
        match handler e st1 with
        | (st2, out2, c) => (st2, out1 ++ out2, c)
        end
    | r => r
    end.

(** [if (c) { body }] *)
Definition when (c : bool) (body : M unit) : M unit :=
  if c then body else ret tt.

(** [arr.forEach(f)] *)
Fixpoint forEach {A} (arr : list A) (f : A -> M unit) : M unit :=
  match arr with
  | [] => ret tt
  | x :: arr' => bind (call (f x)) (fun _ => forEach arr' f)
  end.

(** ** src/client/index.js *)

Section Main.
Context {node : Node}.
Local Open Scope js_scope.

Definition buildAad (room : string) (from : option string) (to : string)
    (counter : option Z) : bytes :=
  utf8 (JSON_stringify_aad room from to counter).

(** The constants of [main]: the answers to the four questions, the
    curve [pickEcdhCurve()] chose and the key pair [genKeyPairECDH(curve)]
    made. *)
Variables (room me peer curve : string) (ecdh : ECDH).

Definition publicKey : bytes := getPublicKey ecdh.

(** The context string of the handshake handler:
    [const [id1, id2] = [me, from].sort()] and the template that follows. *)
Definition sessionContext (from : option string) : string :=
  let (id1, id2) := sort2 me from in
  ("room:" ++ room ++ "|peer1:" ++ show id1
     ++ "|peer2:" ++ show id2 ++ "|curve:" ++ curve)%string.

(** The object [sendHandshake(to)] serializes. *)
Definition handshakeEnvelope (to : option string) : Envelope :=
  {| e_type := Some "handshake"; e_room := Some room;
     e_from := Some me; e_to := to;
     e_payload := Some {| p_curve := Some curve;
                          p_pub := Some (b64 publicKey);
                          p_counter := None; p_iv := None;
                          p_ct := None; p_tag := None;
                          p_hmac := None |} |}.

Definition sendHandshake (to : option string) : M unit :=
  emit (ws_send (handshakeEnvelope to)) ;;
  log (LogHandshakeSent to).

Definition handleEncryptedMessage (msg : Envelope) : M unit :=
  st <- get ;;
  match session st with
  | None => log LogMessageQueued ;; return_
  | Some s =>
      let from := e_from msg in
      let payload := orEmpty (e_payload msg) in
      ivB <- lift (unb64 (p_iv payload)) ;;
      ctB <- lift (unb64 (p_ct payload)) ;;
      tagB <- lift (unb64 (p_tag payload)) ;;
      hmacB <- lift (unb64 (p_hmac payload)) ;;
      let aad := buildAad room from me (p_counter payload) in
      let macData := aad ++ ivB ++ ctB ++ tagB in
      let macExpected := hmacSha256 (kMac s) macData in
      ok <- lift (timingSafeEq macExpected hmacB) ;;
      if negb ok then log LogHmacFailed ;; return_
      else
        try_catch
          (emit (call_decryptAesGcm (kEnc s) ivB ctB tagB aad) ;;
           text <- lift (decryptAesGcm (kEnc s) ivB ctB tagB aad) ;;
           modify (fun c => set_recvCounter (incr (recvCounter c)) c) ;;
           log (LogMessage from text))
          (fun e => log (LogDecryptFailed e))
  end.

Definition processPendingMessages : M unit :=
  st <- get ;;
  when (0 <? List.length (pendingMessages st))%nat
    (log (LogProcessingPending (List.length (pendingMessages st))) ;;
     forEach (pendingMessages st) handleEncryptedMessage ;;
     modify (set_pendingMessages [])).

(** The object the prompt loop serializes for one message. *)
Definition msgEnvelope (counter : Z) (sealed : Sealed) (mac : bytes) : Envelope :=
  {| e_type := Some "msg"; e_room := Some room;
     e_from := Some me; e_to := Some peer;
     e_payload := Some {| p_curve := None; p_pub := None;
                          p_counter := Some counter;
                          p_iv := Some (b64 (s_iv sealed));
                          p_ct := Some (b64 (s_ct sealed));
                          p_tag := Some (b64 (s_tag sealed));
                          p_hmac := Some (b64 mac) |} |}.

(** The end of the body of the [while] loop of [promptLoop], from
    [sendCounter++] on: the line is encrypted under the session [s],
    the MAC computed and the envelope sent. [iv] is what
    [crypto.randomBytes(12)] gives. *)
Definition sendMessage (s : SessionKeys) (line : string) (iv : bytes) : M unit :=
  modify (fun c => set_sendCounter (incr (sendCounter c)) c) ;;
  st <- get ;;
  let counter := Z.of_N (sendCounter st) in
  let aad := buildAad room (Some me) peer (Some counter) in
  sealed <- lift (encryptAesGcm (kEnc s) line aad iv) ;;
  let macData := aad ++ s_iv sealed ++ s_ct sealed ++ s_tag sealed in
  let mac := hmacSha256 (kMac s) macData in
  emit (ws_send (msgEnvelope counter sealed mac)).

(** The body of the [while] loop of [promptLoop], entered with the line
    [await ask("> ")] gave. It says whether the loop goes on ([true]) or
    was left by [break] ([false]). *)
Definition promptLoop_body (line : string) (iv : bytes) : M bool :=
  if line =? "" then ret true
  else if line =? "/quit" then emit ws_close ;; ret false
  else
    st <- get ;;
    match session st with
    | None => log LogSessionNotReady ;; ret true
    | Some s => sendMessage s line iv ;; ret true
    end.

(** [promptLoop()], up to its first [await]. The socket is open while
    the handler that calls it runs. *)
Definition promptLoop : M unit :=
  st <- get ;;
  if promptLoop_running st then return_
  else
    modify (set_promptLoop_running true) ;;
    emit rl_question ;;
    modify (set_promptLoop_awaiting true).

(** [promptLoop] resumed by a line of input. *)
Definition onLine (line : string) (iv : bytes) : M unit :=
  st <- get ;;
  if negb (promptLoop_awaiting st) then return_
  else
    modify (set_promptLoop_awaiting false) ;;
    continue <- promptLoop_body line iv ;;
    when continue (emit rl_question ;; modify (set_promptLoop_awaiting true)).

(** [ws.on("open", ...)] *)
Definition onOpen : M unit :=
  emit (ws_send {| e_type := Some "join"; e_room := Some room;
                   e_from := Some me; e_to := None; e_payload := None |}).

(** The callback of [setTimeout(..., 500)] *)
Definition onTimeout : M unit :=
  st <- get ;;
  when (negb (peerHandshakeReceived st))
    (log LogRequestingHandshake ;;
     emit (ws_send {| e_type := Some "request_handshake"; e_room := Some room;
                      e_from := Some me; e_to := Some peer;
                      e_payload := None |})).

(** [ws.on("message", ...)]; [raw] is [None] when [JSON.parse] throws. *)
Definition onMessage (raw : option Envelope) : M unit :=
  match raw with
  | None => return_
  | Some msg =>
      let type := e_type msg in
      let from := e_from msg in
      let to := e_to msg in
      let payload := e_payload msg in
      if truthy to && negb (strictEq to me) then return_
      else
        when (strictEq type "joined")
          (modify (set_joined true) ;;
           st <- get ;;
           when (negb (handshakeSent st))
             (call (sendHandshake (Some peer)) ;;
              modify (set_handshakeSent true)) ;;
           emit setTimeout_500) ;;
        when (strictEq type "request_handshake")
          (log (LogPeerRequestsHandshake from) ;;
           call (sendHandshake from)) ;;
        when (strictEq type "handshake")
          (st <- get ;;
           if peerHandshakeReceived st
           then log (LogDuplicateHandshake from) ;; return_
           else
             let otherCurve := p_curve (orEmpty payload) in
             let pub := if truthy (p_pub (orEmpty payload))
                        then p_pub (orEmpty payload) else Some "" in
             otherPub <- lift (unb64 pub) ;;
             log (LogHandshakeReceived from) ;;
             log (LogPeerFingerprint (fingerprint otherPub)) ;;
             log LogVerifyFingerprint ;;
             if negb (strictEq otherCurve curve)
             then log (LogCurveMismatch curve otherCurve) ;; return_
             else
               st1 <- get ;;
               when (negb (handshakeSent st1))
                 (call (sendHandshake from) ;;
                  modify (set_handshakeSent true)) ;;
               shared <- lift (computeSharedSecret ecdh otherPub) ;;
               let context := sessionContext from in
               keys <- lift (deriveSessionKeys shared context) ;;
               modify (set_session (Some keys)) ;;
               modify (set_peerHandshakeReceived true) ;;
               log LogSessionKeysDerived ;;
               log LogStartChatting ;;
               call processPendingMessages ;;
               call promptLoop) ;;
        when (strictEq type "msg")
          (st <- get ;;
           match session st with
           | None =>
               log LogReceivedBeforeSession ;;
               modify (fun c => set_pendingMessages (pendingMessages c ++ [msg]) c) ;;
               return_
           | Some _ => call (handleEncryptedMessage msg)
           end)
  end.

(** [ws.on("close", ...)] and [ws.on("error", ...)] *)
Definition onClose : M unit :=
  log LogDisconnected ;; emit (process_exit 0) ;; exit_.

Definition onError : M unit := log LogWsError.

(** ** The event loop *)

(** What happens to the client: the events its callbacks are called
    for and [Tick], the end of a turn of the event loop. Several frames
    that arrive together are handled in one turn, one after the other. *)
Inductive Event : Type :=
| WsOpen
| WsMessage (raw : option Envelope)
| WsClose
| WsError
| Timeout
| Line (line : string) (iv : bytes)
| Tick.

Definition handler (ev : Event) : M unit :=
  match ev with
  | WsOpen => onOpen
  | WsMessage raw => onMessage raw
  | WsClose => onClose
  | WsError => onError
  | Timeout => onTimeout
  | Line line iv => onLine line iv
  | Tick => ret tt
  end.

(** Whether the process lives on after a handler ended this way.
    [process.exit] ends it at once. The handlers that throw are [async]
    functions (the message handler and [promptLoop]): what they throw is
    a rejection nobody handles, which ends the process when the turn of
    the event loop is over (Node 15 and later, which [hkdfSync] needs). *)
Definition alive {A} (c : Completion A) : bool :=
  match c with
  | Normal _ | Return => true
  | Throw _ | Exit => false
  end.

(** Handlers run to completion, one event after the other. [rejected]
    says that a handler of this turn has thrown: the events that follow
    in the same turn are still handled, and the process ends at the next
    [Tick]. The result is the last state, everything done, and whether
    the process lives on: it does not once it has exited or has a
    rejection to end it. *)
Fixpoint turn (rejected : bool) (evs : list Event) (st : Client)
    : Client * list Effect * bool :=
  match evs with
  | [] => (st, [], negb rejected)
  | Tick :: evs' => if rejected then (st, [], false) else turn false evs' st
  | ev :: evs' =>
      match handler ev st with
      | (st1, out1, Exit) => (st1, out1, false)
      | (st1, out1, Throw _) =>
          match turn true evs' st1 with
          | (st2, out2, a) => (st2, out1 ++ out2, a)
          end
      | (st1, out1, _) =>
          match turn rejected evs' st1 with
          | (st2, out2, a) => (st2, out1 ++ out2, a)
          end
      end
  end.

Definition run (evs : list Event) (st : Client) : Client * list Effect * bool :=
  turn false evs st.

End Main.

(** ** The restyled client (src/unnamed/part_001)

    The same client with other words on the terminal. Its protocol
    differs in three places: no timer is armed on [joined], a
    [request_handshake] is not answered, and an accepted handshake is
    not replied to. [buildAad], the envelopes, [sendMessage] and
    [promptLoop] are those of [index.js] but for the text of the prompt. *)

Module Styled.
Section Main.
Context {node : Node}.
Local Open Scope js_scope.
Variables (room me peer curve : string) (ecdh : ECDH).

Definition sendHandshake (to : option string) : M unit :=
  emit (ws_send (handshakeEnvelope room me curve ecdh to)) ;;
  log (LogHandshakeSent to).

Definition handleEncryptedMessage (msg : Envelope) : M unit :=
  st <- get ;;
  match session st with
  | None => return_
  | Some s =>
      let from := e_from msg in
      let payload := orEmpty (e_payload msg) in
      ivB <- lift (unb64 (p_iv payload)) ;;
      ctB <- lift (unb64 (p_ct payload)) ;;
      tagB <- lift (unb64 (p_tag payload)) ;;
      hmacB <- lift (unb64 (p_hmac payload)) ;;
      let aad := buildAad room from me (p_counter payload) in
      let macData := aad ++ ivB ++ ctB ++ tagB in
      let macExpected := hmacSha256 (kMac s) macData in
      ok <- lift (timingSafeEq macExpected hmacB) ;;
      if negb ok then log LogHmacFailed ;; return_
      else
        try_catch
          (emit (call_decryptAesGcm (kEnc s) ivB ctB tagB aad) ;;
           text <- lift (decryptAesGcm (kEnc s) ivB ctB tagB aad) ;;
           modify (fun c => set_recvCounter (incr (recvCounter c)) c) ;;
           st' <- get ;;
           log (LogMessageNumbered from (recvCounter st') text))
          (fun e => log (LogDecryptFailed e))
  end.

Definition processPendingMessages : M unit :=
  st <- get ;;
  when (0 <? List.length (pendingMessages st))%nat
    (log (LogProcessingPending (List.length (pendingMessages st))) ;;
     forEach (pendingMessages st) handleEncryptedMessage ;;
     modify (set_pendingMessages [])).

Definition onOpen : M unit :=
  log LogConnected ;;
  emit (ws_send {| e_type := Some "join"; e_room := Some room;
                   e_from := Some me; e_to := None; e_payload := None |}).

Definition onMessage (raw : option Envelope) : M unit :=
  match raw with
  | None => return_
  | Some msg =>
      let type := e_type msg in
      let from := e_from msg in
      let to := e_to msg in
      let payload := e_payload msg in
      if truthy to && negb (strictEq to me) then return_
      else
        when (strictEq type "joined")
          (modify (set_joined true) ;;
           st <- get ;;
           when (negb (handshakeSent st))
             (call (sendHandshake (Some peer)) ;;
              modify (set_handshakeSent true))) ;;
        when (strictEq type "handshake")
          (st <- get ;;
           if peerHandshakeReceived st then return_
           else
             let otherCurve := p_curve (orEmpty payload) in
             let pub := if truthy (p_pub (orEmpty payload))
                        then p_pub (orEmpty payload) else Some "" in
             otherPub <- lift (unb64 pub) ;;
             log (LogHandshakeReceived from) ;;
             log LogFingerprintLabel ;;
             log (LogPeerFingerprint (fingerprint otherPub)) ;;
             log LogVerifyFingerprint ;;
             if negb (strictEq otherCurve curve)
             then log LogCurveMismatchDetected ;; return_
             else
               shared <- lift (computeSharedSecret ecdh otherPub) ;;
               let context := sessionContext room me curve from in
               keys <- lift (deriveSessionKeys shared context) ;;
               modify (set_session (Some keys)) ;;
               modify (set_peerHandshakeReceived true) ;;
               log LogSessionEstablished ;;
               call processPendingMessages ;;
               call promptLoop) ;;
        when (strictEq type "msg")
          (st <- get ;;
           match session st with
           | None =>
               modify (fun c => set_pendingMessages (pendingMessages c ++ [msg]) c) ;;
               return_
           | Some _ => call (handleEncryptedMessage msg)
           end)
  end.

Definition handler (ev : Event) : M unit :=
  match ev with
  | WsOpen => onOpen
  | WsMessage raw => onMessage raw
  | WsClose => onClose
  | WsError => onError
  | Timeout => ret tt
  | Line line iv => onLine room me peer line iv
  | Tick => ret tt
  end.

Fixpoint turn (rejected : bool) (evs : list Event) (st : Client)
    : Client * list Effect * bool :=
  match evs with
  | [] => (st, [], negb rejected)
  | Tick :: evs' => if rejected then (st, [], false) else turn false evs' st
  | ev :: evs' =>
      match handler ev st with
      | (st1, out1, Exit) => (st1, out1, false)
      | (st1, out1, Throw _) =>
          match turn true evs' st1 with
          | (st2, out2, a) => (st2, out1 ++ out2, a)
          end
      | (st1, out1, _) =>
          match turn rejected evs' st1 with
          | (st2, out2, a) => (st2, out1 ++ out2, a)
          end
      end
  end.

Definition run (evs : list Event) (st : Client) : Client * list Effect * bool :=
  turn false evs st.

End Main.
End Styled.

(** ** Vocabulary of the properties *)

(** The envelope gets past [if (to && to !== me) return]. *)
Definition addressedTo (me : string) (msg : Envelope) : bool :=
  negb (truthy (e_to msg) && negb (strictEq (e_to msg) me)).

(** The four binary fields of a [msg] payload are there (as strings). *)
Definition hasMsgFields (msg : Envelope) : bool :=
  let p := orEmpty (e_payload msg) in
  match p_iv p, p_ct p, p_tag p, p_hmac p with
  | Some _, Some _, Some _, Some _ => true
  | _, _, _, _ => false
  end.

Definition is_decrypt_call (e : Effect) : bool :=
  match e with
  | call_decryptAesGcm _ _ _ _ _ => true
  | _ => false
  end.

Definition is_drain_log (e : Effect) : bool :=
  match e with
  | console_log (LogProcessingPending _) => true
  | _ => false
  end.

Definition is_send (e : Effect) : bool :=
  match e with
  | ws_send _ => true
  | _ => false
  end.

Definition count (p : Effect -> bool) (out : list Effect) : nat :=
  List.length (filter p out).

Definition state_of {A} (r : Client * list Effect * A) : Client := fst (fst r).
Definition effects_of {A} (r : Client * list Effect * A) : list Effect := snd (fst r).

(** The events of a list of envelopes arriving one after the other. *)
Definition arrivals (ms : list Envelope) : list Event :=
  map (fun m => WsMessage (Some m)) ms.

(** An envelope of type [msg] that gets past the address filter. *)
Definition isMsgFor (me : string) (m : Envelope) : bool :=
  addressedTo me m && strictEq (e_type m) "msg".

(** [st'] is [st] but for the receive counter. *)
Definition sameButRecv (st st' : Client) : Prop :=
  st' = set_recvCounter (recvCounter st') st.

(** [st'] has the session, the handshake flag and the queue of [st]. *)
Definition sameProtocol (st st' : Client) : Prop :=
  session st' = session st /\
  peerHandshakeReceived st' = peerHandshakeReceived st /\
  pendingMessages st' = pendingMessages st.

Definition completion_of {A B} (r : A * Completion B) : Completion B := snd r.

(** What every handler does but for the accepted handshake and the
    queued message: it leaves the session, the handshake flag and the
    queue alone, and prints no drain line. *)
Definition quiet (st : Client) (r : Client * list Effect * Completion unit) : Prop :=
  sameProtocol st (state_of r) /\ filter is_drain_log (effects_of r) = [].

(** What holds of one handler run, whatever the event. *)
Definition stepFacts (Inv : Client -> Prop) (st : Client)
    (r : Client * list Effect * Completion unit) : Prop :=
  (Inv st -> alive (completion_of r) = true -> Inv (state_of r)) /\
  (count is_drain_log (effects_of r) <= 1)%nat /\
  (peerHandshakeReceived st = true ->
     peerHandshakeReceived (state_of r) = true /\
     count is_drain_log (effects_of r) = 0%nat) /\
  (count is_drain_log (effects_of r) = 1%nat ->
     peerHandshakeReceived (state_of r) = true) /\
  (Inv st -> session st <> None -> sameProtocol st (state_of r)).

Section Vocabulary.
Context {node : Node}.
Variables (room me peer curve : string) (ecdh : ECDH).

(** The states the client can be in when a handler starts: those a run
    from the start leaves, with or without a rejection that will end
    the process when the turn is over. *)
Definition Reachable (st : Client) : Prop :=
  exists evs out live, run room me peer curve ecdh evs initial = (st, out, live).

(** The session exists. *)
Definition Established (st : Client) : Prop := session st <> None.

(** The buffers [handleEncryptedMessage] decodes from [msg], under the
    names it gives them. *)
Definition decoded (field : Payload -> option string) (msg : Envelope) : bytes :=
  match field (orEmpty (e_payload msg)) with
  | Some str => from_base64 str
  | None => []
  end.

Definition ivB := decoded p_iv.
Definition ctB := decoded p_ct.
Definition tagB := decoded p_tag.
Definition hmacB := decoded p_hmac.

Definition aad (msg : Envelope) : bytes :=
  buildAad room (e_from msg) me (p_counter (orEmpty (e_payload msg))).

Definition macData (msg : Envelope) : bytes :=
  aad msg ++ ivB msg ++ ctB msg ++ tagB msg.

Definition macExpected (keys : SessionKeys) (msg : Envelope) : bytes :=
  hmacSha256 (kMac keys) (macData msg).

(** The ways [handleEncryptedMessage msg] can go from the state [st]. *)
Inductive Opens (msg : Envelope) (st : Client) :
    Client * list Effect * Completion unit -> Prop :=
| Opens_unestablished :
    session st = None ->
    Opens msg st (st, [console_log LogMessageQueued], Return)
| Opens_malformed keys :
    session st = Some keys ->
    hasMsgFields msg = false ->
    Opens msg st (st, [], Throw TypeError)
| Opens_rejected keys :
    session st = Some keys ->
    hasMsgFields msg = true ->
    timingSafeEq (macExpected keys msg) (hmacB msg) = Ok false ->
    Opens msg st (st, [console_log LogHmacFailed], Return)
| Opens_undecryptable keys :
    session st = Some keys ->
    hasMsgFields msg = true ->
    timingSafeEq (macExpected keys msg) (hmacB msg) = Ok true ->
    aes256gcm_decrypt (kEnc keys) (ivB msg) (aad msg) (ctB msg) (tagB msg) = None ->
    Opens msg st
      (st,
       [call_decryptAesGcm (kEnc keys) (ivB msg) (ctB msg) (tagB msg) (aad msg);
        console_log (LogDecryptFailed CryptoError)],
       Normal tt)
| Opens_delivered keys pt :
    session st = Some keys ->
    hasMsgFields msg = true ->
    timingSafeEq (macExpected keys msg) (hmacB msg) = Ok true ->
    aes256gcm_decrypt (kEnc keys) (ivB msg) (aad msg) (ctB msg) (tagB msg) = Some pt ->
    Opens msg st
      (set_recvCounter (incr (recvCounter st)) st,
       [call_decryptAesGcm (kEnc keys) (ivB msg) (ctB msg) (tagB msg) (aad msg);
        console_log (LogMessage (e_from msg) (toString_utf8 pt))],
       Normal tt).

(** The handshake handler's reading of an envelope: [otherCurve],
    [otherPub], the three lines it prints first, and the handshake it
    sends back when none was sent yet. *)
Definition otherCurve (msg : Envelope) : option string :=
  p_curve (orEmpty (e_payload msg)).

Definition otherPub (msg : Envelope) : bytes :=
  from_base64 (match p_pub (orEmpty (e_payload msg)) with
               | Some str => str
               | None => ""
               end).

Definition greeting (msg : Envelope) : list Effect :=
  [console_log (LogHandshakeReceived (e_from msg));
   console_log (LogPeerFingerprint (fingerprint (otherPub msg)));
   console_log LogVerifyFingerprint].

Definition reply (msg : Envelope) (st : Client) : list Effect :=
  if handshakeSent st then []
  else effects_of (sendHandshake room me curve ecdh (e_from msg) st).

(** What holds of the state between two handlers as long as none has
    thrown: the session exists exactly when the peer's handshake was
    accepted, and then nothing waits in the queue. *)
Definition Inv (st : Client) : Prop :=
  match session st with
  | None => peerHandshakeReceived st = false
  | Some _ => peerHandshakeReceived st = true /\ pendingMessages st = []
  end.

(** What holds of every state, also after a handler has thrown: a
    session is there only once the peer's handshake was accepted. *)
Definition Guarded (st : Client) : Prop :=
  session st <> None -> peerHandshakeReceived st = true.

(** The lexicographic order on sequences of UTF-16 code units, as the
    specification has it: a proper prefix comes first; otherwise the
    first unit in which two sequences differ decides. *)
Inductive lexLt : list N -> list N -> Prop :=
| lexLt_prefix (b : N) (y : list N) : lexLt [] (b :: y)
| lexLt_head (a b : N) (x y : list N) : (a < b)%N -> lexLt (a :: x) (b :: y)
| lexLt_tail (a : N) (x y : list N) : lexLt x y -> lexLt (a :: x) (a :: y).

(** What every handler keeps, however it ends: the guard of the
    handshake handler, and the keys. *)
Definition keepsKeys (st : Client) (r : Client * list Effect * Completion unit)
    : Prop :=
  Guarded st ->
  Guarded (state_of r) /\
  forall keys, session st = Some keys -> session (state_of r) = Some keys.

(** The state the handshake handler is in once it has stored the keys. *)
Definition keyed (keys : SessionKeys) (st : Client) : Client :=
  set_peerHandshakeReceived true
    (set_session (Some keys) (set_handshakeSent true st)).

(** What opening [msg] under the session keys [keys] does. *)
Definition openEffects (keys : SessionKeys) (msg : Envelope) : list Effect :=
  effects_of (handleEncryptedMessage room me msg (set_session (Some keys) initial)).

End Vocabulary.

(** ** Vocabulary of the properties on what the client sends *)

Definition sent_envelopes (out : list Effect) : list Envelope :=
  flat_map (fun e => match e with ws_send env => [env] | _ => [] end) out.

Definition is_handshake (env : Envelope) : bool := strictEq (e_type env) "handshake".
Definition is_msg (env : Envelope) : bool := strictEq (e_type env) "msg".

(** The counters of the messages sent, in the order they are sent. *)
Definition counters (out : list Effect) : list (option Z) :=
  map (fun env => p_counter (orEmpty (e_payload env)))
      (filter is_msg (sent_envelopes out)).

(** The [n] values [sendCounter++] leaves in [sendCounter] from [c] on. *)
Fixpoint count_from (c : N) (n : nat) : list N :=
  match n with
  | O => []
  | S n' => incr c :: count_from (incr c) n'
  end.

(** A frame the handler returns on at once: one that is not JSON, or an
    envelope addressed to someone else. *)
Definition noise (me : string) (ev : Event) : bool :=
  match ev with
  | WsMessage None => true
  | WsMessage (Some msg) => negb (addressedTo me msg)
  | _ => false
  end.

(** A [request_handshake] that gets past the address filter. *)
Definition is_request (me : string) (ev : Event) : bool :=
  match ev with
  | WsMessage (Some msg) =>
      addressedTo me msg && strictEq (e_type msg) "request_handshake"
  | _ => false
  end.

(** The objects [ws.on("open")] and the timer serialize. *)
Definition joinEnvelope (room me : string) : Envelope :=
  {| e_type := Some "join"; e_room := Some room; e_from := Some me;
     e_to := None; e_payload := None |}.

Definition requestEnvelope (room me peer : string) : Envelope :=
  {| e_type := Some "request_handshake"; e_room := Some room;
     e_from := Some me; e_to := Some peer; e_payload := None |}.

(** The prompt waits for a line only once the session exists. *)
Definition PromptInv (st : Client) : Prop :=
  promptLoop_awaiting st = true -> session st <> None.

(** The prompt waits for a line only while its loop runs; and the loop
    has ended when it was started and waits for no line. *)
Definition LoopInv (st : Client) : Prop :=
  promptLoop_awaiting st = true -> promptLoop_running st = true.

Definition LoopEnded (st : Client) : Prop :=
  promptLoop_running st = true /\ promptLoop_awaiting st = false.

(** The four types of envelope the client sends. *)
Definition clientType (t : option string) : bool :=
  strictEq t "join" || strictEq t "handshake"
    || strictEq t "request_handshake" || strictEq t "msg".

(** ** What the program expects of the runtime

    The contracts of the Node functions, as far as the properties below
    need them. *)

Section Contracts.
Context {node : Node}.

(** SHA-256 digests are 32 bytes long. *)
Definition sha256_length : Prop :=
  forall data, List.length (sha256 data) = 32%nat.

(** [hkdfSync] returns [len] bytes (Node refuses [len > 255 * 32]). *)
Definition hkdf_length : Prop :=
  forall ikm salt info len,
    (len <= 255 * 32)%nat -> List.length (hkdfSync_sha256 ikm salt info len) = len.

(** AES-256-GCM under a 32-byte key and a 12-byte IV: encryption
    succeeds, and decrypting its output under the same key, IV and AAD
    gives the plaintext back. *)
Definition aes256gcm_correct : Prop :=
  forall key iv aad pt,
    List.length key = 32%nat -> List.length iv = 12%nat ->
    exists ct tag,
      aes256gcm_encrypt key iv aad pt = Some (ct, tag) /\
      aes256gcm_decrypt key iv aad ct tag = Some pt.

(** Diffie-Hellman: the two key pairs compute the same secret, each
    from the public key of the other. *)
Definition agree (a b : ECDH) : Prop :=
  exists s,
    computeSecret a (getPublicKey b) = Some s /\
    computeSecret b (getPublicKey a) = Some s.

Definition base64_roundtrip : Prop :=
  forall buf, from_base64 (toString_base64 buf) = buf.

Definition utf8_roundtrip : Prop :=
  forall str, toString_utf8 (utf8 str) = str.

End Contracts.

(** ** A model of the runtime

    An executable instance of [Node], to run the handlers on concrete
    inputs. SHA-256 (FIPS 180-4), HMAC (RFC 2104), HKDF (RFC 5869) and
    base64 (RFC 4648) are the algorithms Node runs. The key agreement and
    the authenticated cipher are stand-ins with the same interface:
    Diffie-Hellman in the integers modulo 2^127 - 1 for the curves, and a
    stream cipher keyed by HMAC-SHA256 with a 16-byte HMAC tag for
    AES-256-GCM. *)

Module Model.
Local Open Scope N_scope.

Definition byte_of (n : N) : byte :=
  match Byte.of_N (n mod 256) with
  | Some b => b
  | None => x00
  end.

Definition xor_byte (a b : byte) : byte :=
  byte_of (N.lxor (Byte.to_N a) (Byte.to_N b)).

Fixpoint xor_bytes (a b : bytes) : bytes :=
  match a, b with
  | x :: a', y :: b' => xor_byte x y :: xor_bytes a' b'
  | _, _ => []
  end.

(** Big-endian encodings of a number on 4, 8 and 16 bytes. *)
Fixpoint be (width : nat) (n : N) : bytes :=
  match width with
  | O => []
  | S w => byte_of (N.shiftr n (8 * N.of_nat w)) :: be w n
  end.

Definition of_be (buf : bytes) : N :=
  fold_left (fun acc b => acc * 256 + Byte.to_N b) buf 0.

(** *** SHA-256 *)

Definition mask32 : N := 0xFFFFFFFF.
Definition add32 (x y : N) : N := N.land (x + y) mask32.
Definition rotr (n x : N) : N :=
  N.lor (N.shiftr x n) (N.land (N.shiftl x (32 - n)) mask32).
Definition not32 (x : N) : N := N.lxor x mask32.
Definition Ch (x y z : N) : N := N.lxor (N.land x y) (N.land (not32 x) z).
Definition Maj (x y z : N) : N :=
  N.lxor (N.lxor (N.land x y) (N.land x z)) (N.land y z).
Definition Sigma0 (x : N) : N := N.lxor (N.lxor (rotr 2 x) (rotr 13 x)) (rotr 22 x).
Definition Sigma1 (x : N) : N := N.lxor (N.lxor (rotr 6 x) (rotr 11 x)) (rotr 25 x).
Definition sigma0 (x : N) : N := N.lxor (N.lxor (rotr 7 x) (rotr 18 x)) (N.shiftr x 3).
Definition sigma1 (x : N) : N := N.lxor (N.lxor (rotr 17 x) (rotr 19 x)) (N.shiftr x 10).

(** The first 64 primes, and the first 32 bits of the fractional part
    of a square root and of a cube root: the constants of FIPS 180-4 are
    made of them. *)
Definition is_prime (n : N) : bool :=
  forallb (fun d => negb (n mod N.of_nat d =? 0)) (seq 2 (N.to_nat n - 2)).

Definition primes64 : list N :=
  Eval vm_compute in firstn 64 (filter is_prime (map N.of_nat (seq 2 320))).

(** The largest [r' >= r], built from [r] by setting some of the [n] low
    bits, whose cube is at most [x]. *)
Fixpoint cbrt_bits (n : nat) (x r : N) : N :=
  match n with
  | O => r
  | S n' =>
      let r' := N.lor r (N.shiftl 1 (N.of_nat n')) in
      if r' * r' * r' <=? x then cbrt_bits n' x r' else cbrt_bits n' x r
  end.

Definition cbrt_frac32 (p : N) : N :=
  N.land (cbrt_bits 40 (N.shiftl p 96) 0) mask32.

Definition sqrt_frac32 (p : N) : N :=
  N.land (N.sqrt (N.shiftl p 64)) mask32.

Definition K256 : list N := Eval vm_compute in map cbrt_frac32 primes64.

Record Hash : Type := {
  ha : N; hb : N; hc : N; hd : N; he : N; hf : N; hg : N; hh : N
}.

Definition H0 : Hash :=
  Eval vm_compute in
    {| ha := sqrt_frac32 2; hb := sqrt_frac32 3; hc := sqrt_frac32 5;
       hd := sqrt_frac32 7; he := sqrt_frac32 11; hf := sqrt_frac32 13;
       hg := sqrt_frac32 17; hh := sqrt_frac32 19 |}.

(** The message schedule; [recent] holds the words so far, last first. *)
Fixpoint schedule (n : nat) (recent : list N) : list N :=
  match n with
  | O => rev recent
  | S n' =>
      let w := add32 (add32 (sigma1 (nth 1 recent 0)) (nth 6 recent 0))
                     (add32 (sigma0 (nth 14 recent 0)) (nth 15 recent 0)) in
      schedule n' (w :: recent)
  end.

Definition round (s : Hash) (kw : N * N) : Hash :=
  let t1 := add32 (add32 (add32 (hh s) (Sigma1 (he s))) (Ch (he s) (hf s) (hg s)))
                  (add32 (fst kw) (snd kw)) in
  let t2 := add32 (Sigma0 (ha s)) (Maj (ha s) (hb s) (hc s)) in
  {| ha := add32 t1 t2; hb := ha s; hc := hb s; hd := hc s;
     he := add32 (hd s) t1; hf := he s; hg := hf s; hh := hg s |}.

Fixpoint words (n : nat) (block : bytes) : list N :=
  match n with
  | O => []
  | S n' => of_be (firstn 4 block) :: words n' (skipn 4 block)
  end.

Definition compress (h : Hash) (block : bytes) : Hash :=
  let w := schedule 48 (rev (words 16 block)) in
  let s := fold_left round (combine K256 w) h in
  {| ha := add32 (ha h) (ha s); hb := add32 (hb h) (hb s);
     hc := add32 (hc h) (hc s); hd := add32 (hd h) (hd s);
     he := add32 (he h) (he s); hf := add32 (hf h) (hf s);
     hg := add32 (hg h) (hg s); hh := add32 (hh h) (hh s) |}.

Fixpoint blocks (n : nat) (data : bytes) (h : Hash) : Hash :=
  match n with
  | O => h
  | S n' => blocks n' (skipn 64 data) (compress h (firstn 64 data))
  end.

Definition pad (data : bytes) : bytes :=
  let len := List.length data in
  data ++ [x80] ++ repeat x00 ((64 - (len + 9) mod 64) mod 64)
       ++ be 8 (8 * N.of_nat len).

Definition sha256 (data : bytes) : bytes :=
  let padded := pad data in
  let h := blocks (List.length padded / 64) padded H0 in
  be 4 (ha h) ++ be 4 (hb h) ++ be 4 (hc h) ++ be 4 (hd h)
    ++ be 4 (he h) ++ be 4 (hf h) ++ be 4 (hg h) ++ be 4 (hh h).

(** *** HMAC-SHA256 and HKDF-SHA256 *)

Definition hmac (key data : bytes) : bytes :=
  let key' := if (64 <? List.length key)%nat then sha256 key else key in
  let block := key' ++ repeat x00 (64 - List.length key') in
  sha256 (xor_bytes block (repeat x5c 64)
            ++ sha256 (xor_bytes block (repeat x36 64) ++ data)).

Fixpoint hkdf_expand (n : nat) (prk info previous : bytes) (i : N) : bytes :=
  match n with
  | O => []
  | S n' =>
      let t := hmac prk (previous ++ info ++ [byte_of i]) in
      t ++ hkdf_expand n' prk info t (i + 1)
  end.

Definition hkdf (ikm salt info : bytes) (len : nat) : bytes :=
  firstn len (hkdf_expand ((len + 31) / 32) (hmac salt ikm) info [] 1).

(** *** Strings and base64 *)

Definition utf8_encode (str : string) : bytes := list_byte_of_string str.
Definition utf8_decode (buf : bytes) : string := string_of_list_byte buf.

Definition base64_char (v : N) : ascii :=
  if v <? 26 then ascii_of_N (65 + v)
  else if v <? 52 then ascii_of_N (71 + v)
  else if v <? 62 then ascii_of_N (v - 4)
  else if v =? 62 then "+"%char
  else "/"%char.

(** The value of a character of the base64 or of the base64url
    alphabet. *)
Definition base64_value (c : ascii) : option N :=
  let n := N_of_ascii c in
  if (65 <=? n) && (n <=? 90) then Some (n - 65)
  else if (97 <=? n) && (n <=? 122) then Some (n - 71)
  else if (48 <=? n) && (n <=? 57) then Some (n + 4)
  else if (n =? 43) || (n =? 45) then Some 62
  else if (n =? 47) || (n =? 95) then Some 63
  else None.

Fixpoint base64_encode (buf : bytes) : string :=
  match buf with
  | [] => ""
  | [a] =>
      let a := Byte.to_N a in
      String (base64_char (a / 4))
        (String (base64_char (a mod 4 * 16)) "==")
  | [a; b] =>
      let a := Byte.to_N a in
      let b := Byte.to_N b in
      String (base64_char (a / 4))
        (String (base64_char (a mod 4 * 16 + b / 16))
           (String (base64_char (b mod 16 * 4)) "="))
  | a :: b :: c :: rest =>
      let a := Byte.to_N a in
      let b := Byte.to_N b in
      let c := Byte.to_N c in
      String (base64_char (a / 4))
        (String (base64_char (a mod 4 * 16 + b / 16))
           (String (base64_char (b mod 16 * 4 + c / 64))
              (String (base64_char (c mod 64)) (base64_encode rest))))
  end.

(** The decoder skips what is not in the alphabet and stops at the
    padding. *)
Fixpoint sextets (str : string) : list N :=
  match str with
  | EmptyString => []
  | String c str' =>
      if Ascii.eqb c "="%char then []
      else match base64_value c with
           | Some v => v :: sextets str'
           | None => sextets str'
           end
  end.

Fixpoint of_sextets (l : list N) : bytes :=
  match l with
  | s1 :: s2 :: s3 :: s4 :: rest =>
      byte_of (s1 * 4 + s2 / 16) :: byte_of (s2 mod 16 * 16 + s3 / 4)
        :: byte_of (s3 mod 4 * 64 + s4) :: of_sextets rest
  | [s1; s2; s3] =>
      [byte_of (s1 * 4 + s2 / 16); byte_of (s2 mod 16 * 16 + s3 / 4)]
  | [s1; s2] => [byte_of (s1 * 4 + s2 / 16)]
  | _ => []
  end.

Definition base64_decode (str : string) : bytes := of_sextets (sextets str).

(** *** Key agreement: Diffie-Hellman modulo 2^127 - 1 *)

Definition dh_p : N := 2 ^ 127 - 1.
Definition dh_g : N := 3.

Fixpoint powmod_pos (b : N) (e : positive) (m : N) : N :=
  match e with
  | xH => b mod m
  | xO e' => let r := powmod_pos b e' m in (r * r) mod m
  | xI e' => let r := powmod_pos b e' m in (r * r * b) mod m
  end.

Definition powmod (b e m : N) : N :=
  match e with
  | N0 => 1 mod m
  | Npos p => powmod_pos b p m
  end.

(** A key pair is its private exponent. *)
Definition dh_public (a : N) : bytes := be 16 (powmod dh_g a dh_p).

Definition dh_secret (a : N) (pub : bytes) : option bytes :=
  let y := of_be pub in
  if Nat.eqb (List.length pub) 16 && (1 <? y) && (y <? dh_p)
  then Some (be 16 (powmod y a dh_p))
  else None.

(** *** Authenticated encryption: HMAC in counter mode, HMAC tag *)

Fixpoint keystream_blocks (n : nat) (key iv : bytes) (ctr : N) : bytes :=
  match n with
  | O => []
  | S n' => hmac key (iv ++ be 4 ctr) ++ keystream_blocks n' key iv (ctr + 1)
  end.

Definition keystream (key iv : bytes) (len : nat) : bytes :=
  firstn len (keystream_blocks ((len + 31) / 32) key iv 1).

Definition aead_tag (key iv aad ct : bytes) : bytes :=
  firstn 16 (hmac (hmac key (utf8_encode "tag"))
               (be 8 (N.of_nat (List.length aad)) ++ aad ++ iv ++ ct)).

Definition aead_ok (key iv : bytes) : bool :=
  Nat.eqb (List.length key) 32 && negb (Nat.eqb (List.length iv) 0).

Definition aead_encrypt (key iv aad pt : bytes) : option (bytes * bytes) :=
  if aead_ok key iv then
    let ct := xor_bytes pt (keystream (hmac key (utf8_encode "stream")) iv (List.length pt)) in
    Some (ct, aead_tag key iv aad ct)
  else None.

Definition aead_decrypt (key iv aad ct tag : bytes) : option bytes :=
  if aead_ok key iv && bytes_eqb (aead_tag key iv aad ct) tag then
    Some (xor_bytes ct (keystream (hmac key (utf8_encode "stream")) iv (List.length ct)))
  else None.

(** *** JSON.stringify of the associated data *)

Definition dquote : string := String (ascii_of_nat 34) EmptyString.
Definition backslash : ascii := ascii_of_nat 92.

Fixpoint json_escape (str : string) : string :=
  match str with
  | EmptyString => EmptyString
  | String c str' =>
      if Ascii.eqb c (ascii_of_nat 34) || Ascii.eqb c backslash
      then String backslash (String c (json_escape str'))
      else String c (json_escape str')
  end.

Definition json_string (str : string) : string :=
  (dquote ++ json_escape str ++ dquote)%string.

Definition json_member (name value : string) : string :=
  (dquote ++ name ++ dquote ++ ":" ++ value)%string.

Definition json_number (z : Z) : string :=
  NilZero.string_of_int (Z.to_int z).

Definition stringify_aad (room : string) (from : option string) (to : string)
    (counter : option Z) : string :=
  ("{" ++ json_member "room" (json_string room)
     ++ match from with
        | Some f => "," ++ json_member "from" (json_string f)
        | None => ""
        end
     ++ "," ++ json_member "to" (json_string to)
     ++ match counter with
        | Some n => "," ++ json_member "counter" (json_number n)
        | None => ""
        end
     ++ "}")%string.


End Model.

(** The instance. *)
Definition modelNode : Node :=
  {| sha256 := Model.sha256;
     hkdfSync_sha256 := Model.hkdf;
     createHmac_sha256 := Model.hmac;
     aes256gcm_encrypt := Model.aead_encrypt;
     aes256gcm_decrypt := Model.aead_decrypt;
     getCurves := ["prime256v1"; "secp256k1"]%string;
     ECDH := N;
     getPublicKey := Model.dh_public;
     computeSecret := Model.dh_secret;
     utf8 := Model.utf8_encode;
     toString_utf8 := Model.utf8_decode;
     toString_base64 := Model.base64_encode;
     from_base64 := Model.base64_decode;
     JSON_stringify_aad := Model.stringify_aad |}.

(** ** A session between alice and bob, on the model *)

Module Scenario.

Definition room : string := "r1".
Definition alice : string := "alice".
Definition bob : string := "bob".
Definition curve : string := "prime256v1".

(** The two key pairs (private exponents). *)
Definition ecdhA : N := 271828182845904523536.
Definition ecdhB : N := 314159265358979323846.

Definition runAlice : list Event -> Client -> Client * list Effect * bool :=
  run (node := modelNode) room alice bob curve ecdhA.

Definition runBob : list Event -> Client -> Client * list Effect * bool :=
  run (node := modelNode) room bob alice curve ecdhB.

(** The relay's answer to [join]. *)
Definition joinedAck (who : string) : Envelope :=
  {| e_type := Some "joined"; e_room := Some room; e_from := Some who;
     e_to := None; e_payload := None |}.

(** The handshakes the two clients send each other. *)
Definition fromAlice : Envelope :=
  handshakeEnvelope (node := modelNode) room alice curve ecdhA (Some bob).

Definition fromBob : Envelope :=
  handshakeEnvelope (node := modelNode) room bob curve ecdhB (Some alice).

(** Bob's handshake, had his client picked another curve. *)
Definition offCurve : Envelope :=
  handshakeEnvelope (node := modelNode) room bob "secp256k1" ecdhB (Some alice).

Definition requestFromBob : Envelope :=
  {| e_type := Some "request_handshake"; e_room := Some room;
     e_from := Some bob; e_to := Some alice; e_payload := None |}.

(** Alice joins and receives bob's handshake. *)
Definition aliceJoins : list Event :=
  [WsOpen; WsMessage (Some (joinedAck alice)); WsMessage (Some fromBob)].

Definition aliceEstablished : Client := state_of (runAlice aliceJoins initial).

(** The keys both derive. *)
Definition shared : bytes :=
  Eval vm_compute in
    (let secret := Model.dh_secret ecdhA (Model.dh_public ecdhB) in
     match secret with
     | Some s => s
     | None => []
     end).

Definition keys : SessionKeys :=
  match deriveSessionKeys (node := modelNode) shared
          (sessionContext room alice curve (Some bob)) with
  | Ok k => k
  | Err _ => {| kEnc := []; kMac := [] |}
  end.

(** What bob's client sends for the lines "hello" and "world". *)
Definition iv1 : bytes := repeat x2a 12.
Definition iv2 : bytes := repeat x2b 12.

Definition sent (counter : N) (line : string) (iv : bytes) : Envelope :=
  match
    effects_of
      (sendMessage (node := modelNode) room bob alice keys line iv
         (set_sendCounter counter initial))
  with
  | ws_send env :: _ => env
  | _ => joinedAck bob
  end.

Definition hello : Envelope := sent 0 "hello" iv1.
Definition world : Envelope := sent 1 "world" iv2.

(** "hello" with its MAC cut down to 8 bytes, and a [msg] envelope
    without a payload. *)
Definition forged : Envelope :=
  {| e_type := e_type hello; e_room := e_room hello;
     e_from := e_from hello; e_to := e_to hello;
     e_payload :=
       Some {| p_curve := None; p_pub := None;
               p_counter := p_counter (orEmpty (e_payload hello));
               p_iv := p_iv (orEmpty (e_payload hello));
               p_ct := p_ct (orEmpty (e_payload hello));
               p_tag := p_tag (orEmpty (e_payload hello));
               p_hmac := Some (b64 (node := modelNode)
                                 (firstn 8 (hmacB (node := modelNode) hello))) |} |}.

(** "hello" under another counter. *)
Definition replayed : Envelope :=
  {| e_type := e_type hello; e_room := e_room hello;
     e_from := e_from hello; e_to := e_to hello;
     e_payload :=
       Some {| p_curve := None; p_pub := None;
               p_counter := Some 7%Z;
               p_iv := p_iv (orEmpty (e_payload hello));
               p_ct := p_ct (orEmpty (e_payload hello));
               p_tag := p_tag (orEmpty (e_payload hello));
               p_hmac := p_hmac (orEmpty (e_payload hello)) |} |}.

Definition bare : Envelope :=
  {| e_type := Some "msg"; e_room := Some room; e_from := Some bob;
     e_to := Some alice; e_payload := None |}.

(** A room whose name is 1100 bytes long, and the handshakes alice and
    bob send each other in it. *)
Definition longRoom : string := string_of_list_ascii (repeat "r"%char 1100).

Definition fromAliceLong : Envelope :=
  handshakeEnvelope (node := modelNode) longRoom alice curve ecdhA (Some bob).

Definition fromBobLong : Envelope :=
  handshakeEnvelope (node := modelNode) longRoom bob curve ecdhB (Some alice).

(** Two identities of one character each: U+E000 (bytes EE 80 80) and
    U+10000 (bytes F0 90 80 80, the code units D800 DC00). *)
Definition privateUse : string :=
  string_of_list_ascii (map ascii_of_nat [238; 128; 128]%nat).

Definition astral : string :=
  string_of_list_ascii (map ascii_of_nat [240; 144; 128; 128]%nat).

End Scenario.

(** ** The relay (the server of src/unnamed/part_000)

    [rooms] is a [Map] from room ids to [Map]s from peer ids to sockets.
    A [Map] with string keys is the list of its entries in insertion
    order; a socket is the number of its connection, since sockets are
    compared with [===] only. The frames the relay sends are envelopes,
    but for the error frame, which has an [error] property instead.
    [ready ws] says whether [ws.readyState === ws.OPEN] when the handler
    runs. *)

Module Relay.

Definition JsMap (V : Type) : Type := list (string * V).

Section JsMap.
Context {V : Type}.

(** [m.get(k)] *)
Fixpoint get (m : JsMap V) (k : string) : option V :=
  match m with
  | [] => None
  | (k', v) :: m' => if k' =? k then Some v else get m' k
  end.

(** [m.has(k)] *)
Definition has (m : JsMap V) (k : string) : bool :=
  match get m k with
  | Some _ => true
  | None => false
  end.

(** [m.set(k, v)]: a key that is there keeps its place. *)
Fixpoint set (m : JsMap V) (k : string) (v : V) : JsMap V :=
  match m with
  | [] => [(k, v)]
  | (k', v') :: m' => if k' =? k then (k, v) :: m' else (k', v') :: set m' k v
  end.

(** [m.delete(k)] *)
Fixpoint delete (m : JsMap V) (k : string) : JsMap V :=
  match m with
  | [] => []
  | (k', v') :: m' => if k' =? k then m' else (k', v') :: delete m' k
  end.

(** [m.size] and [m.entries()] *)
Definition size (m : JsMap V) : nat := List.length m.
Definition entries (m : JsMap V) : list (string * V) := m.

Definition keys (m : JsMap V) : list string := map fst m.

End JsMap.

Definition Sock : Type := nat.
Definition Rooms : Type := JsMap (JsMap Sock).

Inductive Frame : Type :=
| EnvelopeFrame (e : Envelope)
| ErrorFrame (error : string).

(** What the relay does: frames sent, and the block of lines it prints
    for a relayed message. *)
Inductive Out : Type :=
| send (ws : Sock) (f : Frame)
| logged (e : Envelope).

Definition safeSend (ready : Sock -> bool) (ws : Sock) (obj : Frame) : list Out :=
  if ready ws then [send ws obj] else [].

(** The string of a property known to be truthy. *)
Definition str (x : option string) : string :=
  match x with
  | Some s => s
  | None => ""
  end.

(** [ws.on("message", ...)]; [raw] is [None] when [JSON.parse] throws. *)
Definition onMessage (ready : Sock -> bool) (ws : Sock) (raw : option Envelope)
    (rooms : Rooms) : Rooms * list Out :=
  match raw with
  | None => (rooms, [])
  | Some msg =>
      let type := e_type msg in
      let room := e_room msg in
      let from := e_from msg in
      let to := e_to msg in
      let payload := e_payload msg in
      if negb (truthy type) || negb (truthy room) || negb (truthy from)
      then (rooms, [])
      else if strictEq type "join" then
        let rooms1 := if has rooms (str room) then rooms
                      else set rooms (str room) [] in
        let roomMap := match get rooms1 (str room) with
                       | Some m => m
                       | None => []
                       end in
        (set rooms1 (str room) (set roomMap (str from) ws),
         safeSend ready ws
           (EnvelopeFrame {| e_type := Some "joined"; e_room := room;
                             e_from := from; e_to := None;
                             e_payload := None |}))
      else
        match get rooms (str room) with
        | None => (rooms, [])
        | Some roomMap =>
            if negb (truthy to) then (rooms, [])
            else
              match get roomMap (str to) with
              | None =>
                  (rooms,
                   safeSend ready ws
                     (ErrorFrame ("peer '" ++ str to ++ "' not in room")%string))
              | Some target =>
                  let relayed := {| e_type := type; e_room := room;
                                    e_from := from; e_to := to;
                                    e_payload := payload |} in
                  (rooms,
                   logged relayed :: safeSend ready target (EnvelopeFrame relayed))
              end
        end
  end.

(** The inner loop of the [close] handler: every entry of the room
    that holds [ws] is deleted. *)
Definition sweepRoom (ws : Sock) (m : JsMap Sock) : JsMap Sock :=
  fold_left
    (fun acc entry => if Nat.eqb (snd entry) ws then delete acc (fst entry) else acc)
    (entries m) m.

(** [ws.on("close", ...)]: the rooms are swept one after the other, and
    a room left empty is deleted. *)
Definition onClose (ws : Sock) (rooms : Rooms) : Rooms :=
  fold_left
    (fun acc entry =>
       let m := sweepRoom ws (snd entry) in
       let acc' := set acc (fst entry) m in
       if Nat.eqb (size m) 0 then delete acc' (fst entry) else acc')
    (entries rooms) rooms.

Inductive Event : Type :=
| Message (ready : Sock -> bool) (ws : Sock) (raw : option Envelope)
| Close (ws : Sock).

Definition handler (ev : Event) (rooms : Rooms) : Rooms * list Out :=
  match ev with
  | Message ready ws raw => onMessage ready ws raw rooms
  | Close ws => (onClose ws rooms, [])
  end.

Fixpoint run (evs : list Event) (rooms : Rooms) : Rooms * list Out :=
  match evs with
  | [] => (rooms, [])
  | ev :: evs' =>
      match handler ev rooms with
      | (rooms1, out1) =>
          match run evs' rooms1 with
          | (rooms2, out2) => (rooms2, out1 ++ out2)
          end
      end
  end.

(** *** Vocabulary *)

(** The socket registered under a peer id in a room. *)
Definition holder (rooms : Rooms) (room peerId : string) : option Sock :=
  match get rooms room with
  | Some m => get m peerId
  | None => None
  end.

(** Every key once, in the rooms and in each room, and no empty room. *)
Definition WF (rooms : Rooms) : Prop :=
  NoDup (keys rooms) /\
  Forall (fun entry => NoDup (keys (snd entry)) /\ snd entry <> []) rooms.

Definition Reachable (rooms : Rooms) : Prop :=
  exists evs, fst (run evs []) = rooms.

(** A message the relay neither drops for a missing property nor takes
    for a [join]. *)
Definition routable (msg : Envelope) : bool :=
  truthy (e_type msg) && truthy (e_room msg) && truthy (e_from msg)
    && truthy (e_to msg) && negb (strictEq (e_type msg) "join").

Definition sends (out : list Out) : list (Sock * Frame) :=
  flat_map (fun o => match o with send ws f => [(ws, f)] | logged _ => [] end) out.

(** A message the relay takes for a [join]. *)
Definition isJoin (msg : Envelope) : bool :=
  truthy (e_type msg) && truthy (e_room msg) && truthy (e_from msg)
    && strictEq (e_type msg) "join".

(** The acknowledgement of a [join] and the answer for a missing peer. *)
Definition ack (msg : Envelope) : Frame :=
  EnvelopeFrame {| e_type := Some "joined"; e_room := e_room msg;
                   e_from := e_from msg; e_to := None; e_payload := None |}.

Definition notInRoom (to : option string) : Frame :=
  ErrorFrame ("peer '" ++ str to ++ "' not in room")%string.

(** The event is a [join] of the socket [ws] to [room] under [peerId]. *)
Definition joinsAs (ws : Sock) (room peerId : string) (ev : Event) : bool :=
  match ev with
  | Message _ ws' (Some msg) =>
      Nat.eqb ws' ws && isJoin msg
        && (str (e_room msg) =? room)%string && (str (e_from msg) =? peerId)%string
  | _ => false
  end.

(** The event is a message of the socket [ws]. *)
Definition speaks (ws : Sock) (ev : Event) : bool :=
  match ev with
  | Message _ ws' _ => Nat.eqb ws' ws
  | Close _ => false
  end.

(** The frames sent to the socket [ws]. *)
Definition sentTo (ws : Sock) (out : list Out) : list Frame :=
  flat_map (fun o => match o with
                     | send ws' f => if Nat.eqb ws' ws then [f] else []
                     | logged _ => []
                     end) out.

(** What a client reads of a frame: the properties [type], [from], [to]
    and [payload] of the object; the answer for a missing peer has none
    but [type]. *)
Definition reading (f : Frame) : Envelope :=
  match f with
  | EnvelopeFrame e => e
  | ErrorFrame _ =>
      {| e_type := Some "error"; e_room := None; e_from := None;
         e_to := None; e_payload := None |}
  end.

End Relay.

(** ** Alice and bob at the relay *)

Module RelayScenario.
Import Relay.

Definition wsAlice : Sock := 1.
Definition wsBob : Sock := 2.
Definition wsMallory : Sock := 3.

Definition allOpen (ws : Sock) : bool := true.

Definition join (who : string) : Envelope :=
  {| e_type := Some "join"; e_room := Some Scenario.room; e_from := Some who;
     e_to := None; e_payload := None |}.

Definition bothJoin : list Event :=
  [Message allOpen wsAlice (Some (join Scenario.alice));
   Message allOpen wsBob (Some (join Scenario.bob))].

Definition bothJoined : Rooms := fst (run bothJoin []).

(** Mallory joins under bob's id. *)
Definition takeover : Event :=
  Message allOpen wsMallory (Some (join Scenario.bob)).

End RelayScenario.

(** ** More envelopes for alice *)

Module MoreScenario.
Import Scenario.

(** "hello" with another tag, under the MAC of the session. *)
Definition retagged (hmac : option string) : Envelope :=
  {| e_type := e_type hello; e_room := e_room hello;
     e_from := e_from hello; e_to := e_to hello;
     e_payload :=
       Some {| p_curve := None; p_pub := None;
               p_counter := p_counter (orEmpty (e_payload hello));
               p_iv := p_iv (orEmpty (e_payload hello));
               p_ct := p_ct (orEmpty (e_payload hello));
               p_tag := Some (b64 (node := modelNode) (repeat x00 16));
               p_hmac := hmac |} |}.

Definition undecryptable : Envelope :=
  retagged
    (Some (b64 (node := modelNode)
             (macExpected (node := modelNode) room alice keys (retagged None)))).


(** An envelope for carol. *)
Definition forCarol : Envelope :=
  {| e_type := Some "msg"; e_room := Some room; e_from := Some bob;
     e_to := Some "carol"; e_payload := None |}.

(** Alice types two lines once the session exists. *)
Definition aliceTypes : list Event :=
  aliceJoins ++ [Line "hello" iv1; Line "world" iv2].

End MoreScenario.

(** * Properties *)

(** ** Buffers, strings and hexadecimal *)

Lemma bytes_eqb_eq (a b : bytes) : bytes_eqb a b = true <-> a = b.
Proof.
  revert b; induction a as [|x a IH]; intros [|y b]; simpl;
    try (split; [discriminate | congruence]); [tauto|].
  rewrite andb_true_iff, IH. split.
  - intros [Hx ->]. now rewrite (Byte.byte_dec_bl _ _ Hx).
  - intros [= -> ->]. split; [now apply Byte.byte_dec_lb | reflexivity].
Qed.

Lemma bytes_eqb_refl (a : bytes) : bytes_eqb a a = true.
Proof. now apply bytes_eqb_eq. Qed.

Lemma string_length_app (s t : string) :
  String.length (s ++ t)%string = (String.length s + String.length t)%nat.
Proof. induction s as [|c s IH]; simpl; [reflexivity | now rewrite IH]. Qed.

Lemma string_app_assoc (s t u : string) :
  ((s ++ t) ++ u)%string = (s ++ (t ++ u))%string.
Proof. induction s as [|c s IH]; simpl; [reflexivity | now rewrite IH]. Qed.

Lemma hex_length (buf : bytes) : String.length (hex buf) = (2 * List.length buf)%nat.
Proof.
  induction buf as [|b buf IH]; [reflexivity|].
  cbn [hex hex_of_byte List.length String.append String.length]. rewrite IH. lia.
Qed.


Lemma substring_empty (n m : nat) : substring n m "" = "".
Proof. destruct n, m; reflexivity. Qed.

Lemma substring_split (s : string) (n m k : nat) :
  (substring n m s ++ substring (n + m) k s)%string = substring n (m + k) s.
Proof.
  revert n m; induction s as [|c s IH]; intros n m.
  - now rewrite !substring_empty.
  - destruct n as [|n]; [|apply IH].
    destruct m as [|m]; [reflexivity|].
    cbn [substring Nat.add String.append]. f_equal. apply (IH 0%nat m).
Qed.

Lemma substring_length (s : string) (n m : nat) :
  (n + m <= String.length s)%nat -> String.length (substring n m s) = m.
Proof.
  revert n m; induction s as [|c s IH]; intros n m; simpl String.length; intros H.
  - assert (m = 0)%nat by lia. subst. now destruct n.
  - destruct n as [|n]; [|apply IH; lia].
    destruct m as [|m]; [reflexivity|].
    cbn [substring String.length]. f_equal. apply IH. lia.
Qed.

Lemma substring_prefix (s : string) (m : nat) :
  exists rest, s = (substring 0 m s ++ rest)%string.
Proof.
  revert m; induction s as [|c s IH]; intros m.
  - exists "". now rewrite substring_empty.
  - destruct m as [|m]; [now exists (String c s)|].
    destruct (IH m) as [rest Hrest]. exists rest.
    cbn [substring String.append]. now rewrite <- Hrest.
Qed.

Lemma all_chars_app (p : ascii -> bool) (s t : string) :
  all_chars p (s ++ t)%string = all_chars p s && all_chars p t.
Proof.
  induction s as [|c s IH]; [reflexivity|].
  cbn [String.append all_chars]. now rewrite IH, andb_assoc.
Qed.

Lemma all_chars_substring (p : ascii -> bool) (s : string) (n m : nat) :
  all_chars p s = true -> all_chars p (substring n m s) = true.
Proof.
  revert n m; induction s as [|c s IH]; intros n m H.
  - now rewrite substring_empty.
  - cbn [all_chars] in H. apply andb_true_iff in H as [Hc Hs].
    destruct n as [|n]; [|now apply IH].
    destruct m as [|m]; [reflexivity|].
    cbn [substring all_chars]. now rewrite Hc, IH.
Qed.

Lemma hex_of_byte_digits (b : byte) : all_chars is_hex_digit (hex_of_byte b) = true.
Proof. destruct b; reflexivity. Qed.

Lemma hex_digits (buf : bytes) : all_chars is_hex_digit (hex buf) = true.
Proof.
  induction buf as [|b buf IH]; [reflexivity|].
  cbn [hex]. now rewrite all_chars_app, hex_of_byte_digits, IH.
Qed.

Lemma subarray_split (buf : bytes) (n m : nat) :
  List.length buf = (n + m)%nat ->
  subarray buf 0 n ++ subarray buf n (n + m) = buf.
Proof.
  intros H. unfold subarray. rewrite Nat.sub_0_r. cbn [skipn].
  replace (n + m - n)%nat with m by lia.
  rewrite (firstn_all2 (n := m)) by (rewrite length_skipn; lia).
  apply firstn_skipn.
Qed.

Section CryptoProperties.
Context {node : Node}.

(** [timingSafeEq] never throws, whatever the lengths: it is the
    equality test of buffers. *)
Lemma timingSafeEq_decides (a b : bytes) :
  timingSafeEq a b = Ok (bytes_eqb a b).
Proof.
  unfold timingSafeEq, timingSafeEqual.
  destruct (Nat.eqb_spec (List.length a) (List.length b)) as [E|E]; simpl.
  - reflexivity.
  - f_equal. symmetry. apply not_true_is_false.
    rewrite bytes_eqb_eq. congruence.
Qed.

(** What [deriveSessionKeys] returns, by the length of the context. *)
Lemma deriveSessionKeys_ok (sharedSecret : bytes) (context : string) :
  (List.length (utf8 context) <= 1024)%nat ->
  let okm := hkdfSync_sha256 sharedSecret (sha256 (utf8 "chat-e2ee-salt"))
               (utf8 context) 64 in
  deriveSessionKeys sharedSecret context
  = Ok {| kEnc := subarray okm 0 32; kMac := subarray okm 32 64 |}.
Proof.
  intros L. unfold deriveSessionKeys, hkdfSha256, hkdfSync.
  destruct (Nat.ltb_spec 1024 (List.length (utf8 context))); [lia|].
  reflexivity.
Qed.

Lemma deriveSessionKeys_long (sharedSecret : bytes) (context : string) :
  (1024 < List.length (utf8 context))%nat ->
  deriveSessionKeys sharedSecret context = Err RangeError.
Proof.
  intros L. unfold deriveSessionKeys, hkdfSha256, hkdfSync.
  destruct (Nat.ltb_spec 1024 (List.length (utf8 context))); [reflexivity | lia].
Qed.

(** C7. For a context of at most 1024 bytes, [deriveSessionKeys] takes
    64 bytes of HKDF-SHA256 output, keyed by the shared secret, salted
    with the SHA-256 digest of the literal "chat-e2ee-salt" and bound to
    the context; the encryption key is bytes 0..31 of it and the MAC key
    bytes 32..63. A longer context is refused by [hkdfSync], and
    [deriveSessionKeys] throws. Equal inputs give equal results. *)
Theorem deriveSessionKeys_spec (sharedSecret : bytes) (context : string) :
  hkdf_length ->
  let salt := sha256 (utf8 "chat-e2ee-salt") in
  let okm := hkdfSync_sha256 sharedSecret salt (utf8 context) 64 in
  ((List.length (utf8 context) <= 1024)%nat ->
   exists keys,
     deriveSessionKeys sharedSecret context = Ok keys /\
     List.length okm = 64%nat /\
     kEnc keys ++ kMac keys = okm /\
     List.length (kEnc keys) = 32%nat /\
     List.length (kMac keys) = 32%nat /\
     (forall i, (i < 32)%nat ->
        nth_error (kEnc keys) i = nth_error okm i /\
        nth_error (kMac keys) i = nth_error okm (32 + i))) /\
  ((1024 < List.length (utf8 context))%nat ->
   deriveSessionKeys sharedSecret context = Err RangeError) /\
  (forall sharedSecret' context',
     sharedSecret' = sharedSecret -> context' = context ->
     deriveSessionKeys sharedSecret' context'
     = deriveSessionKeys sharedSecret context).
Proof.
  intros Hlen salt okm.
  split; [|split; [apply deriveSessionKeys_long | now intros ? ? -> ->]].
  intros L.
  exists {| kEnc := subarray okm 0 32; kMac := subarray okm 32 64 |}.
  assert (Hokm : List.length okm = 64%nat) by (apply Hlen; lia).
  split; [exact (deriveSessionKeys_ok sharedSecret context L)|].
  cbn [kEnc kMac].
  assert (HkE : subarray okm 0 32 = firstn 32 okm) by reflexivity.
  assert (HkM : subarray okm 32 64 = firstn 32 (skipn 32 okm)) by reflexivity.
  repeat split.
  - exact Hokm.
  - apply (subarray_split okm 32 32 Hokm).
  - rewrite HkE, length_firstn. lia.
  - rewrite HkM, length_firstn, length_skipn. lia.
  - rewrite HkE, nth_error_firstn.
    now destruct (Nat.ltb_spec i 32); [|lia].
  - rewrite HkM, nth_error_firstn, nth_error_skipn.
    now destruct (Nat.ltb_spec i 32); [|lia].
Qed.

(** C8. The fingerprint of a buffer is made of the first 24 characters
    of the hexadecimal SHA-256 digest, in four groups of six joined by
    hyphens; equal buffers have equal fingerprints. *)
Theorem fingerprint_format (buf : bytes) :
  sha256_length ->
  exists g1 g2 g3 g4 rest,
    hex (sha256 buf) = (g1 ++ g2 ++ g3 ++ g4 ++ rest)%string /\
    fingerprint buf = (g1 ++ "-" ++ g2 ++ "-" ++ g3 ++ "-" ++ g4)%string /\
    String.length g1 = 6%nat /\ String.length g2 = 6%nat /\
    String.length g3 = 6%nat /\ String.length g4 = 6%nat /\
    all_chars is_hex_digit (g1 ++ g2 ++ g3 ++ g4)%string = true /\
    String.length (hex (sha256 buf)) = 64%nat /\
    (forall buf', buf' = buf -> fingerprint buf' = fingerprint buf).
Proof.
  intros Hlen. set (h := hex (sha256 buf)).
  assert (Hh : String.length h = 64%nat)
    by (unfold h; rewrite hex_length, Hlen; reflexivity).
  destruct (substring_prefix h 24) as [rest Hrest].
  exists (slice h 0 6), (slice h 6 12), (slice h 12 18), (slice h 18 24), rest.
  assert (Hcat : (slice h 0 6 ++ slice h 6 12 ++ slice h 12 18 ++ slice h 18 24)%string
                 = substring 0 24 h).
  { change (substring 0 24 h) with (substring 0 (6 + (6 + (6 + 6))) h).
    rewrite <- (substring_split h 0 6), <- (substring_split h (0 + 6) 6),
      <- (substring_split h (0 + 6 + 6) 6 6).
    reflexivity. }
  repeat split.
  - rewrite Hrest at 1. rewrite <- Hcat.
    now rewrite !string_app_assoc.
  - unfold slice; apply substring_length; lia.
  - unfold slice; apply substring_length; simpl; lia.
  - unfold slice; apply substring_length; simpl; lia.
  - unfold slice; apply substring_length; simpl; lia.
  - rewrite Hcat. apply all_chars_substring, hex_digits.
  - exact Hh.
  - now intros ? ->.
Qed.

End CryptoProperties.

(** ** Opening one message *)

Ltac step_m :=
  cbv beta iota zeta delta
    [bind ret get modify emit log return_ throw exit_ lift call try_catch when].

Ltac record_m :=
  cbv beta iota delta
    [keyed set_joined set_handshakeSent set_session set_sendCounter
     set_recvCounter set_peerHandshakeReceived set_pendingMessages
     set_promptLoop_running set_promptLoop_awaiting
     joined handshakeSent session sendCounter recvCounter
     peerHandshakeReceived pendingMessages promptLoop_running
     promptLoop_awaiting].

Section Open.
Context {node : Node}.
Variables (room me : string).

(** [handleEncryptedMessage] goes one of the five ways of [Opens]. *)
Lemma handle_opens (msg : Envelope) (st : Client) :
  Opens room me msg st (handleEncryptedMessage room me msg st).
Proof.
  unfold handleEncryptedMessage. step_m.
  destruct (session st) as [keys|] eqn:Hs; [|now constructor].
  destruct (hasMsgFields msg) eqn:F.
  - unfold hasMsgFields in F.
    destruct (p_iv (orEmpty (e_payload msg))) as [iv|] eqn:Hiv; [|discriminate].
    destruct (p_ct (orEmpty (e_payload msg))) as [ct|] eqn:Hct; [|discriminate].
    destruct (p_tag (orEmpty (e_payload msg))) as [tag|] eqn:Htag; [|discriminate].
    destruct (p_hmac (orEmpty (e_payload msg))) as [hmac|] eqn:Hhmac; [|discriminate].
    assert (Fields : hasMsgFields msg = true)
      by (unfold hasMsgFields; now rewrite Hiv, Hct, Htag, Hhmac).
    assert (Eiv : from_base64 iv = ivB msg) by (unfold ivB, decoded; now rewrite Hiv).
    assert (Ect : from_base64 ct = ctB msg) by (unfold ctB, decoded; now rewrite Hct).
    assert (Etag : from_base64 tag = tagB msg) by (unfold tagB, decoded; now rewrite Htag).
    assert (Ehmac : from_base64 hmac = hmacB msg) by (unfold hmacB, decoded; now rewrite Hhmac).
    cbn [unb64]. rewrite Eiv, Ect, Etag, Ehmac.
    fold (aad room me msg). fold (macData room me msg). fold (macExpected room me keys msg).
    destruct (timingSafeEq (macExpected room me keys msg) (hmacB msg)) as [[|]|e] eqn:Hmac.
    + cbn [negb]. unfold decryptAesGcm.
      destruct (aes256gcm_decrypt (kEnc keys) (ivB msg) (aad room me msg) (ctB msg) (tagB msg))
        as [pt|] eqn:Hdec.
      * eapply Opens_delivered; eassumption.
      * eapply Opens_undecryptable; eassumption.
    + eapply Opens_rejected; eassumption.
    + rewrite timingSafeEq_decides in Hmac. discriminate.
  - replace (_ : Client * list Effect * Completion unit)
      with (st, @nil Effect, @Throw unit TypeError).
    + eapply Opens_malformed; eassumption.
    + unfold hasMsgFields in F.
      destruct (p_iv (orEmpty (e_payload msg))); [|reflexivity].
      destruct (p_ct (orEmpty (e_payload msg))); [|reflexivity].
      destruct (p_tag (orEmpty (e_payload msg))); [|reflexivity].
      destruct (p_hmac (orEmpty (e_payload msg))); [discriminate|reflexivity].
Qed.

End Open.

(** ** The message handler, case by case *)

Section Handlers.
Context {node : Node}.
Variables (room me peer curve : string) (ecdh : ECDH).

Lemma addressedTo_filter (msg : Envelope) :
  addressedTo me msg = true ->
  truthy (e_to msg) && negb (strictEq (e_to msg) me) = false.
Proof. unfold addressedTo. now rewrite negb_true_iff. Qed.

Lemma onMessage_unparsable (st : Client) :
  onMessage room me peer curve ecdh None st = (st, [], Return).
Proof. reflexivity. Qed.

Lemma onMessage_elsewhere (msg : Envelope) (st : Client) :
  addressedTo me msg = false ->
  onMessage room me peer curve ecdh (Some msg) st = (st, [], Return).
Proof.
  unfold addressedTo. rewrite negb_false_iff. intros A.
  unfold onMessage. now rewrite A.
Qed.

(** The envelope [sendHandshake(to)] sends. *)
Lemma sendHandshake_eq (to : option string) (st : Client) :
  sendHandshake room me curve ecdh to st =
  (st,
   [ws_send (handshakeEnvelope room me curve ecdh to);
    console_log (LogHandshakeSent to)],
   Normal tt).
Proof. reflexivity. Qed.

Lemma onMessage_joined (msg : Envelope) (st : Client) :
  addressedTo me msg = true ->
  e_type msg = Some "joined" ->
  onMessage room me peer curve ecdh (Some msg) st =
  (set_handshakeSent true (set_joined true st),
   (if handshakeSent st
    then []
    else effects_of (sendHandshake room me curve ecdh (Some peer) st))
   ++ [setTimeout_500],
   Normal tt).
Proof.
  intros A T. apply addressedTo_filter in A.
  unfold onMessage. rewrite A, T. cbn [strictEq String.eqb Ascii.eqb Bool.eqb].
  step_m. cbn [handshakeSent set_joined].
  destruct st as [j hs s sc rc ph pm pr pa]; cbn [handshakeSent].
  destruct hs; reflexivity.
Qed.

Lemma onMessage_request_handshake (msg : Envelope) (st : Client) :
  addressedTo me msg = true ->
  e_type msg = Some "request_handshake" ->
  onMessage room me peer curve ecdh (Some msg) st =
  (st,
   console_log (LogPeerRequestsHandshake (e_from msg))
     :: effects_of (sendHandshake room me curve ecdh (e_from msg) st),
   Normal tt).
Proof.
  intros A T. apply addressedTo_filter in A.
  unfold onMessage. rewrite A, T. reflexivity.
Qed.

Lemma onMessage_other (msg : Envelope) (st : Client) :
  addressedTo me msg = true ->
  strictEq (e_type msg) "joined" = false ->
  strictEq (e_type msg) "request_handshake" = false ->
  strictEq (e_type msg) "handshake" = false ->
  strictEq (e_type msg) "msg" = false ->
  onMessage room me peer curve ecdh (Some msg) st = (st, [], Normal tt).
Proof.
  intros A T1 T2 T3 T4. apply addressedTo_filter in A.
  unfold onMessage. now rewrite A, T1, T2, T3, T4.
Qed.

Lemma onMessage_msg_queued (msg : Envelope) (st : Client) :
  addressedTo me msg = true ->
  e_type msg = Some "msg" ->
  session st = None ->
  onMessage room me peer curve ecdh (Some msg) st =
  (set_pendingMessages (pendingMessages st ++ [msg]) st,
   [console_log LogReceivedBeforeSession],
   Return).
Proof.
  intros A T S. apply addressedTo_filter in A.
  unfold onMessage. rewrite A, T. cbn [strictEq String.eqb Ascii.eqb Bool.eqb].
  step_m. now rewrite S.
Qed.

Lemma onMessage_msg_opened (msg : Envelope) (st : Client) :
  addressedTo me msg = true ->
  e_type msg = Some "msg" ->
  session st <> None ->
  onMessage room me peer curve ecdh (Some msg) st =
  call (handleEncryptedMessage room me msg) st.
Proof.
  intros A T S. apply addressedTo_filter in A.
  unfold onMessage. rewrite A, T. cbn [strictEq String.eqb Ascii.eqb Bool.eqb].
  step_m. destruct (session st); [|congruence].
  now destruct (handleEncryptedMessage room me msg st) as [[st1 out1] [[]| | |]].
Qed.

Lemma onMessage_handshake_duplicate (msg : Envelope) (st : Client) :
  addressedTo me msg = true ->
  e_type msg = Some "handshake" ->
  peerHandshakeReceived st = true ->
  onMessage room me peer curve ecdh (Some msg) st =
  (st, [console_log (LogDuplicateHandshake (e_from msg))], Return).
Proof.
  intros A T P. apply addressedTo_filter in A.
  unfold onMessage. rewrite A, T. cbn [strictEq String.eqb Ascii.eqb Bool.eqb].
  step_m. now rewrite P.
Qed.

Lemma unb64_pub (msg : Envelope) :
  unb64 (if truthy (p_pub (orEmpty (e_payload msg)))
         then p_pub (orEmpty (e_payload msg)) else Some "")
  = Ok (otherPub msg).
Proof.
  unfold otherPub. destruct (p_pub (orEmpty (e_payload msg))) as [str|]; [|reflexivity].
  cbn [truthy]. destruct (String.eqb_spec str ""); [subst|]; reflexivity.
Qed.

Lemma onMessage_handshake_mismatch (msg : Envelope) (st : Client) :
  addressedTo me msg = true ->
  e_type msg = Some "handshake" ->
  peerHandshakeReceived st = false ->
  strictEq (otherCurve msg) curve = false ->
  onMessage room me peer curve ecdh (Some msg) st =
  (st,
   greeting msg ++ [console_log (LogCurveMismatch curve (otherCurve msg))],
   Return).
Proof.
  intros A T P C. apply addressedTo_filter in A.
  unfold onMessage. rewrite A, T. cbn [strictEq String.eqb Ascii.eqb Bool.eqb].
  unfold otherCurve in C.
  cbv beta iota zeta delta [bind get when ret]. rewrite P, unb64_pub.
  step_m. now rewrite C.
Qed.

Lemma onMessage_handshake_badkey (msg : Envelope) (st : Client) :
  addressedTo me msg = true ->
  e_type msg = Some "handshake" ->
  peerHandshakeReceived st = false ->
  strictEq (otherCurve msg) curve = true ->
  computeSecret ecdh (otherPub msg) = None ->
  onMessage room me peer curve ecdh (Some msg) st =
  (set_handshakeSent true st,
   greeting msg ++ reply room me curve ecdh msg st,
   Throw CryptoError).
Proof.
  intros A T P C K. apply addressedTo_filter in A.
  unfold onMessage. rewrite A, T. cbn [strictEq String.eqb Ascii.eqb Bool.eqb].
  unfold otherCurve in C.
  cbv beta iota zeta delta [bind get when ret]. rewrite P, unb64_pub.
  step_m. rewrite C. cbn [negb]. unfold computeSharedSecret, reply. rewrite K.
  destruct st as [j hs s sc rc ph pm pr pa]; cbn [handshakeSent].
  destruct hs; reflexivity.
Qed.

(** A handshake whose context [hkdfSync] refuses: [deriveSessionKeys]
    throws, after the handshake was answered. *)
Lemma onMessage_handshake_refused (msg : Envelope) (st : Client) (shared : bytes)
    (e : Exn) :
  addressedTo me msg = true ->
  e_type msg = Some "handshake" ->
  peerHandshakeReceived st = false ->
  strictEq (otherCurve msg) curve = true ->
  computeSecret ecdh (otherPub msg) = Some shared ->
  deriveSessionKeys shared (sessionContext room me curve (e_from msg)) = Err e ->
  onMessage room me peer curve ecdh (Some msg) st =
  (set_handshakeSent true st,
   greeting msg ++ reply room me curve ecdh msg st,
   Throw e).
Proof.
  intros A T P C K D. apply addressedTo_filter in A.
  unfold onMessage. rewrite A, T. cbn [strictEq String.eqb Ascii.eqb Bool.eqb].
  unfold otherCurve in C.
  cbv beta iota zeta delta [bind get when ret]. rewrite P, unb64_pub.
  step_m. rewrite C. cbn [negb]. unfold computeSharedSecret, reply. rewrite K, D.
  destruct st as [j hs s sc rc ph pm pr pa]; cbn [handshakeSent].
  destruct hs; reflexivity.
Qed.

(** A handshake that is accepted: the keys are stored, then the queue
    is drained and the prompt started. *)
Lemma onMessage_handshake_accepted (msg : Envelope) (st : Client) (shared : bytes)
    (keys : SessionKeys) :
  addressedTo me msg = true ->
  e_type msg = Some "handshake" ->
  peerHandshakeReceived st = false ->
  strictEq (otherCurve msg) curve = true ->
  computeSecret ecdh (otherPub msg) = Some shared ->
  deriveSessionKeys shared (sessionContext room me curve (e_from msg)) = Ok keys ->
  onMessage room me peer curve ecdh (Some msg) st =
  bind (fun _ => (keyed keys st,
                  greeting msg ++ reply room me curve ecdh msg st
                    ++ [console_log LogSessionKeysDerived; console_log LogStartChatting],
                  Normal tt))
       (fun _ => bind (call (processPendingMessages room me)) (fun _ => call promptLoop))
       st.
Proof.
  intros A T P C K D. apply addressedTo_filter in A.
  unfold onMessage, sendHandshake. rewrite A, T. cbn [strictEq String.eqb Ascii.eqb Bool.eqb].
  unfold otherCurve in C.
  cbv beta iota zeta delta [bind get when ret]. rewrite P, unb64_pub.
  step_m. rewrite C. cbn [negb]. unfold computeSharedSecret, reply. rewrite K, D.
  unfold keyed.
  destruct st as [j hs s sc rc ph pm pr pa]; cbn [handshakeSent].
  destruct hs; cbn [negb]; record_m;
    destruct (processPendingMessages _ _ _) as [[st2 out2] [[]| | |]];
    try (unfold greeting; cbn; rewrite ?app_nil_r; reflexivity);
    destruct (promptLoop st2) as [[st3 out3] [[]| | |]];
    unfold greeting; cbn; rewrite ?app_nil_r; reflexivity.
Qed.

End Handlers.

(** ** Draining the queue *)

Section Drain.
Context {node : Node}.
Variables (room me : string).

Lemma sameButRecv_refl (st : Client) : sameButRecv st st.
Proof. now destruct st. Qed.

Lemma sameButRecv_trans (st1 st2 st3 : Client) :
  sameButRecv st1 st2 -> sameButRecv st2 st3 -> sameButRecv st1 st3.
Proof. unfold sameButRecv. intros -> ->. now destruct st1. Qed.

Lemma sameButRecv_session (st st' : Client) :
  sameButRecv st st' -> session st' = session st.
Proof. now intros ->. Qed.

(** Opening a message touches nothing but the receive counter, prints
    no drain line, sends nothing and does not end the process. *)
Lemma Opens_frame (msg : Envelope) (st : Client) r :
  Opens room me msg st r ->
  sameButRecv st (state_of r) /\
  filter is_drain_log (effects_of r) = [] /\
  filter is_send (effects_of r) = [] /\
  (completion_of r = Throw TypeError \/ alive (completion_of r) = true).
Proof.
  intros [ | | | | ]; cbn; repeat split; auto using sameButRecv_refl.
Qed.

(** The effects and the completion of opening a message depend on the
    state through the session keys only. *)
Lemma handle_session_only (msg : Envelope) (st1 st2 : Client) :
  session st1 = session st2 ->
  effects_of (handleEncryptedMessage room me msg st1)
    = effects_of (handleEncryptedMessage room me msg st2) /\
  completion_of (handleEncryptedMessage room me msg st1)
    = completion_of (handleEncryptedMessage room me msg st2).
Proof.
  intros E.
  destruct (handle_opens room me msg st1); destruct (handle_opens room me msg st2);
    cbn; split; congruence.
Qed.

Lemma handle_openEffects (msg : Envelope) (st : Client) (keys : SessionKeys) :
  session st = Some keys ->
  effects_of (handleEncryptedMessage room me msg st) = openEffects room me keys msg.
Proof.
  intros E. unfold openEffects. now apply handle_session_only.
Qed.

(** A message with its four fields is opened without an exception. *)
Lemma handle_wellformed (msg : Envelope) (st : Client) :
  hasMsgFields msg = true ->
  alive (completion_of (handleEncryptedMessage room me msg st)) = true.
Proof.
  intros F. destruct (handle_opens room me msg st); cbn; congruence.
Qed.

Lemma forEach_frame (q : list Envelope) (st : Client) :
  let r := forEach q (handleEncryptedMessage room me) st in
  sameButRecv st (state_of r) /\
  filter is_drain_log (effects_of r) = [] /\
  filter is_send (effects_of r) = [] /\
  (completion_of r = Throw TypeError \/ completion_of r = Normal tt).
Proof.
  revert st; induction q as [|msg q IH]; intros st; cbn zeta.
  - cbn. auto using sameButRecv_refl.
  - cbn [forEach]. unfold bind, call.
    destruct (Opens_frame msg st _ (handle_opens room me msg st)) as (F1 & F2 & F3 & F4).
    destruct (handleEncryptedMessage room me msg st) as [[st1 out1] c1].
    cbn [state_of effects_of completion_of fst snd] in *.
    specialize (IH st1). cbn zeta in IH. destruct IH as (I1 & I2 & I3 & I4).
    destruct c1 as [[]| |e|]; cbn [alive] in F4.
    + destruct (forEach q (handleEncryptedMessage room me) st1) as [[st2 out2] c2].
      cbn [state_of effects_of completion_of fst snd] in *.
      rewrite !filter_app, F2, F3, I2, I3. eauto using sameButRecv_trans.
    + destruct (forEach q (handleEncryptedMessage room me) st1) as [[st2 out2] c2].
      cbn [state_of effects_of completion_of fst snd] in *.
      rewrite !filter_app, F2, F3, I2, I3. eauto using sameButRecv_trans.
    + destruct F4 as [F4|F4]; [|discriminate F4].
      cbn [state_of effects_of completion_of fst snd]. auto.
    + destruct F4 as [F4|F4]; discriminate F4.
Qed.

(** When every queued message has its four fields, each one is opened,
    in the order of the queue. *)
Lemma forEach_opens_all (q : list Envelope) (st : Client) (keys : SessionKeys) :
  session st = Some keys ->
  forallb hasMsgFields q = true ->
  let r := forEach q (handleEncryptedMessage room me) st in
  effects_of r = List.concat (map (openEffects room me keys) q) /\
  completion_of r = Normal tt.
Proof.
  revert st; induction q as [|msg q IH]; intros st S F; cbn zeta.
  - now cbn.
  - cbn [forallb] in F. apply andb_true_iff in F as [Fm Fq].
    cbn [forEach map List.concat]. unfold bind, call.
    pose proof (handle_openEffects msg st keys S) as E.
    pose proof (handle_wellformed msg st Fm) as W.
    destruct (Opens_frame msg st _ (handle_opens room me msg st)) as (F1 & _).
    destruct (handleEncryptedMessage room me msg st) as [[st1 out1] c1].
    cbn [state_of effects_of completion_of fst snd] in *.
    assert (S1 : session st1 = Some keys)
      by (now rewrite (sameButRecv_session _ _ F1)).
    specialize (IH st1 S1 Fq). cbn zeta in IH. destruct IH as [I1 I2].
    destruct c1 as [[]| |e|]; try discriminate W;
      destruct (forEach q (handleEncryptedMessage room me) st1) as [[st2 out2] c2];
      cbn [state_of effects_of completion_of fst snd] in *; now subst.
Qed.

(** A queued message without its fields ends the drain with a
    [TypeError]: the messages behind it are not opened. *)
Lemma forEach_stops_at_malformed (q1 q2 : list Envelope) (bad : Envelope)
    (st : Client) (keys : SessionKeys) :
  session st = Some keys ->
  forallb hasMsgFields q1 = true ->
  hasMsgFields bad = false ->
  let r := forEach (q1 ++ bad :: q2) (handleEncryptedMessage room me) st in
  effects_of r = List.concat (map (openEffects room me keys) q1) /\
  completion_of r = Throw TypeError.
Proof.
  revert st; induction q1 as [|msg q IH]; intros st S F B; cbn zeta.
  - cbn [app forEach map List.concat]. unfold bind, call.
    destruct (handle_opens room me bad st); cbn; try congruence. now split.
  - cbn [forallb] in F. apply andb_true_iff in F as [Fm Fq].
    cbn [app forEach map List.concat]. unfold bind, call.
    pose proof (handle_openEffects msg st keys S) as E.
    pose proof (handle_wellformed msg st Fm) as W.
    destruct (Opens_frame msg st _ (handle_opens room me msg st)) as (F1 & _).
    destruct (handleEncryptedMessage room me msg st) as [[st1 out1] c1].
    cbn [state_of effects_of completion_of fst snd] in *.
    assert (S1 : session st1 = Some keys)
      by (now rewrite (sameButRecv_session _ _ F1)).
    specialize (IH st1 S1 Fq B). cbn zeta in IH. destruct IH as [I1 I2].
    destruct c1 as [[]| |e|]; try discriminate W;
      destruct (forEach (q ++ bad :: q2) (handleEncryptedMessage room me) st1)
        as [[st2 out2] c2];
      cbn [state_of effects_of completion_of fst snd] in *; now subst.
Qed.

End Drain.

Section Pending.
Context {node : Node}.
Variables (room me : string).

Lemma promptLoop_eq (st : Client) :
  promptLoop st =
  if promptLoop_running st then (st, [], Return)
  else (set_promptLoop_awaiting true (set_promptLoop_running true st),
        [rl_question], Normal tt).
Proof. unfold promptLoop. step_m. now destruct (promptLoop_running st). Qed.

(** The drain: one line when the queue is not empty, the messages
    opened one after the other, and the queue emptied when none of them
    threw. *)
Lemma processPendingMessages_spec (st : Client) :
  let r := processPendingMessages room me st in
  filter is_send (effects_of r) = [] /\
  (count is_drain_log (effects_of r) <= 1)%nat /\
  sameButRecv (set_pendingMessages (pendingMessages (state_of r)) st) (state_of r) /\
  ((completion_of r = Normal tt /\ pendingMessages (state_of r) = []) \/
   (completion_of r = Throw TypeError /\
    pendingMessages (state_of r) = pendingMessages st)).
Proof.
  cbn zeta. unfold processPendingMessages. step_m.
  destruct (pendingMessages st) as [|m q] eqn:Q.
  - cbn. repeat split; auto. unfold sameButRecv. destruct st; cbn in *. now subst.
  - change (0 <? List.length (m :: q))%nat with true. cbv iota.
    destruct (forEach_frame room me (m :: q) st) as (F1 & F2 & F3 & F4).
    destruct (forEach (m :: q) (handleEncryptedMessage room me) st) as [[st1 out1] c1].
    cbn [state_of effects_of completion_of fst snd] in *.
    destruct F4 as [-> | ->]; cbn [state_of effects_of completion_of fst snd app].
    + cbn [filter is_send is_drain_log]. unfold count. cbn [filter is_drain_log].
      rewrite F2, F3. cbn. repeat split; auto.
      * unfold sameButRecv in *. rewrite F1. destruct st; cbn in *. now subst.
      * right. split; [reflexivity|]. rewrite F1. now destruct st.
    + rewrite app_nil_r. unfold count. cbn [filter is_send is_drain_log].
      rewrite F2, F3. cbn. repeat split; auto.
      unfold sameButRecv in *. rewrite F1. now destruct st.
Qed.

(** The drain of a queue of messages that all have their fields. *)
Lemma processPendingMessages_wellformed (st : Client) (keys : SessionKeys) :
  session st = Some keys ->
  forallb hasMsgFields (pendingMessages st) = true ->
  let r := processPendingMessages room me st in
  effects_of r =
    match pendingMessages st with
    | [] => []
    | _ :: _ => [console_log (LogProcessingPending (List.length (pendingMessages st)))]
    end ++ List.concat (map (openEffects room me keys) (pendingMessages st)) /\
  completion_of r = Normal tt.
Proof.
  intros S F. cbn zeta. unfold processPendingMessages. step_m.
  destruct (pendingMessages st) as [|m q] eqn:Q; [now cbn|].
  change (0 <? List.length (m :: q))%nat with true. cbv iota.
  destruct (forEach_opens_all room me (m :: q) st keys S F) as [E C].
  destruct (forEach (m :: q) (handleEncryptedMessage room me) st) as [[st1 out1] c1].
  cbn [state_of effects_of completion_of fst snd] in *. subst.
  cbn [state_of effects_of completion_of fst snd app]. now rewrite app_nil_r.
Qed.

End Pending.

(** ** Establishing the session *)

Section Establish.
Context {node : Node}.
Variables (room me peer curve : string) (ecdh : ECDH).

(** The accepted handshake, with the drain [r] spelled out. *)
Lemma onMessage_handshake_established (msg : Envelope) (st : Client) (shared : bytes)
    (keys : SessionKeys) :
  addressedTo me msg = true ->
  e_type msg = Some "handshake" ->
  peerHandshakeReceived st = false ->
  strictEq (otherCurve msg) curve = true ->
  computeSecret ecdh (otherPub msg) = Some shared ->
  deriveSessionKeys shared (sessionContext room me curve (e_from msg)) = Ok keys ->
  let r := processPendingMessages room me (keyed keys st) in
  let pre := greeting msg ++ reply room me curve ecdh msg st
               ++ [console_log LogSessionKeysDerived; console_log LogStartChatting] in
  onMessage room me peer curve ecdh (Some msg) st =
  match completion_of r with
  | Throw e => (state_of r, pre ++ effects_of r, Throw e)
  | Exit => (state_of r, pre ++ effects_of r, Exit)
  | Normal _ | Return =>
      if promptLoop_running (state_of r)
      then (state_of r, pre ++ effects_of r, Normal tt)
      else (set_promptLoop_awaiting true (set_promptLoop_running true (state_of r)),
            pre ++ effects_of r ++ [rl_question], Normal tt)
  end.
Proof.
  intros A T P C K D r pre.
  rewrite (onMessage_handshake_accepted room me peer curve ecdh msg st shared keys
             A T P C K D).
  fold pre. unfold bind, call. fold r.
  destruct r as [[st2 out2] c2]. cbn [state_of effects_of completion_of fst snd].
  destruct c2 as [[]| |e|]; try reflexivity;
    rewrite promptLoop_eq; destruct (promptLoop_running st2);
    now rewrite ?app_nil_r.
Qed.

(** Whatever the drain does, the keys are in the state afterwards. *)
Lemma onMessage_handshake_session (msg : Envelope) (st : Client) (shared : bytes)
    (keys : SessionKeys) :
  addressedTo me msg = true ->
  e_type msg = Some "handshake" ->
  peerHandshakeReceived st = false ->
  strictEq (otherCurve msg) curve = true ->
  computeSecret ecdh (otherPub msg) = Some shared ->
  deriveSessionKeys shared (sessionContext room me curve (e_from msg)) = Ok keys ->
  let r := onMessage room me peer curve ecdh (Some msg) st in
  session (state_of r) = Some keys /\
  peerHandshakeReceived (state_of r) = true /\
  (alive (completion_of r) = true -> pendingMessages (state_of r) = []) /\
  (count is_drain_log (effects_of r) <= 1)%nat.
Proof.
  intros A T P C K Dk. cbn zeta.
  rewrite (onMessage_handshake_established msg st shared keys A T P C K Dk). cbn zeta.
  destruct (processPendingMessages_spec room me (keyed keys st)) as (_ & D & F & Q).
  destruct (processPendingMessages room me (keyed keys st)) as [[st2 out2] c2].
  cbn [state_of effects_of completion_of fst snd] in *.
  assert (S2 : session st2 = Some keys /\ peerHandshakeReceived st2 = true)
    by (rewrite F; now destruct st).
  assert (Dn : forall tail,
             filter is_drain_log tail = [] ->
             (count is_drain_log
                ((greeting msg ++ reply room me curve ecdh msg st
                    ++ [console_log LogSessionKeysDerived; console_log LogStartChatting])
                   ++ out2 ++ tail) <= 1)%nat).
  { intros tail Ht. unfold count in *. rewrite !filter_app, Ht, app_nil_r.
    unfold reply. destruct (handshakeSent st); cbn; now rewrite app_nil_r. }
  destruct Q as [[-> Q]|[-> Q]]; cbn [state_of effects_of completion_of fst snd alive].
  - destruct (promptLoop_running st2);
      cbn [state_of effects_of completion_of fst snd alive];
      (repeat split; [apply S2 | apply S2 | auto | ]).
    + rewrite <- (app_nil_r out2). now apply Dn.
    + now apply Dn.
  - repeat split; [apply S2 | apply S2 | discriminate | ].
    rewrite <- (app_nil_r out2). now apply Dn.
Qed.

End Establish.

(** ** One handler at a time *)

Section Steps.
Context {node : Node}.
Variables (room me peer curve : string) (ecdh : ECDH).

Lemma type_cases (t : option string) :
  t = Some "joined" \/ t = Some "request_handshake" \/
  t = Some "handshake" \/ t = Some "msg" \/
  (strictEq t "joined" = false /\ strictEq t "request_handshake" = false /\
   strictEq t "handshake" = false /\ strictEq t "msg" = false).
Proof.
  destruct t as [t|]; [|now repeat right]. cbn [strictEq].
  destruct (String.eqb_spec t "joined"); [subst; now left|].
  destruct (String.eqb_spec t "request_handshake"); [subst; now right; left|].
  destruct (String.eqb_spec t "handshake"); [subst; now right; right; left|].
  destruct (String.eqb_spec t "msg"); [subst; now right; right; right; left|].
  now repeat right.
Qed.

Lemma sameProtocol_refl (st : Client) : sameProtocol st st.
Proof. now repeat split. Qed.

Lemma sameProtocol_Inv (st st' : Client) :
  sameProtocol st st' -> Inv st -> Inv st'.
Proof. unfold sameProtocol, Inv. intros (-> & -> & ->). auto. Qed.

Lemma sameButRecv_sameProtocol (st st' : Client) :
  sameButRecv st st' -> sameProtocol st st'.
Proof. intros ->. now repeat split. Qed.

Lemma onLine_quiet (line : string) (iv : bytes) (st : Client) :
  quiet st (onLine room me peer line iv st).
Proof.
  unfold quiet, onLine, promptLoop_body, sendMessage, encryptAesGcm. step_m.
  destruct (promptLoop_awaiting st); cbn [negb]; [|now repeat split].
  destruct (line =? "")%string; [now repeat split|].
  destruct (line =? "/quit")%string; [now repeat split|].
  record_m. destruct st as [j hs s sc rc ph pm pr pa]. cbn.
  destruct s as [keys|]; [|now repeat split].
  destruct (aes256gcm_encrypt _ _ _ _) as [[ct tag]|]; now repeat split.
Qed.

Lemma onTimeout_quiet (st : Client) : quiet st (onTimeout room me peer st).
Proof.
  unfold quiet, onTimeout. step_m.
  destruct (peerHandshakeReceived st); now repeat split.
Qed.

Lemma quiet_stepFacts (st : Client) r : quiet st r -> stepFacts Inv st r.
Proof.
  intros [S D]. unfold stepFacts, count. rewrite D. cbn [List.length].
  split; [eauto using sameProtocol_Inv|]. split; [lia|].
  split; [intros P; split; [destruct S as (_ & -> & _); exact P | reflexivity]|].
  split; [discriminate|]. intros _ _. exact S.
Qed.

Lemma onMessage_stepFacts (raw : option Envelope) (st : Client) :
  stepFacts Inv st (onMessage room me peer curve ecdh raw st).
Proof.
  destruct raw as [msg|];
    [|rewrite onMessage_unparsable; apply quiet_stepFacts; now repeat split].
  destruct (addressedTo me msg) eqn:A;
    [|rewrite onMessage_elsewhere by assumption;
      apply quiet_stepFacts; now repeat split].
  destruct (type_cases (e_type msg)) as [T|[T|[T|[T|(T1 & T2 & T3 & T4)]]]].
  - rewrite onMessage_joined by assumption.
    apply quiet_stepFacts. split; [now repeat split|].
    cbn [effects_of fst snd]. rewrite filter_app.
    now destruct (handshakeSent st).
  - rewrite onMessage_request_handshake by assumption.
    apply quiet_stepFacts. now repeat split.
  - destruct (peerHandshakeReceived st) eqn:P.
    { rewrite onMessage_handshake_duplicate by assumption.
      apply quiet_stepFacts. now repeat split. }
    destruct (strictEq (otherCurve msg) curve) eqn:C.
    2:{ rewrite onMessage_handshake_mismatch by assumption.
        apply quiet_stepFacts. now repeat split. }
    destruct (computeSecret ecdh (otherPub msg)) as [shared|] eqn:K.
    2:{ rewrite onMessage_handshake_badkey by assumption.
        apply quiet_stepFacts. split; [now repeat split|].
        cbn [effects_of fst snd]. unfold reply.
        now destruct (handshakeSent st). }
    destruct (deriveSessionKeys shared (sessionContext room me curve (e_from msg)))
      as [keys|e] eqn:Dk.
    2:{ rewrite (onMessage_handshake_refused room me peer curve ecdh msg st shared e)
          by assumption.
        apply quiet_stepFacts. split; [now repeat split|].
        cbn [effects_of fst snd]. unfold reply.
        now destruct (handshakeSent st). }
    destruct (onMessage_handshake_session room me peer curve ecdh msg st shared keys
                A T P C K Dk) as (S' & P' & Q' & D').
    unfold stepFacts.
    split; [intros I L; unfold Inv; rewrite S'; auto|].
    split; [exact D'|].
    split; [intros H; congruence|].
    split; [intros _; exact P'|].
    intros I H. exfalso. unfold Inv in I.
    destruct (session st); [|congruence]. destruct I. congruence.
  - destruct (session st) as [keys|] eqn:S.
    + rewrite onMessage_msg_opened by congruence.
      apply quiet_stepFacts. unfold call.
      destruct (Opens_frame room me msg st _ (handle_opens room me msg st))
        as (F1 & F2 & _).
      destruct (handleEncryptedMessage room me msg st) as [[st1 out1] c1].
      cbn [state_of effects_of completion_of fst snd] in *.
      destruct c1 as [[]| | |]; split; cbn [state_of effects_of fst snd];
        auto using sameButRecv_sameProtocol.
    + rewrite onMessage_msg_queued by assumption.
      unfold stepFacts, Inv, count. cbn. rewrite S.
      repeat split; auto; try lia; try discriminate; congruence.
  - rewrite onMessage_other by assumption.
    apply quiet_stepFacts. now repeat split.
Qed.

Lemma handler_stepFacts (ev : Event) (st : Client) :
  stepFacts Inv st (handler room me peer curve ecdh ev st).
Proof.
  destruct ev as [ |raw| | | |line iv| ]; cbn [handler].
  - apply quiet_stepFacts. now repeat split.
  - apply onMessage_stepFacts.
  - apply quiet_stepFacts. now repeat split.
  - apply quiet_stepFacts. now repeat split.
  - apply quiet_stepFacts, onTimeout_quiet.
  - apply quiet_stepFacts, onLine_quiet.
  - apply quiet_stepFacts. now repeat split.
Qed.

(** The keys and the guard are kept by every handler, also one that
    throws. *)
Lemma quiet_keepsKeys (st : Client) r : quiet st r -> keepsKeys st r.
Proof.
  intros [(S & P & _) _] G. unfold Guarded in *. rewrite S, P.
  split; [exact G | auto].
Qed.

Lemma onMessage_keepsKeys (raw : option Envelope) (st : Client) :
  keepsKeys st (onMessage room me peer curve ecdh raw st).
Proof.
  destruct raw as [msg|];
    [|rewrite onMessage_unparsable; apply quiet_keepsKeys; now repeat split].
  destruct (addressedTo me msg) eqn:A;
    [|rewrite onMessage_elsewhere by assumption;
      apply quiet_keepsKeys; now repeat split].
  destruct (type_cases (e_type msg)) as [T|[T|[T|[T|(T1 & T2 & T3 & T4)]]]].
  - rewrite onMessage_joined by assumption.
    apply quiet_keepsKeys. split; [now repeat split|].
    cbn [effects_of fst snd]. rewrite filter_app.
    now destruct (handshakeSent st).
  - rewrite onMessage_request_handshake by assumption.
    apply quiet_keepsKeys. now repeat split.
  - destruct (peerHandshakeReceived st) eqn:P.
    { rewrite onMessage_handshake_duplicate by assumption.
      apply quiet_keepsKeys. now repeat split. }
    destruct (strictEq (otherCurve msg) curve) eqn:C.
    2:{ rewrite onMessage_handshake_mismatch by assumption.
        apply quiet_keepsKeys. now repeat split. }
    destruct (computeSecret ecdh (otherPub msg)) as [shared|] eqn:K.
    2:{ rewrite onMessage_handshake_badkey by assumption.
        apply quiet_keepsKeys. split; [now repeat split|].
        cbn [effects_of fst snd]. unfold reply.
        now destruct (handshakeSent st). }
    destruct (deriveSessionKeys shared (sessionContext room me curve (e_from msg)))
      as [keys|e] eqn:Dk.
    2:{ rewrite (onMessage_handshake_refused room me peer curve ecdh msg st shared e)
          by assumption.
        apply quiet_keepsKeys. split; [now repeat split|].
        cbn [effects_of fst snd]. unfold reply.
        now destruct (handshakeSent st). }
    destruct (onMessage_handshake_session room me peer curve ecdh msg st shared keys
                A T P C K Dk) as (S' & P' & _).
    intros G. split; [intros _; exact P'|].
    intros k S. assert (P1 : peerHandshakeReceived st = true)
      by (apply G; congruence).
    congruence.
  - destruct (session st) as [keys|] eqn:S.
    + rewrite onMessage_msg_opened by congruence.
      apply quiet_keepsKeys. unfold call.
      destruct (Opens_frame room me msg st _ (handle_opens room me msg st))
        as (F1 & F2 & _).
      destruct (handleEncryptedMessage room me msg st) as [[st1 out1] c1].
      cbn [state_of effects_of completion_of fst snd] in *.
      destruct c1 as [[]| | |]; split; cbn [state_of effects_of fst snd];
        auto using sameButRecv_sameProtocol.
    + rewrite onMessage_msg_queued by assumption.
      intros G. unfold Guarded in *. cbn. rewrite S in *.
      split; [exact G | discriminate].
  - rewrite onMessage_other by assumption.
    apply quiet_keepsKeys. now repeat split.
Qed.

Lemma handler_keepsKeys (ev : Event) (st : Client) :
  keepsKeys st (handler room me peer curve ecdh ev st).
Proof.
  destruct ev as [ |raw| | | |line iv| ]; cbn [handler].
  - apply quiet_keepsKeys. now repeat split.
  - apply onMessage_keepsKeys.
  - apply quiet_keepsKeys. now repeat split.
  - apply quiet_keepsKeys. now repeat split.
  - apply quiet_keepsKeys, onTimeout_quiet.
  - apply quiet_keepsKeys, onLine_quiet.
  - apply quiet_keepsKeys. now repeat split.
Qed.

End Steps.

(** ** Runs *)

Section Runs.
Context {node : Node}.
Variables (room me peer curve : string) (ecdh : ECDH).

Lemma Inv_initial : Inv initial.
Proof. reflexivity. Qed.

(** One event of a run. *)
Lemma turn_next (rejected : bool) (ev : Event) (evs : list Event) (st : Client) :
  let h := handler room me peer curve ecdh ev st in
  turn room me peer curve ecdh rejected (ev :: evs) st
  = (state_of h, effects_of h, false) \/
  exists rejected',
    (rejected = true -> rejected' = true) /\
    (alive (completion_of h) = false -> rejected' = true) /\
    (rejected = false -> alive (completion_of h) = true -> rejected' = false) /\
    turn room me peer curve ecdh rejected (ev :: evs) st
    = (let r := turn room me peer curve ecdh rejected' evs (state_of h) in
       (state_of r, effects_of h ++ effects_of r, snd r)).
Proof.
  cbn zeta. destruct ev as [ |raw| | | |line iv| ];
    try (cbn [turn];
         destruct (handler room me peer curve ecdh _ st) as [[st1 out1] [[]| |e|]];
         cbn [state_of effects_of completion_of fst snd alive];
         [right; exists rejected | right; exists rejected
         | right; exists true | now left];
         (repeat split; try congruence;
          now destruct (turn room me peer curve ecdh _ evs st1) as [[st2 out2] a])).
  cbn [turn handler]. destruct rejected; [now left|].
  right. exists false. cbn. repeat split; try congruence.
  now destruct (turn room me peer curve ecdh false evs st) as [[st2 out2] a].
Qed.

(** The effects of a run: those of the first handler, and then nothing
    more or those of the rest of the run. *)
Lemma turn_step (rejected : bool) (ev : Event) (evs : list Event) (st : Client) :
  let h := handler room me peer curve ecdh ev st in
  exists rest,
    effects_of (turn room me peer curve ecdh rejected (ev :: evs) st)
    = effects_of h ++ rest /\
    (rest = [] \/
     exists rejected',
       rest = effects_of (turn room me peer curve ecdh rejected' evs (state_of h))).
Proof.
  cbn zeta.
  destruct (turn_next rejected ev evs st) as [E|(rej & _ & _ & _ & E)]; rewrite E.
  - exists []. cbn [effects_of fst snd]. rewrite app_nil_r. auto.
  - eexists. cbn [effects_of fst snd]. split; [reflexivity|]. right. now exists rej.
Qed.

Lemma run_cons (ev : Event) (evs : list Event) (st : Client) :
  run room me peer curve ecdh (ev :: evs) st =
  let r := handler room me peer curve ecdh ev st in
  match completion_of r with
  | Exit => (state_of r, effects_of r, false)
  | Throw _ =>
      let r' := turn room me peer curve ecdh true evs (state_of r) in
      (state_of r', effects_of r ++ effects_of r', snd r')
  | Normal _ | Return =>
      let r' := run room me peer curve ecdh evs (state_of r) in
      (state_of r', effects_of r ++ effects_of r', snd r')
  end.
Proof.
  unfold run. destruct ev as [ |raw| | | |line iv| ]; cbn [turn];
    try (destruct (handler room me peer curve ecdh _ st) as [[st1 out1] [[]| |e|]];
         cbn [state_of effects_of completion_of fst snd];
         try reflexivity;
         now destruct (turn room me peer curve ecdh _ evs st1) as [[st2 out2] a]).
  cbn. now destruct (turn room me peer curve ecdh false evs st) as [[st2 out2] a].
Qed.

(** A handler that does not throw or exit is followed by the rest of
    the run. *)
Lemma run_cons_alive (ev : Event) (evs : list Event) (st : Client) :
  let r := handler room me peer curve ecdh ev st in
  alive (completion_of r) = true ->
  run room me peer curve ecdh (ev :: evs) st =
  let r' := run room me peer curve ecdh evs (state_of r) in
  (state_of r', effects_of r ++ effects_of r', snd r').
Proof.
  cbn zeta. intros L. rewrite run_cons. cbn zeta.
  now destruct (completion_of (handler room me peer curve ecdh ev st))
    as [[]| |e|].
Qed.

(** A run of one event. *)
Lemma run_one (ev : Event) (st : Client) :
  run room me peer curve ecdh [ev] st =
  let r := handler room me peer curve ecdh ev st in
  (state_of r, effects_of r, alive (completion_of r)).
Proof.
  rewrite run_cons. cbn zeta.
  destruct (handler room me peer curve ecdh ev st) as [[st1 out1] [[]| |e|]];
    cbn; now rewrite ?app_nil_r.
Qed.

(** Once a handler has thrown the process does not live on. *)
Lemma turn_rejected (evs : list Event) (st : Client) :
  snd (turn room me peer curve ecdh true evs st) = false.
Proof.
  revert st; induction evs as [|ev evs IH]; intros st; [reflexivity|].
  destruct (turn_next true ev evs st) as [E|(rej & R & _ & _ & E)];
    rewrite E; [reflexivity|].
  rewrite (R eq_refl). cbn. apply IH.
Qed.


Lemma turn_app (rejected : bool) (evs1 evs2 : list Event) (st : Client) :
  let r1 := turn room me peer curve ecdh rejected evs1 st in
  snd r1 = true ->
  turn room me peer curve ecdh rejected (evs1 ++ evs2) st =
  let r2 := run room me peer curve ecdh evs2 (state_of r1) in
  (state_of r2, effects_of r1 ++ effects_of r2, snd r2).
Proof.
  cbn zeta. revert rejected st; induction evs1 as [|ev evs1 IH]; intros rejected st L.
  - cbn in L. apply negb_true_iff in L. subst rejected. cbn. unfold run.
    now destruct (turn room me peer curve ecdh false evs2 st) as [[st2 out2] a].
  - cbn [app].
    destruct ev as [ |raw| | | |line iv| ]; cbn [turn] in *;
      try (destruct (handler room me peer curve ecdh _ st) as [[st1 out1] [[]| |e|]];
           try discriminate L;
           (match type of L with
            | snd (let (_, _) := turn _ _ _ _ _ ?rej _ _ in _) = true =>
                specialize (IH rej st1)
            end;
            destruct (turn room me peer curve ecdh _ evs1 st1) as [[st2 out2] a];
            cbn [fst snd state_of effects_of] in *;
            rewrite (IH L);
            destruct (run room me peer curve ecdh evs2 st2) as [[st3 out3] a3];
            cbn [fst snd state_of effects_of]; now rewrite app_assoc)).
    destruct rejected; [discriminate L|]. now apply IH.
Qed.

Lemma run_app (evs1 evs2 : list Event) (st : Client) :
  let r1 := run room me peer curve ecdh evs1 st in
  snd r1 = true ->
  run room me peer curve ecdh (evs1 ++ evs2) st =
  let r2 := run room me peer curve ecdh evs2 (state_of r1) in
  (state_of r2, effects_of r1 ++ effects_of r2, snd r2).
Proof. apply turn_app. Qed.

(** What every handler keeps holds of the state a run ends in. *)
Lemma turn_keeps (P : Client -> Prop) (rejected : bool) (evs : list Event)
    (st : Client) :
  (forall ev st, P st -> P (state_of (handler room me peer curve ecdh ev st))) ->
  P st -> P (state_of (turn room me peer curve ecdh rejected evs st)).
Proof.
  intros H. revert rejected st; induction evs as [|ev evs IH]; intros rejected st I;
    [exact I|].
  destruct (turn_next rejected ev evs st) as [E|(rej & _ & _ & _ & E)]; rewrite E.
  - now apply H.
  - cbn. apply IH. now apply H.
Qed.

(** Every effect of a run is the effect of one of its handlers. *)
Lemma turn_effects (P : Client -> Prop) (rejected : bool) (evs : list Event)
    (st : Client) (e : Effect) :
  (forall ev st, P st -> P (state_of (handler room me peer curve ecdh ev st))) ->
  P st ->
  In e (effects_of (turn room me peer curve ecdh rejected evs st)) ->
  exists ev st',
    P st' /\ In e (effects_of (handler room me peer curve ecdh ev st')).
Proof.
  intros H. revert rejected st; induction evs as [|ev evs IH]; intros rejected st I;
    [intros []|].
  destruct (turn_next rejected ev evs st) as [E|(rej & _ & _ & _ & E)]; rewrite E.
  - intros J. now exists ev, st.
  - cbn [effects_of fst snd]. intros J. apply in_app_or in J as [J|J].
    + now exists ev, st.
    + apply (IH rej _ (H ev st I) J).
Qed.

(** The invariant holds as long as no handler has thrown. *)
Lemma run_Inv (evs : list Event) (st st' : Client) (out : list Effect) :
  Inv st -> run room me peer curve ecdh evs st = (st', out, true) -> Inv st'.
Proof.
  revert st st' out; induction evs as [|ev evs IH]; intros st st' out I R.
  - cbn in R. now injection R as <- _.
  - rewrite run_cons in R. cbn zeta in R.
    destruct (handler_stepFacts room me peer curve ecdh ev st) as (F1 & _).
    destruct (completion_of (handler room me peer curve ecdh ev st))
      as [[]| |e|] eqn:C; cbn [alive] in F1.
    + destruct (run room me peer curve ecdh evs _) as [[st2 out2] a] eqn:R2.
      cbn [state_of effects_of fst snd] in R. injection R as <- _ ->.
      eapply IH; [apply F1; auto | exact R2].
    + destruct (run room me peer curve ecdh evs _) as [[st2 out2] a] eqn:R2.
      cbn [state_of effects_of fst snd] in R. injection R as <- _ ->.
      eapply IH; [apply F1; auto | exact R2].
    + pose proof (turn_rejected evs
                    (state_of (handler room me peer curve ecdh ev st))) as F.
      injection R as _ _ R. congruence.
    + discriminate R.
Qed.

Lemma Guarded_initial : Guarded initial.
Proof. intros H. now destruct H. Qed.

(** The guard holds of every state a run leaves, also after a handler
    has thrown. *)
Lemma turn_Guarded (rejected : bool) (evs : list Event) (st : Client) :
  Guarded st -> Guarded (state_of (turn room me peer curve ecdh rejected evs st)).
Proof.
  apply turn_keeps. intros ev st0 G.
  now destruct (handler_keepsKeys room me peer curve ecdh ev st0 G).
Qed.

Lemma Reachable_Guarded (st : Client) :
  Reachable room me peer curve ecdh st -> Guarded st.
Proof.
  intros (evs & out & live & R).
  pose proof (turn_Guarded false evs initial Guarded_initial) as G.
  unfold run in R. now rewrite R in G.
Qed.

(** The drain line is printed at most once in a run, and never once the
    peer's handshake was accepted. *)
Lemma turn_drains_once (rejected : bool) (evs : list Event) (st : Client) :
  let out := effects_of (turn room me peer curve ecdh rejected evs st) in
  (count is_drain_log out <= 1)%nat /\
  (peerHandshakeReceived st = true -> count is_drain_log out = 0%nat).
Proof.
  revert rejected st; induction evs as [|ev evs IH]; intros rejected st; cbn zeta.
  - cbn. auto.
  - destruct (handler_stepFacts room me peer curve ecdh ev st)
      as (_ & F2 & F3 & F4 & _).
    destruct (turn_next rejected ev evs st) as [E|(rej & _ & _ & _ & E)]; rewrite E;
      cbn [effects_of fst snd].
    + split; [exact F2|]. intros P. now destruct (F3 P).
    + specialize (IH rej (state_of (handler room me peer curve ecdh ev st))).
      cbn zeta in IH. destruct IH as [I1 I2].
      unfold count in *. rewrite filter_app, length_app. split.
      * destruct (Nat.eq_dec
                    (List.length (filter is_drain_log
                       (effects_of (handler room me peer curve ecdh ev st)))) 1)
          as [E1|E1].
        -- rewrite (I2 (F4 E1)). lia.
        -- lia.
      * intros P. destruct (F3 P) as [P' ->]. now rewrite (I2 P').
Qed.

Lemma run_drains_once (evs : list Event) (st : Client) :
  let out := effects_of (run room me peer curve ecdh evs st) in
  (count is_drain_log out <= 1)%nat /\
  (peerHandshakeReceived st = true -> count is_drain_log out = 0%nat).
Proof. apply turn_drains_once. Qed.

(** Once derived, the keys stay: no later handler changes the session,
    whether or not a handler throws. *)
Lemma turn_session_stable (rejected : bool) (evs : list Event) (st : Client)
    (keys : SessionKeys) :
  Guarded st -> session st = Some keys ->
  session (state_of (turn room me peer curve ecdh rejected evs st)) = Some keys.
Proof.
  intros G S.
  apply (turn_keeps (fun st => Guarded st /\ session st = Some keys));
    [|now split].
  intros ev st0 [G0 S0].
  destruct (handler_keepsKeys room me peer curve ecdh ev st0 G0) as [G1 K].
  split; [exact G1 | now apply K].
Qed.

End Runs.

(** ** The secure session: one client *)

Section Session.
Context {node : Node}.
Variables (room me peer curve : string) (ecdh : ECDH).

(** A message whose MAC does not compare equal is reported and dropped. *)
Lemma hmac_mismatch_rejected (msg : Envelope) (st : Client) (keys : SessionKeys) :
  session st = Some keys ->
  hasMsgFields msg = true ->
  timingSafeEq (macExpected room me keys msg) (hmacB msg) = Ok false ->
  handleEncryptedMessage room me msg st = (st, [console_log LogHmacFailed], Return) /\
  (addressedTo me msg = true -> e_type msg = Some "msg" ->
   run room me peer curve ecdh [WsMessage (Some msg)] st
     = (st, [console_log LogHmacFailed], true)).
Proof.
  intros S F Hmac.
  assert (E : handleEncryptedMessage room me msg st
              = (st, [console_log LogHmacFailed], Return))
    by (destruct (handle_opens room me msg st); congruence).
  split; [exact E|]. intros A T.
  rewrite run_one. cbn [handler]. rewrite onMessage_msg_opened by congruence.
  unfold call. now rewrite E.
Qed.

(** C3. Opening a message under an established session: the HMAC over
    aad || iv || ciphertext || authTag is recomputed and compared with
    [timingSafeEq] first. When the comparison fails the failure is
    reported and nothing else happens: the state is unchanged and
    [decryptAesGcm] is not called. Whenever [decryptAesGcm] is called,
    the comparison has succeeded, on the very buffers that are
    decrypted. In no case does opening a message change more than the
    receive counter. *)
Theorem authenticate_before_decrypt (msg : Envelope) (st : Client) (keys : SessionKeys) :
  session st = Some keys ->
  let expected :=
    hmacSha256 (kMac keys)
      (aad room me msg ++ ivB msg ++ ctB msg ++ tagB msg) in
  let r := handleEncryptedMessage room me msg st in
  (hasMsgFields msg = true ->
   timingSafeEq expected (hmacB msg) = Ok false ->
   r = (st, [console_log LogHmacFailed], Return) /\
   (addressedTo me msg = true -> e_type msg = Some "msg" ->
    run room me peer curve ecdh [WsMessage (Some msg)] st
      = (st, [console_log LogHmacFailed], true))) /\
  (forall k iv ct tag ad,
     In (call_decryptAesGcm k iv ct tag ad) (effects_of r) ->
     hasMsgFields msg = true /\
     timingSafeEq expected (hmacB msg) = Ok true /\
     k = kEnc keys /\ iv = ivB msg /\ ct = ctB msg /\ tag = tagB msg /\
     ad = aad room me msg) /\
  sameButRecv st (state_of r).
Proof.
  intros S expected r.
  assert (O := handle_opens room me msg st). fold r in O.
  change expected with (macExpected room me keys msg) in *.
  split; [|split].
  - intros F Hmac. now apply (hmac_mismatch_rejected msg st keys).
  - intros k iv ct tag ad I.
    destruct O as [ | | |keys' S' F Hmac D|keys' pt S' F Hmac D];
      cbn [effects_of fst snd In] in I;
      try (exfalso; intuition discriminate; fail);
      assert (keys' = keys) by congruence; subst keys';
      destruct I as [I|[I|[]]]; try discriminate I;
      injection I as <- <- <- <- <-; auto 10.
  - now destruct (Opens_frame room me msg st r O).
Qed.

(** C10. [timingSafeEq] is total: it returns [false] on buffers of
    different lengths, where [crypto.timingSafeEqual] would throw, and
    it returns [true] exactly on equal buffers. A message whose [hmac]
    field decodes to a buffer of the wrong length is therefore rejected
    like any other forgery: the failure is reported, the state is
    unchanged and the client lives on. *)
Theorem timingSafeEq_total (msg : Envelope) (st : Client) (keys : SessionKeys) :
  (forall a b : bytes,
     (exists v, timingSafeEq a b = Ok v) /\
     (List.length a <> List.length b ->
        timingSafeEqual a b = Err RangeError /\ timingSafeEq a b = Ok false) /\
     (timingSafeEq a b = Ok true <-> a = b)) /\
  (session st = Some keys ->
   addressedTo me msg = true ->
   e_type msg = Some "msg" ->
   hasMsgFields msg = true ->
   List.length (hmacB msg) <> List.length (macExpected room me keys msg) ->
   run room me peer curve ecdh [WsMessage (Some msg)] st
     = (st, [console_log LogHmacFailed], true)).
Proof.
  split.
  - intros a b. rewrite timingSafeEq_decides. split; [eauto|]. split.
    + intros L. split.
      * unfold timingSafeEqual. now destruct (Nat.eqb_spec (List.length a) (List.length b)).
      * f_equal. apply not_true_is_false. rewrite bytes_eqb_eq. congruence.
    + rewrite <- bytes_eqb_eq. split; congruence.
  - intros S A T F L.
    apply (hmac_mismatch_rejected msg st keys S); auto.
    rewrite timingSafeEq_decides. f_equal.
    apply not_true_is_false. rewrite bytes_eqb_eq. congruence.
Qed.

(** C6. A handshake that arrives once the session is established does
    nothing: the handler returns with the state as it was (session keys,
    both counters and the queue included), it sends nothing and throws
    nothing; at most it prints that the duplicate is ignored. *)
Theorem duplicate_handshake_noop (msg : Envelope) (st : Client) :
  Reachable room me peer curve ecdh st ->
  Established st ->
  e_type msg = Some "handshake" ->
  run room me peer curve ecdh [WsMessage (Some msg)] st
    = (st,
       if addressedTo me msg
       then [console_log (LogDuplicateHandshake (e_from msg))]
       else [],
       true).
Proof.
  intros R E T. apply Reachable_Guarded in R.
  assert (P : peerHandshakeReceived st = true) by (apply R, E).
  rewrite run_one. cbn [handler]. destruct (addressedTo me msg) eqn:A.
  - now rewrite onMessage_handshake_duplicate.
  - now rewrite onMessage_elsewhere.
Qed.

(** As long as no handler has thrown, an established session has an
    empty queue. From then on no handler puts anything into the queue
    or prints the drain line; a [msg] envelope addressed to the client
    is opened at once; and in a whole run the drain line is printed at
    most once. *)
Lemma queue_empty_while_alive (evs : list Event) (st : Client) (out : list Effect) :
  run room me peer curve ecdh evs initial = (st, out, true) ->
  Established st ->
  pendingMessages st = [] /\
  peerHandshakeReceived st = true /\
  (count is_drain_log out <= 1)%nat /\
  (forall ev,
     let r := handler room me peer curve ecdh ev st in
     pendingMessages (state_of r) = [] /\
     session (state_of r) = session st /\
     filter is_drain_log (effects_of r) = []) /\
  (forall msg,
     addressedTo me msg = true -> e_type msg = Some "msg" ->
     onMessage room me peer curve ecdh (Some msg) st
       = call (handleEncryptedMessage room me msg) st).
Proof.
  intros R E.
  assert (I : Inv st) by (eapply run_Inv; eauto using Inv_initial).
  assert (I' := I). unfold Inv, Established in *.
  destruct (session st) as [keys|] eqn:S; [|congruence]. destruct I' as [P Q].
  split; [exact Q|]. split; [exact P|]. split; [|split].
  - pose proof (run_drains_once room me peer curve ecdh evs initial) as [D _].
    now rewrite R in D.
  - intros ev.
    destruct (handler_stepFacts room me peer curve ecdh ev st)
      as (_ & _ & F3 & _ & F5).
    assert (I2 : Inv st) by (unfold Inv; rewrite S; auto).
    assert (S2 : session st <> None) by congruence.
    destruct (F5 I2 S2) as (E1 & E2 & E3). destruct (F3 P) as [_ D].
    repeat split; [congruence | congruence |].
    unfold count in D. now apply length_zero_iff_nil.
  - intros msg A T. apply onMessage_msg_opened; congruence.
Qed.

(** C4, as the client behaves. A handshake that declares another curve
    is reported and dropped: no keys are derived from it and the state
    is left as it was. There is no aborted state: the run goes on as if
    the envelope had not come, so that a later handshake on the right
    curve is accepted and a [request_handshake] is answered. *)
Theorem curve_mismatch_discarded (msg : Envelope) (st : Client) (evs : list Event) :
  addressedTo me msg = true ->
  e_type msg = Some "handshake" ->
  peerHandshakeReceived st = false ->
  strictEq (otherCurve msg) curve = false ->
  let report :=
    greeting msg ++ [console_log (LogCurveMismatch curve (otherCurve msg))] in
  onMessage room me peer curve ecdh (Some msg) st = (st, report, Return) /\
  run room me peer curve ecdh (WsMessage (Some msg) :: evs) st
    = (let r := run room me peer curve ecdh evs st in
       (state_of r, report ++ effects_of r, snd r)).
Proof.
  intros A T P C report.
  pose proof (onMessage_handshake_mismatch room me peer curve ecdh msg st A T P C) as E.
  split; [exact E|].
  rewrite run_cons_alive; cbn [handler]; rewrite E; reflexivity.
Qed.

End Session.

(** One event of a run of the restyled client. *)
Lemma styled_run_cons {node : Node} (room me peer curve : string) (ecdh : ECDH)
    (ev : Event) (evs : list Event) (st : Client) :
  Styled.run room me peer curve ecdh (ev :: evs) st =
  let r := Styled.handler room me peer curve ecdh ev st in
  match completion_of r with
  | Exit => (state_of r, effects_of r, false)
  | Throw _ =>
      let r' := Styled.turn room me peer curve ecdh true evs (state_of r) in
      (state_of r', effects_of r ++ effects_of r', snd r')
  | Normal _ | Return =>
      let r' := Styled.run room me peer curve ecdh evs (state_of r) in
      (state_of r', effects_of r ++ effects_of r', snd r')
  end.
Proof.
  unfold Styled.run. destruct ev as [ |raw| | | |line iv| ]; cbn [Styled.turn];
    try (destruct (Styled.handler room me peer curve ecdh _ st)
           as [[st1 out1] [[]| |e|]];
         cbn [state_of effects_of completion_of fst snd];
         try reflexivity;
         now destruct (Styled.turn room me peer curve ecdh _ evs st1)
           as [[st2 out2] a]).
  cbn. now destruct (Styled.turn room me peer curve ecdh false evs st)
         as [[st2 out2] a].
Qed.

(** The restyled client drops a handshake on another curve in the
    same way: it prints, returns, and the state is as it was. *)
Lemma styled_curve_mismatch_discarded {node : Node}
    (room me peer curve : string) (ecdh : ECDH) (msg : Envelope) (st : Client)
    (evs : list Event) :
  addressedTo me msg = true ->
  e_type msg = Some "handshake" ->
  peerHandshakeReceived st = false ->
  strictEq (otherCurve msg) curve = false ->
  let report :=
    [console_log (LogHandshakeReceived (e_from msg));
     console_log LogFingerprintLabel;
     console_log (LogPeerFingerprint (fingerprint (otherPub msg)));
     console_log LogVerifyFingerprint;
     console_log LogCurveMismatchDetected] in
  Styled.onMessage room me peer curve ecdh (Some msg) st = (st, report, Return) /\
  Styled.run room me peer curve ecdh (WsMessage (Some msg) :: evs) st
    = (let r := Styled.run room me peer curve ecdh evs st in
       (state_of r, report ++ effects_of r, snd r)).
Proof.
  intros A T P C report. apply addressedTo_filter in A.
  assert (E : Styled.onMessage room me peer curve ecdh (Some msg) st
              = (st, report, Return)).
  { unfold Styled.onMessage. rewrite A, T.
    cbn [strictEq String.eqb Ascii.eqb Bool.eqb].
    unfold otherCurve in C.
    cbv beta iota zeta delta [bind get when ret]. rewrite P, unb64_pub.
    step_m. now rewrite C. }
  split; [exact E|].
  rewrite styled_run_cons. cbn [Styled.handler]. now rewrite E.
Qed.

(** ** The pending queue *)

Section Queue.
Context {node : Node}.
Variables (room me peer curve : string) (ecdh : ECDH).

(** Envelopes of type [msg] that arrive before the session exists are
    appended to the queue, one after the other. *)
Lemma run_arrivals (ms : list Envelope) (st : Client) :
  session st = None ->
  forallb (isMsgFor me) ms = true ->
  run room me peer curve ecdh (arrivals ms) st
    = (set_pendingMessages (pendingMessages st ++ ms) st,
       map (fun _ => console_log LogReceivedBeforeSession) ms,
       true).
Proof.
  revert st; induction ms as [|m ms IH]; intros st S F.
  - cbn. rewrite app_nil_r. now destruct st.
  - cbn [forallb] in F. apply andb_true_iff in F as [Fm Fms].
    unfold isMsgFor in Fm. apply andb_true_iff in Fm as [A T].
    assert (T' : e_type m = Some "msg").
    { unfold strictEq in T. destruct (e_type m) as [t|]; [|discriminate].
      now apply String.eqb_eq in T as ->. }
    unfold arrivals. cbn [map]. rewrite run_cons. cbn [handler].
    rewrite onMessage_msg_queued by assumption.
    cbn [completion_of state_of effects_of alive fst snd]. cbv zeta.
    fold (arrivals ms). rewrite IH by (assumption || now destruct st).
    cbn [state_of effects_of fst snd app]. do 2 f_equal.
    destruct st; cbn. now rewrite <- app_assoc.
Qed.

(** As long as there is no session, every [msg] envelope that arrives
    for the client is appended to the queue. When the queued envelopes
    all carry their four binary fields, the handshake that establishes
    the session opens every one of them, in the order of arrival, within
    the same handler run, and leaves the queue empty. *)
Lemma wellformed_queue_drained (ms : list Envelope) (hs : Envelope) (st : Client)
    (shared : bytes) (keys : SessionKeys) :
  session st = None ->
  peerHandshakeReceived st = false ->
  forallb (isMsgFor me) ms = true ->
  let queue := pendingMessages st ++ ms in
  let queued := map (fun _ => console_log LogReceivedBeforeSession) ms in
  run room me peer curve ecdh (arrivals ms) st
    = (set_pendingMessages queue st, queued, true) /\
  (forallb hasMsgFields queue = true ->
   addressedTo me hs = true ->
   e_type hs = Some "handshake" ->
   strictEq (otherCurve hs) curve = true ->
   computeSecret ecdh (otherPub hs) = Some shared ->
   deriveSessionKeys shared (sessionContext room me curve (e_from hs)) = Ok keys ->
   exists st',
     run room me peer curve ecdh (arrivals ms ++ [WsMessage (Some hs)]) st
       = (st',
          queued
            ++ greeting hs ++ reply room me curve ecdh hs st
            ++ [console_log LogSessionKeysDerived; console_log LogStartChatting]
            ++ match queue with
               | [] => []
               | _ :: _ => [console_log (LogProcessingPending (List.length queue))]
               end
            ++ List.concat (map (openEffects room me keys) queue)
            ++ (if promptLoop_running st then [] else [rl_question]),
          true) /\
     session st' = Some keys /\
     pendingMessages st' = []).
Proof.
  intros S P F queue queued.
  pose proof (run_arrivals ms st S F) as RA. fold queue queued in RA.
  split; [exact RA|].
  intros W A T C K Dk.
  set (st1 := set_pendingMessages queue st) in *.
  assert (P1 : peerHandshakeReceived st1 = false) by (now destruct st).
  rewrite run_app by (now rewrite RA). rewrite RA.
  cbn [state_of effects_of fst snd]. cbv zeta.
  rewrite run_one. cbn [handler]. cbv zeta.
  rewrite (onMessage_handshake_established room me peer curve ecdh hs st1 shared keys
             A T P1 C K Dk).
  cbv zeta.
  assert (Sk : session (keyed keys st1) = Some keys) by reflexivity.
  assert (Qk : pendingMessages (keyed keys st1) = queue) by reflexivity.
  destruct (processPendingMessages_wellformed room me (keyed keys st1) keys Sk)
    as [E N]; [now rewrite Qk|]. rewrite Qk in E.
  destruct (processPendingMessages_spec room me (keyed keys st1)) as (_ & _ & Fr & Q).
  destruct (processPendingMessages room me (keyed keys st1)) as [[st2 out2] c2].
  cbn [state_of effects_of completion_of fst snd] in *. subst c2 out2.
  destruct Q as [[_ Q]|[Q _]]; [|discriminate Q].
  assert (S2 : session st2 = Some keys) by (rewrite Fr; now destruct st).
  assert (R2 : promptLoop_running st2 = promptLoop_running st)
    by (rewrite Fr; now destruct st).
  assert (Rp : reply room me curve ecdh hs st1 = reply room me curve ecdh hs st)
    by (now destruct st).
  rewrite R2, Rp.
  destruct (promptLoop_running st);
    cbn [state_of effects_of completion_of alive fst snd];
    eexists; (split; [|split; [|]]);
    try (rewrite <- ?app_assoc, ?app_nil_r; reflexivity); assumption.
Qed.

End Queue.

(** ** The secure session: two clients *)

Section TwoClients.
Context {node : Node}.
Variables (room curve : string).

(** [units_ltb] decides the lexicographic order. *)
Lemma units_ltb_lexLt (x y : list N) : units_ltb x y = true <-> lexLt x y.
Proof.
  split.
  - revert y; induction x as [|a x IH]; intros [|b y] H; cbn in H;
      try discriminate H.
    + constructor.
    + destruct (N.ltb_spec a b) as [L|L]; [now constructor|].
      destruct (N.ltb_spec b a) as [L'|L']; [discriminate H|].
      assert (a = b) by lia. subst b. apply lexLt_tail. now apply IH.
  - induction 1 as [b y|a b x y L|a x y L IH]; cbn.
    + reflexivity.
    + apply N.ltb_lt in L. now rewrite L.
    + now rewrite N.ltb_irrefl.
Qed.

Lemma units_ltb_asymmetric (x y : list N) :
  units_ltb x y = true -> units_ltb y x = false.
Proof.
  revert y; induction x as [|a x IH]; intros [|b y] H; cbn in *;
    try discriminate H; try reflexivity.
  destruct (N.ltb_spec a b) as [L|L].
  - destruct (N.ltb_spec b a); [lia | reflexivity].
  - destruct (N.ltb_spec b a) as [L'|L']; [discriminate H|]. now apply IH.
Qed.

Lemma units_ltb_total (x y : list N) :
  units_ltb x y = false -> units_ltb y x = false -> x = y.
Proof.
  revert y; induction x as [|a x IH]; intros [|b y] H1 H2; cbn in *;
    try discriminate; try reflexivity.
  destruct (N.ltb_spec a b) as [L|L]; [discriminate|].
  destruct (N.ltb_spec b a) as [L'|L']; [discriminate|].
  assert (a = b) by lia. subst b. f_equal. now apply IH.
Qed.

(** The context string of two distinct identities: the smaller one, in
    the order of their code units, is [peer1] and the other [peer2], at
    both ends. *)
Lemma sessionContext_sorted (a b : string) :
  utf16 a <> utf16 b ->
  exists lo hi,
    ((lo = a /\ hi = b) \/ (lo = b /\ hi = a)) /\
    lexLt (utf16 lo) (utf16 hi) /\
    sessionContext room a curve (Some b)
    = ("room:" ++ room ++ "|peer1:" ++ lo ++ "|peer2:" ++ hi
         ++ "|curve:" ++ curve)%string /\
    sessionContext room b curve (Some a)
    = ("room:" ++ room ++ "|peer1:" ++ lo ++ "|peer2:" ++ hi
         ++ "|curve:" ++ curve)%string.
Proof.
  intros D. unfold sessionContext, sort2, js_ltb.
  destruct (units_ltb (utf16 b) (utf16 a)) eqn:Hba,
           (units_ltb (utf16 a) (utf16 b)) eqn:Hab.
  - apply units_ltb_asymmetric in Hba. congruence.
  - exists b, a. cbn [show]. repeat split; auto. now apply units_ltb_lexLt.
  - exists a, b. cbn [show]. repeat split; auto. now apply units_ltb_lexLt.
  - destruct D. now apply units_ltb_total.
Qed.

(** Both ends build the same context string. *)
Lemma sessionContext_symmetric (a b : string) :
  utf16 a <> utf16 b ->
  sessionContext room a curve (Some b) = sessionContext room b curve (Some a).
Proof.
  intros D. destruct (sessionContext_sorted a b D) as (lo & hi & _ & _ & E1 & E2).
  congruence.
Qed.

Lemma addressedTo_self (me : string) (msg : Envelope) :
  e_to msg = Some me -> addressedTo me msg = true.
Proof.
  intros E. unfold addressedTo. rewrite E. cbn [strictEq].
  now rewrite String.eqb_refl, andb_false_r.
Qed.

(** C1. Two clients of the same room and curve, with distinct
    identities and key pairs that agree, whose context string is at most
    1024 bytes long: when each handles the handshake of the other, in
    whatever state short of an accepted handshake (so: whoever sent
    first), both store the same session keys. The context string is
    'room:{room}|peer1:{lo}|peer2:{hi}|curve:{curve}', where [lo] and
    [hi] are the two identities and [lo] comes before [hi] in the
    lexicographic order of their UTF-16 code units; it is the same
    string at both ends, and the keys are what [deriveSessionKeys]
    returns for the shared secret and this string. *)
Theorem session_keys_agree (a b peerA peerB : string) (ecdhA ecdhB : ECDH)
    (stA stB : Client) :
  base64_roundtrip ->
  agree ecdhA ecdhB ->
  peerHandshakeReceived stA = false ->
  peerHandshakeReceived stB = false ->
  utf16 a <> utf16 b ->
  (List.length (utf8 (sessionContext room a curve (Some b))) <= 1024)%nat ->
  let fromA := handshakeEnvelope room a curve ecdhA (Some b) in
  let fromB := handshakeEnvelope room b curve ecdhB (Some a) in
  let rA := onMessage room a peerA curve ecdhA (Some fromB) stA in
  let rB := onMessage room b peerB curve ecdhB (Some fromA) stB in
  (exists lo hi,
     ((lo = a /\ hi = b) \/ (lo = b /\ hi = a)) /\
     lexLt (utf16 lo) (utf16 hi) /\
     sessionContext room a curve (Some b)
     = ("room:" ++ room ++ "|peer1:" ++ lo ++ "|peer2:" ++ hi
          ++ "|curve:" ++ curve)%string) /\
  sessionContext room a curve (Some b) = sessionContext room b curve (Some a) /\
  exists shared keys,
    computeSharedSecret ecdhA (publicKey ecdhB) = Ok shared /\
    computeSharedSecret ecdhB (publicKey ecdhA) = Ok shared /\
    deriveSessionKeys shared (sessionContext room a curve (Some b)) = Ok keys /\
    session (state_of rA) = Some keys /\
    session (state_of rB) = Some keys.
Proof.
  intros B64 (shared & KA & KB) PA PB D L fromA fromB rA rB.
  split.
  { destruct (sessionContext_sorted a b D) as (lo & hi & O & Lt & E & _).
    now exists lo, hi. }
  split; [now apply sessionContext_symmetric|].
  pose proof (deriveSessionKeys_ok shared _ L) as Dk.
  eexists shared, _.
  assert (OA : otherPub fromA = getPublicKey ecdhA)
    by (unfold otherPub; cbn; apply B64).
  assert (OB : otherPub fromB = getPublicKey ecdhB)
    by (unfold otherPub; cbn; apply B64).
  assert (C : forall who ecdh to,
             strictEq (otherCurve (handshakeEnvelope room who curve ecdh to)) curve
             = true) by (intros; cbn; apply String.eqb_refl).
  split; [unfold computeSharedSecret, publicKey; now rewrite KA|].
  split; [unfold computeSharedSecret, publicKey; now rewrite KB|].
  split; [exact Dk|]. split.
  - apply (onMessage_handshake_session room a peerA curve ecdhA fromB stA shared);
      auto using addressedTo_self; [apply C | now rewrite OB].
  - apply (onMessage_handshake_session room b peerB curve ecdhB fromA stB shared);
      auto using addressedTo_self; [apply C | now rewrite OA |].
    cbn [fromA handshakeEnvelope e_from].
    rewrite <- (sessionContext_symmetric a b D). exact Dk.
Qed.

(** C2. What [sendMessage] seals, [handleEncryptedMessage] opens: for
    every line (the empty one included), every 12-byte IV and every
    session with a 32-byte encryption key, the line is encrypted under
    the associated data, the MAC over aad || iv || ciphertext || authTag
    is the one the receiver recomputes, and the receiver, holding the
    same keys and rebuilding the same associated data, prints exactly
    the line. *)
Theorem open_seal_roundtrip (a b peerB curveB : string) (ecdhB : ECDH)
    (keys : SessionKeys) (line : string) (iv : bytes) (stA stB : Client) :
  aes256gcm_correct ->
  base64_roundtrip ->
  utf8_roundtrip ->
  List.length (kEnc keys) = 32%nat ->
  List.length iv = 12%nat ->
  session stB = Some keys ->
  (forall ad : bytes,
     exists sealed,
       encryptAesGcm (kEnc keys) line ad iv = Ok sealed /\
       s_iv sealed = iv /\
       decryptAesGcm (kEnc keys) (s_iv sealed) (s_ct sealed) (s_tag sealed) ad
         = Ok line) /\
  exists env,
    sendMessage room a b keys line iv stA
      = (set_sendCounter (incr (sendCounter stA)) stA, [ws_send env], Normal tt) /\
    hmacB env = macExpected room b keys env /\
    run room b peerB curveB ecdhB [WsMessage (Some env)] stB
      = (set_recvCounter (incr (recvCounter stB)) stB,
         [call_decryptAesGcm (kEnc keys) (ivB env) (ctB env) (tagB env)
            (aad room b env);
          console_log (LogMessage (Some a) line)],
         true).
Proof.
  intros AEAD B64 UTF8 Lk Liv SB.
  assert (Seal : forall ad : bytes,
            exists ct tag,
              aes256gcm_encrypt (kEnc keys) iv ad (utf8 line) = Some (ct, tag) /\
              aes256gcm_decrypt (kEnc keys) iv ad ct tag = Some (utf8 line))
    by (intros ad; now apply AEAD).
  split.
  - intros ad. destruct (Seal ad) as (ct & tag & E & D).
    exists {| s_iv := iv; s_ct := ct; s_tag := tag |}.
    unfold encryptAesGcm, decryptAesGcm. cbn [s_iv s_ct s_tag].
    now rewrite E, D, UTF8.
  - set (counter := Z.of_N (incr (sendCounter stA))).
    set (ad := buildAad room (Some a) b (Some counter)).
    destruct (Seal ad) as (ct & tag & E & D).
    set (sealed := {| s_iv := iv; s_ct := ct; s_tag := tag |}).
    set (env := msgEnvelope room a b counter sealed
                  (hmacSha256 (kMac keys) (ad ++ iv ++ ct ++ tag))).
    assert (Eiv : ivB env = iv) by apply B64.
    assert (Ect : ctB env = ct) by apply B64.
    assert (Etag : tagB env = tag) by apply B64.
    assert (Ead : aad room b env = ad) by reflexivity.
    assert (Emac : hmacB env = macExpected room b keys env).
    { unfold macExpected, macData. rewrite Eiv, Ect, Etag, Ead. apply B64. }
    exists env. split; [|split; [exact Emac|]].
    + unfold sendMessage, encryptAesGcm. step_m. record_m.
      destruct stA as [j hs s sc rc ph pm pr pa]. cbn [sendCounter] in *.
      fold counter. fold ad. now rewrite E.
    + rewrite run_one. cbn [handler].
      rewrite onMessage_msg_opened
        by (auto using addressedTo_self; congruence).
      unfold call.
      destruct (handle_opens room b env stB)
        as [S|keys' S F|keys' S F M|keys' S F M Dn|keys' pt S F M Dp];
        try (assert (keys' = keys) by congruence; subst keys').
      * congruence.
      * discriminate F.
      * rewrite <- Emac, timingSafeEq_decides, bytes_eqb_refl in M. discriminate M.
      * rewrite Eiv, Ect, Etag, Ead in Dn. congruence.
      * rewrite Eiv, Ect, Etag, Ead in Dp.
        assert (pt = utf8 line) by congruence. subst pt.
        now rewrite UTF8.
Qed.

End TwoClients.

(** ** The model meets the contracts *)

Module ModelFacts.
Import Model.
Local Open Scope N_scope.

Lemma byte_of_to_N (b : byte) : byte_of (Byte.to_N b) = b.
Proof.
  unfold byte_of. rewrite N.mod_small.
  - now rewrite Byte.of_to_N.
  - pose proof (Byte.to_N_bounded b). lia.
Qed.

Lemma to_N_byte_of (n : N) : n < 256 -> Byte.to_N (byte_of n) = n.
Proof.
  intros H. unfold byte_of. rewrite N.mod_small by assumption.
  destruct (Byte.of_N n) as [b|] eqn:E.
  - now apply Byte.to_of_N.
  - apply Byte.of_N_None_iff in E. lia.
Qed.

Lemma to_N_lt (b : byte) : Byte.to_N b < 256.
Proof. pose proof (Byte.to_N_bounded b). lia. Qed.

Lemma lxor_lt_256 (x y : N) : x < 256 -> y < 256 -> N.lxor x y < 256.
Proof.
  intros Hx Hy. change 256 with (2 ^ 8) in *.
  destruct (N.eq_dec (N.lxor x y) 0) as [->|Hz]; [reflexivity|].
  apply N.log2_lt_pow2; [lia|].
  pose proof (N.log2_lxor x y) as L.
  assert (N.log2 x < 8)
    by (destruct (N.eq_dec x 0) as [->|]; [reflexivity | apply N.log2_lt_pow2; lia]).
  assert (N.log2 y < 8)
    by (destruct (N.eq_dec y 0) as [->|]; [reflexivity | apply N.log2_lt_pow2; lia]).
  lia.
Qed.

Lemma xor_byte_cancel (x y : byte) : xor_byte (xor_byte x y) y = x.
Proof.
  unfold xor_byte.
  rewrite to_N_byte_of by (apply lxor_lt_256; apply to_N_lt).
  rewrite N.lxor_assoc, N.lxor_nilpotent, N.lxor_0_r.
  apply byte_of_to_N.
Qed.

Lemma xor_bytes_length (a b : bytes) :
  List.length a = List.length b -> List.length (xor_bytes a b) = List.length a.
Proof.
  revert b; induction a as [|x a IH]; intros [|y b]; cbn; try congruence.
  intros [= H]. now rewrite IH.
Qed.

Lemma xor_bytes_cancel (a b : bytes) :
  List.length a = List.length b -> xor_bytes (xor_bytes a b) b = a.
Proof.
  revert b; induction a as [|x a IH]; intros [|y b]; cbn; try congruence.
  intros [= H]. now rewrite xor_byte_cancel, IH.
Qed.

Lemma be_length (width : nat) (n : N) : List.length (be width n) = width.
Proof. induction width as [|w IH]; cbn; [reflexivity | now rewrite IH]. Qed.

Lemma model_sha256_length (data : bytes) : List.length (Model.sha256 data) = 32%nat.
Proof. unfold Model.sha256. now rewrite !length_app, !be_length. Qed.

Lemma hmac_length (key data : bytes) : List.length (hmac key data) = 32%nat.
Proof. apply model_sha256_length. Qed.

Lemma blocks_cover (len : nat) : (len <= 32 * ((len + 31) / 32))%nat.
Proof.
  pose proof (Nat.div_mod_eq (len + 31) 32).
  pose proof (Nat.mod_upper_bound (len + 31) 32). lia.
Qed.

Lemma hkdf_expand_length (n : nat) (prk info previous : bytes) (i : N) :
  List.length (hkdf_expand n prk info previous i) = (32 * n)%nat.
Proof.
  revert previous i; induction n as [|n IH]; intros previous i; [reflexivity|].
  cbn [hkdf_expand]. rewrite length_app, hmac_length, IH. lia.
Qed.

Lemma model_hkdf_length (ikm salt info : bytes) (len : nat) :
  List.length (hkdf ikm salt info len) = len.
Proof.
  unfold hkdf. rewrite length_firstn, hkdf_expand_length.
  pose proof (blocks_cover len). lia.
Qed.

Lemma keystream_blocks_length (n : nat) (key iv : bytes) (ctr : N) :
  List.length (keystream_blocks n key iv ctr) = (32 * n)%nat.
Proof.
  revert ctr; induction n as [|n IH]; intros ctr; [reflexivity|].
  cbn [keystream_blocks]. rewrite length_app, hmac_length, IH. lia.
Qed.

Lemma keystream_length (key iv : bytes) (len : nat) :
  List.length (keystream key iv len) = len.
Proof.
  unfold keystream. rewrite length_firstn, keystream_blocks_length.
  pose proof (blocks_cover len). lia.
Qed.

Lemma base64_char_value_nat (n : nat) :
  (n < 64)%nat ->
  base64_value (base64_char (N.of_nat n)) = Some (N.of_nat n) /\
  Ascii.eqb (base64_char (N.of_nat n)) "="%char = false.
Proof.
  intros H. do 64 (destruct n as [|n]; [now vm_compute|]). lia.
Qed.

Lemma sextets_char (v : N) (rest : string) :
  v < 64 -> sextets (String (base64_char v) rest) = v :: sextets rest.
Proof.
  intros H. destruct (base64_char_value_nat (N.to_nat v)) as [V E]; [lia|].
  rewrite N2Nat.id in V, E. cbn [sextets]. now rewrite E, V.
Qed.

Ltac div_mod_lia := zify; Z.to_euclidean_division_equations; lia.

Lemma sextet_bounds (a b c : N) :
  a < 256 -> b < 256 -> c < 256 ->
  a / 4 < 64 /\ a mod 4 * 16 + b / 16 < 64 /\
  b mod 16 * 4 + c / 64 < 64 /\ c mod 64 < 64 /\
  a mod 4 * 16 < 64 /\ b mod 16 * 4 < 64.
Proof. intros. repeat split; div_mod_lia. Qed.

Lemma sextet_bytes (a b c : N) :
  a < 256 -> b < 256 -> c < 256 ->
  a / 4 * 4 + (a mod 4 * 16 + b / 16) / 16 = a /\
  (a mod 4 * 16 + b / 16) mod 16 * 16 + (b mod 16 * 4 + c / 64) / 4 = b /\
  (b mod 16 * 4 + c / 64) mod 4 * 64 + c mod 64 = c /\
  a / 4 * 4 + (a mod 4 * 16) / 16 = a /\
  (a mod 4 * 16 + b / 16) mod 16 * 16 + (b mod 16 * 4) / 4 = b.
Proof. intros. repeat split; div_mod_lia. Qed.

Lemma base64_roundtrip_upto (n : nat) (buf : bytes) :
  (List.length buf <= n)%nat -> base64_decode (base64_encode buf) = buf.
Proof.
  revert buf; induction n as [|n IH]; intros buf L.
  - destruct buf; [reflexivity | cbn in L; lia].
  - destruct buf as [|a [|b [|c rest]]]; [reflexivity| | |].
    + destruct (sextet_bounds (Byte.to_N a) 0 0) as (B1 & _ & _ & _ & B5 & _);
        try apply to_N_lt; try reflexivity.
      destruct (sextet_bytes (Byte.to_N a) 0 0) as (_ & _ & _ & E4 & _);
        try apply to_N_lt; try reflexivity.
      unfold base64_decode. cbn [base64_encode].
      rewrite !sextets_char by assumption. cbn [sextets Ascii.eqb Bool.eqb of_sextets].
      now rewrite E4, byte_of_to_N.
    + destruct (sextet_bounds (Byte.to_N a) (Byte.to_N b) 0) as (B1 & B2 & _ & _ & _ & B6);
        try apply to_N_lt; try reflexivity.
      destruct (sextet_bytes (Byte.to_N a) (Byte.to_N b) 0) as (E1 & _ & _ & _ & E5);
        try apply to_N_lt; try reflexivity.
      unfold base64_decode. cbn [base64_encode].
      rewrite !sextets_char by assumption. cbn [sextets Ascii.eqb Bool.eqb of_sextets].
      now rewrite E1, E5, !byte_of_to_N.
    + destruct (sextet_bounds (Byte.to_N a) (Byte.to_N b) (Byte.to_N c))
        as (B1 & B2 & B3 & B4 & _); try apply to_N_lt.
      destruct (sextet_bytes (Byte.to_N a) (Byte.to_N b) (Byte.to_N c))
        as (E1 & E2 & E3 & _); try apply to_N_lt.
      unfold base64_decode in *. cbn [base64_encode].
      rewrite !sextets_char by assumption. cbn [of_sextets].
      rewrite E1, E2, E3, !byte_of_to_N. do 3 f_equal.
      apply IH. cbn in L. lia.
Qed.

Lemma model_base64 : base64_roundtrip (node := modelNode).
Proof. intros buf. now apply (base64_roundtrip_upto (List.length buf)). Qed.

Lemma model_hkdf : hkdf_length (node := modelNode).
Proof. intros ikm salt info len _. apply model_hkdf_length. Qed.

Lemma model_sha256 : sha256_length (node := modelNode).
Proof. intros data. apply model_sha256_length. Qed.

Lemma model_utf8 : utf8_roundtrip (node := modelNode).
Proof. intros str. apply string_of_list_byte_of_string. Qed.

Lemma model_aead : aes256gcm_correct (node := modelNode).
Proof.
  intros key iv ad pt Lk Liv. cbn [aes256gcm_encrypt aes256gcm_decrypt modelNode].
  unfold aead_encrypt, aead_decrypt.
  assert (Ok : aead_ok key iv = true) by (unfold aead_ok; now rewrite Lk, Liv).
  rewrite Ok. eexists _, _. split; [reflexivity|].
  rewrite bytes_eqb_refl. cbn [andb]. f_equal.
  rewrite xor_bytes_length by (now rewrite keystream_length).
  apply xor_bytes_cancel. now rewrite keystream_length.
Qed.

End ModelFacts.

(** ** The session between alice and bob *)

Module ScenarioChecks.
Import Scenario.

Example fingerprint_abc :
  fingerprint (node := modelNode) (Model.utf8_encode "abc")
  = "ba7816-bf8f01-cfea41-4140de".
Proof. vm_compute. reflexivity. Qed.

Lemma keys_agree : agree (node := modelNode) ecdhA ecdhB.
Proof. eexists. split; vm_compute; reflexivity. Qed.

Lemma alice_reachable :
  run (node := modelNode) room alice bob curve ecdhA aliceJoins initial
  = (aliceEstablished, effects_of (runAlice aliceJoins initial), true).
Proof. vm_compute. reflexivity. Qed.

Lemma alice_session : session aliceEstablished = Some keys.
Proof. vm_compute. reflexivity. Qed.

Lemma alice_bob_distinct : utf16 alice <> utf16 bob.
Proof. vm_compute. discriminate. Qed.

(** Identities are sorted by their code units, not by their bytes or
    code points: U+10000 comes before U+E000. *)
Example astral_sorts_first :
  utf16 privateUse = [0xE000%N] /\
  utf16 astral = [0xD800%N; 0xDC00%N] /\
  String.ltb privateUse astral = true /\
  sort2 privateUse (Some astral) = (Some astral, Some privateUse) /\
  sort2 astral (Some privateUse) = (Some astral, Some privateUse).
Proof. vm_compute. repeat split. Qed.

Lemma context_fits :
  (List.length (utf8 (Node := modelNode) (sessionContext room alice curve (Some bob)))
   <= 1024)%nat.
Proof. apply Nat.leb_le. vm_compute. reflexivity. Qed.

Lemma context_fits_bob :
  (List.length (utf8 (Node := modelNode) (sessionContext room bob curve (Some alice)))
   <= 1024)%nat.
Proof. apply Nat.leb_le. vm_compute. reflexivity. Qed.

Lemma keys_derived :
  deriveSessionKeys (node := modelNode) shared
    (sessionContext room alice curve (Some bob)) = Ok keys.
Proof. vm_compute. reflexivity. Qed.

(** Alice opens what bob sent, in the order it arrives. *)
Example alice_reads_bob :
  filter (fun e => negb (is_decrypt_call e))
    (effects_of (runAlice [WsMessage (Some hello); WsMessage (Some world)]
                   aliceEstablished))
  = [console_log (LogMessage (Some bob) "hello");
     console_log (LogMessage (Some bob) "world")].
Proof. vm_compute. reflexivity. Qed.

(** A queued envelope without payload ends the drain, and the client:
    "hello", queued behind it, is not opened. *)
Example bare_envelope_ends_the_drain :
  runAlice (arrivals [bare; hello] ++ [WsMessage (Some fromBob)]) initial
  = (set_pendingMessages [bare; hello] (keyed keys initial),
     [console_log LogReceivedBeforeSession;
      console_log LogReceivedBeforeSession]
       ++ greeting (node := modelNode) fromBob
       ++ reply (node := modelNode) room alice curve ecdhA fromBob initial
       ++ [console_log LogSessionKeysDerived; console_log LogStartChatting;
           console_log (LogProcessingPending 2)],
     false).
Proof. vm_compute. reflexivity. Qed.

(** The restyled client too accepts bob's handshake after one on
    another curve. *)
Example styled_mismatch_then_established :
  session (state_of
             (Styled.run (node := modelNode) room alice bob curve ecdhA
                [WsMessage (Some offCurve); WsMessage (Some fromBob)] initial))
  = Some keys.
Proof. vm_compute. reflexivity. Qed.

End ScenarioChecks.

(** ** The theorems at work on the session between alice and bob *)

Module Witnesses.
Import Scenario ScenarioChecks.

Lemma session_keys_agree_witness :
  base64_roundtrip (node := modelNode) /\
  agree (node := modelNode) ecdhA ecdhB /\
  utf16 alice <> utf16 bob /\
  (List.length (utf8 (Node := modelNode) (sessionContext room alice curve (Some bob)))
   <= 1024)%nat /\
  sessionContext room alice curve (Some bob)
    = "room:r1|peer1:alice|peer2:bob|curve:prime256v1" /\
  exists k,
    session (state_of (onMessage (node := modelNode) room alice bob curve ecdhA
                         (Some fromBob) initial)) = Some k /\
    session (state_of (onMessage (node := modelNode) room bob alice curve ecdhB
                         (Some fromAlice) initial)) = Some k.
Proof.
  split; [exact ModelFacts.model_base64|]. split; [exact keys_agree|].
  split; [exact alice_bob_distinct|]. split; [exact context_fits|].
  split; [reflexivity|].
  destruct (session_keys_agree (node := modelNode) room curve alice bob bob alice
              ecdhA ecdhB initial initial
              ModelFacts.model_base64 keys_agree eq_refl eq_refl
              alice_bob_distinct context_fits)
    as (_ & _ & sh & k & _ & _ & _ & HA & HB).
  exists k. exact (conj HA HB).
Defined.

Lemma open_seal_roundtrip_witness :
  aes256gcm_correct (node := modelNode) /\
  base64_roundtrip (node := modelNode) /\
  utf8_roundtrip (node := modelNode) /\
  List.length (kEnc keys) = 32%nat /\
  List.length iv1 = 12%nat /\
  session aliceEstablished = Some keys /\
  exists env,
    effects_of (sendMessage (node := modelNode) room bob alice keys "hello" iv1 initial)
      = [ws_send env] /\
    filter (fun e => negb (is_decrypt_call e))
      (effects_of (run (node := modelNode) room alice bob curve ecdhA
                     [WsMessage (Some env)] aliceEstablished))
      = [console_log (LogMessage (Some bob) "hello")].
Proof.
  assert (Lk : List.length (kEnc keys) = 32%nat) by (vm_compute; reflexivity).
  split; [exact ModelFacts.model_aead|]. split; [exact ModelFacts.model_base64|].
  split; [exact ModelFacts.model_utf8|]. split; [exact Lk|].
  split; [exact eq_refl|]. split; [exact alice_session|].
  destruct (open_seal_roundtrip (node := modelNode) room bob alice bob curve ecdhA
              keys "hello" iv1 initial aliceEstablished
              ModelFacts.model_aead ModelFacts.model_base64 ModelFacts.model_utf8
              Lk eq_refl alice_session)
    as (_ & env & Hs & _ & Hr).
  exists env. rewrite Hs, Hr. split; reflexivity.
Defined.

Lemma authenticate_before_decrypt_witness :
  session aliceEstablished = Some keys /\
  handleEncryptedMessage (node := modelNode) room alice replayed aliceEstablished
  = (aliceEstablished, [console_log LogHmacFailed], Return).
Proof.
  split; [exact alice_session|].
  destruct (authenticate_before_decrypt (node := modelNode) room alice bob curve ecdhA
              replayed aliceEstablished keys alice_session) as (H & _).
  apply H; vm_compute; reflexivity.
Defined.

Lemma timingSafeEq_total_witness :
  session aliceEstablished = Some keys /\
  List.length (hmacB (node := modelNode) forged) = 8%nat /\
  List.length (macExpected (node := modelNode) room alice keys forged) = 32%nat /\
  run (node := modelNode) room alice bob curve ecdhA
    [WsMessage (Some forged)] aliceEstablished
  = (aliceEstablished, [console_log LogHmacFailed], true).
Proof.
  split; [exact alice_session|].
  split; [vm_compute; reflexivity|]. split; [vm_compute; reflexivity|].
  destruct (timingSafeEq_total (node := modelNode) room alice bob curve ecdhA
              forged aliceEstablished keys) as (_ & H).
  apply H; try (vm_compute; reflexivity); try exact alice_session.
  vm_compute. discriminate.
Defined.

Lemma curve_mismatch_discarded_witness :
  addressedTo alice offCurve = true /\
  e_type offCurve = Some "handshake" /\
  peerHandshakeReceived initial = false /\
  strictEq (otherCurve offCurve) curve = false /\
  state_of (onMessage (node := modelNode) room alice bob curve ecdhA
              (Some offCurve) initial) = initial.
Proof.
  split; [exact eq_refl|]. split; [exact eq_refl|]. split; [exact eq_refl|].
  split; [exact eq_refl|].
  destruct (curve_mismatch_discarded (node := modelNode) room alice bob curve ecdhA
              offCurve initial [] eq_refl eq_refl eq_refl eq_refl) as (H & _).
  now rewrite H.
Defined.

Lemma duplicate_handshake_noop_witness :
  Reachable (node := modelNode) room alice bob curve ecdhA aliceEstablished /\
  Established aliceEstablished /\
  e_type fromBob = Some "handshake" /\
  run (node := modelNode) room alice bob curve ecdhA
    [WsMessage (Some fromBob)] aliceEstablished
  = (aliceEstablished,
     if addressedTo alice fromBob
     then [console_log (LogDuplicateHandshake (e_from fromBob))]
     else [],
     true).
Proof.
  assert (R : Reachable (node := modelNode) room alice bob curve ecdhA aliceEstablished)
    by (exists aliceJoins, (effects_of (runAlice aliceJoins initial)), true;
        exact alice_reachable).
  assert (E : Established aliceEstablished)
    by (unfold Established; rewrite alice_session; discriminate).
  split; [exact R|]. split; [exact E|]. split; [reflexivity|].
  exact (duplicate_handshake_noop (node := modelNode) room alice bob curve ecdhA
           fromBob aliceEstablished R E eq_refl).
Defined.

Lemma deriveSessionKeys_spec_witness :
  hkdf_length (node := modelNode) /\
  (List.length (utf8 (Node := modelNode) (sessionContext room alice curve (Some bob)))
   <= 1024)%nat /\
  deriveSessionKeys (node := modelNode) shared
    (sessionContext room alice curve (Some bob)) = Ok keys /\
  List.length (kEnc keys) = 32%nat /\
  List.length (kMac keys) = 32%nat /\
  kEnc keys ++ kMac keys
    = Model.hkdf shared (Model.sha256 (Model.utf8_encode "chat-e2ee-salt"))
        (Model.utf8_encode (sessionContext room alice curve (Some bob))) 64.
Proof.
  split; [exact ModelFacts.model_hkdf|]. split; [exact context_fits|].
  destruct (deriveSessionKeys_spec (node := modelNode) shared
              (sessionContext room alice curve (Some bob)) ModelFacts.model_hkdf)
    as (H & _).
  destruct (H context_fits) as (k & Dk & _ & E & L1 & L2 & _).
  assert (K : k = keys) by (rewrite keys_derived in Dk; congruence). subst k.
  split; [exact Dk|]. split; [exact L1|]. split; [exact L2|]. exact E.
Defined.

(** C7, as stated, fails: a context string of more than 1024 bytes is
    refused, and no keys are returned. *)
Lemma long_context_refused :
  (1024 < List.length (utf8 (Node := modelNode)
                         (sessionContext longRoom alice curve (Some bob))))%nat /\
  deriveSessionKeys (node := modelNode) shared
    (sessionContext longRoom alice curve (Some bob)) = Err RangeError.
Proof. split; [apply Nat.ltb_lt|]; vm_compute; reflexivity. Qed.

(** C1, as stated, fails: in a room with a name of 1100 bytes neither
    client derives keys from the handshake of the other; the handler
    throws and there is no session. *)
Lemma long_room_no_session :
  agree (node := modelNode) ecdhA ecdhB /\
  utf16 alice <> utf16 bob /\
  (let rA := onMessage (node := modelNode) longRoom alice bob curve ecdhA
               (Some fromBobLong) initial in
   let rB := onMessage (node := modelNode) longRoom bob alice curve ecdhB
               (Some fromAliceLong) initial in
   completion_of rA = Throw RangeError /\ session (state_of rA) = None /\
   completion_of rB = Throw RangeError /\ session (state_of rB) = None).
Proof.
  split; [exact keys_agree|]. split; [vm_compute; discriminate|].
  vm_compute. repeat split.
Qed.

Lemma fingerprint_format_witness :
  sha256_length (node := modelNode) /\
  exists g1 g2 g3 g4 : string,
    fingerprint (node := modelNode) (Model.utf8_encode "abc")
      = (g1 ++ "-" ++ g2 ++ "-" ++ g3 ++ "-" ++ g4)%string /\
    String.length g1 = 6%nat /\ String.length g2 = 6%nat /\
    String.length g3 = 6%nat /\ String.length g4 = 6%nat.
Proof.
  split; [exact ModelFacts.model_sha256|].
  destruct (fingerprint_format (node := modelNode) (Model.utf8_encode "abc")
              ModelFacts.model_sha256)
    as (g1 & g2 & g3 & g4 & rest & _ & F & L1 & L2 & L3 & L4 & _).
  exists g1, g2, g3, g4. exact (conj F (conj L1 (conj L2 (conj L3 L4)))).
Defined.

(** C4, as stated, fails: after a first handshake on another curve, a
    handshake on the right curve is accepted and the keys are derived,
    and a [request_handshake] is answered with a handshake. *)
Lemma curve_mismatch_not_terminal :
  e_type offCurve = Some "handshake" /\
  strictEq (otherCurve offCurve) curve = false /\
  snd (runAlice [WsMessage (Some offCurve); WsMessage (Some fromBob)] initial)
    = true /\
  session (state_of
             (runAlice [WsMessage (Some offCurve); WsMessage (Some fromBob)] initial))
    = Some keys /\
  effects_of (runAlice [WsMessage (Some requestFromBob)]
                (state_of (runAlice [WsMessage (Some offCurve)] initial)))
    = [console_log (LogPeerRequestsHandshake (Some bob));
       ws_send fromAlice;
       console_log (LogHandshakeSent (Some bob))].
Proof.
  split; [exact eq_refl|]. split; [exact eq_refl|].
  split; [vm_compute; reflexivity|].
  split; vm_compute; reflexivity.
Qed.

End Witnesses.

(** ** The drain on an envelope without payload *)

Module DrainChecks.
Import Scenario ScenarioChecks.

(** C5. The drain on a queue that holds an envelope without payload.
    The envelope and "hello" arrive for alice before bob's handshake and
    both are queued. The handshake stores the keys and starts the drain;
    [unb64(undefined)] throws on the first envelope and the handler ends
    there: "hello", queued behind it, is not opened, though under the
    same keys it opens to the line bob typed, and the queue is left as
    it was. *)
Theorem bare_envelope_stops_drain :
  let queued := state_of (runAlice (arrivals [bare; hello]) initial) in
  let h := handler (node := modelNode) room alice bob curve ecdhA
             (WsMessage (Some fromBob)) queued in
  forallb (isMsgFor alice) [bare; hello] = true /\
  pendingMessages queued = [bare; hello] /\
  completion_of h = Throw TypeError /\
  session (state_of h) = Some keys /\
  pendingMessages (state_of h) = [bare; hello] /\
  effects_of h
  = greeting (node := modelNode) fromBob
      ++ reply (node := modelNode) room alice curve ecdhA fromBob initial
      ++ [console_log LogSessionKeysDerived; console_log LogStartChatting;
          console_log (LogProcessingPending 2)] /\
  filter (fun e => negb (is_decrypt_call e))
    (openEffects (node := modelNode) room alice keys hello)
  = [console_log (LogMessage (Some bob) "hello")].
Proof. vm_compute. repeat split. Qed.

(** C9. A session with a queue that is not empty. An envelope without
    payload is queued before bob's handshake; the handler of the
    handshake stores the keys and throws in the drain, and the state it
    leaves has the keys and the envelope still in the queue. The next
    frame of the same turn is handled in that state: "hello" is opened,
    and the queue stays as it is. *)
Theorem session_with_queued_envelope :
  let evs := arrivals [bare] ++ [WsMessage (Some fromBob)] in
  let st := state_of (runAlice evs initial) in
  let r := runAlice (evs ++ [WsMessage (Some hello)]) initial in
  Reachable (node := modelNode) room alice bob curve ecdhA st /\
  session st = Some keys /\
  peerHandshakeReceived st = true /\
  pendingMessages st = [bare] /\
  Reachable (node := modelNode) room alice bob curve ecdhA (state_of r) /\
  session (state_of r) = Some keys /\
  pendingMessages (state_of r) = [bare] /\
  recvCounter (state_of r) = 1%N /\
  filter (fun e => negb (is_decrypt_call e)) (effects_of r)
  = [console_log LogReceivedBeforeSession]
      ++ greeting (node := modelNode) fromBob
      ++ reply (node := modelNode) room alice curve ecdhA fromBob initial
      ++ [console_log LogSessionKeysDerived; console_log LogStartChatting;
          console_log (LogProcessingPending 1);
          console_log (LogMessage (Some bob) "hello")].
Proof.
  cbv zeta.
  assert (R : forall evs,
             Reachable (node := modelNode) room alice bob curve ecdhA
               (state_of (runAlice evs initial))).
  { intros evs. exists evs, (effects_of (runAlice evs initial)),
      (snd (runAlice evs initial)).
    unfold runAlice. now destruct (run _ _ _ _ _ evs initial) as [[st out] live]. }
  split; [apply R|]. split; [vm_compute; reflexivity|].
  split; [vm_compute; reflexivity|]. split; [vm_compute; reflexivity|].
  split; [apply R|]. vm_compute. repeat split.
Qed.

End DrainChecks.

(** * The relay *)

Module RelayFacts.
Import Relay.

Section Maps.
Context {V : Type}.
Implicit Types (m : JsMap V) (k : string) (v : V).

Lemma get_set_same m k v : get (set m k v) k = Some v.
Proof.
  induction m as [|[k' v'] m IH]; cbn.
  - now rewrite String.eqb_refl.
  - destruct (String.eqb_spec k' k); cbn.
    + now rewrite String.eqb_refl.
    + destruct (String.eqb_spec k' k); [contradiction | exact IH].
Qed.

Lemma get_set_other m k k' v : k' <> k -> get (set m k v) k' = get m k'.
Proof.
  intros N. induction m as [|[k0 v0] m IH]; cbn.
  - destruct (String.eqb_spec k k'); [congruence | reflexivity].
  - destruct (String.eqb_spec k0 k) as [->|]; cbn.
    + destruct (String.eqb_spec k k'); [congruence | reflexivity].
    + destruct (String.eqb_spec k0 k'); [reflexivity | exact IH].
Qed.

Lemma get_None_keys m k : get m k = None <-> ~ In k (keys m).
Proof.
  induction m as [|[k' v'] m IH]; cbn; [tauto|].
  destruct (String.eqb_spec k' k); [split; [discriminate | tauto]|].
  rewrite IH. tauto.
Qed.

Lemma get_Some_In m k v : get m k = Some v -> In (k, v) m.
Proof.
  induction m as [|[k' v'] m IH]; cbn; [discriminate|].
  destruct (String.eqb_spec k' k) as [->|]; [intros [= ->]; now left | auto].
Qed.

Lemma In_get m k v : NoDup (keys m) -> In (k, v) m -> get m k = Some v.
Proof.
  induction m as [|[k' v'] m IH]; cbn; [tauto|].
  intros D [[= -> ->]|I].
  - now rewrite String.eqb_refl.
  - inversion D as [|? ? N D']; subst.
    destruct (String.eqb_spec k' k) as [->|]; [|auto].
    exfalso. apply N. now apply (in_map fst) in I.
Qed.

Lemma keys_set m k v :
  keys (set m k v) = if has m k then keys m else keys m ++ [k].
Proof.
  unfold has. induction m as [|[k' v'] m IH]; cbn; [reflexivity|].
  destruct (String.eqb_spec k' k) as [->|]; cbn; [reflexivity|].
  fold (keys (set m k v)). fold (keys m). rewrite IH. now destruct (get m k).
Qed.

Lemma NoDup_set m k v : NoDup (keys m) -> NoDup (keys (set m k v)).
Proof.
  intros D. rewrite keys_set. unfold has.
  destruct (get m k) eqn:G; [exact D|].
  apply get_None_keys in G.
  apply NoDup_app; [exact D | repeat constructor; tauto |].
  intros x I [<-|[]]. contradiction.
Qed.

Lemma set_nonempty m k v : set m k v <> [].
Proof. destruct m as [|[k' v'] m]; cbn; [|destruct (k' =? k)%string]; discriminate. Qed.

Lemma delete_app m m' k v :
  ~ In k (keys m) -> delete (m ++ (k, v) :: m') k = m ++ m'.
Proof.
  induction m as [|[k0 v0] m IH]; cbn; intros N.
  - now rewrite String.eqb_refl.
  - destruct (String.eqb_spec k0 k); [tauto|]. rewrite IH; tauto.
Qed.

Lemma set_app m m' k v v' :
  ~ In k (keys m) -> set (m ++ (k, v) :: m') k v' = m ++ (k, v') :: m'.
Proof.
  induction m as [|[k0 v0] m IH]; cbn; intros N.
  - now rewrite String.eqb_refl.
  - destruct (String.eqb_spec k0 k); [tauto|]. rewrite IH; tauto.
Qed.

Lemma keys_app m m' : keys (m ++ m') = keys m ++ keys m'.
Proof. apply map_app. Qed.

Lemma get_filter (p : string * V -> bool) m k :
  NoDup (keys m) ->
  get (filter p m) k =
  match get m k with
  | Some v => if p (k, v) then Some v else None
  | None => None
  end.
Proof.
  induction m as [|[k' v'] m IH]; cbn; [reflexivity|].
  intros D. inversion D as [|? ? N D']; subst.
  destruct (String.eqb_spec k' k) as [->|Nk].
  - destruct (p (k, v')) eqn:P; cbn.
    + now rewrite String.eqb_refl.
    + rewrite (IH D'). apply get_None_keys in N. now rewrite N.
  - destruct (p (k', v')); cbn; [|auto].
    destruct (String.eqb_spec k' k); [contradiction | auto].
Qed.

Lemma keys_filter_incl (p : string * V -> bool) m k :
  In k (keys (filter p m)) -> In k (keys m).
Proof.
  unfold keys. rewrite !in_map_iff. intros ([k' v] & E & I).
  apply filter_In in I as [I _]. eauto.
Qed.

Lemma NoDup_keys_filter (p : string * V -> bool) m :
  NoDup (keys m) -> NoDup (keys (filter p m)).
Proof.
  induction m as [|[k v] m IH]; cbn; [auto|].
  intros D. inversion D as [|? ? N D']; subst.
  destruct (p (k, v)); cbn; [|auto].
  constructor; [|auto]. intros I. apply N. eapply keys_filter_incl, I.
Qed.

End Maps.

(** The inner loop of the [close] handler removes exactly the entries
    that hold the socket. *)
Lemma sweep_from (ws : Sock) (rest before : JsMap Sock) :
  NoDup (keys (before ++ rest)) ->
  fold_left
    (fun acc entry => if Nat.eqb (snd entry) ws then delete acc (fst entry) else acc)
    rest (before ++ rest)
  = before ++ filter (fun entry => negb (Nat.eqb (snd entry) ws)) rest.
Proof.
  revert before; induction rest as [|[k sock] rest IH]; intros before D; [reflexivity|].
  cbn [fold_left filter fst snd].
  assert (D' := D). rewrite keys_app in D'. cbn in D'.
  assert (N : ~ In k (keys before))
    by (intros I; apply (NoDup_remove_2 _ _ _ D'), in_or_app; now left).
  destruct (Nat.eqb sock ws); cbn [negb].
  - rewrite delete_app by assumption. apply IH.
    rewrite keys_app. now apply NoDup_remove_1 in D'.
  - change (before ++ (k, sock) :: rest) with (before ++ [(k, sock)] ++ rest).
    rewrite app_assoc. rewrite IH; [now rewrite <- app_assoc|].
    now rewrite <- app_assoc.
Qed.

Lemma sweepRoom_filter (ws : Sock) (m : JsMap Sock) :
  NoDup (keys m) ->
  sweepRoom ws m = filter (fun entry => negb (Nat.eqb (snd entry) ws)) m.
Proof. intros D. apply (sweep_from ws m [] D). Qed.

Lemma keys_map_snd {A B} (f : string * A -> B) (l : JsMap A) :
  keys (map (fun entry => (fst entry, f entry)) l) = keys l.
Proof. unfold keys. rewrite map_map. now apply map_ext. Qed.

(** The outer loop: every room is swept, and dropped when nothing is
    left of it. *)
Lemma close_from (ws : Sock) (rest before : Rooms) :
  NoDup (keys (before ++ rest)) ->
  fold_left
    (fun acc entry =>
       let m := sweepRoom ws (snd entry) in
       let acc' := set acc (fst entry) m in
       if Nat.eqb (size m) 0 then delete acc' (fst entry) else acc')
    rest (before ++ rest)
  = before
      ++ filter (fun entry => negb (Nat.eqb (size (snd entry)) 0))
           (map (fun entry => (fst entry, sweepRoom ws (snd entry))) rest).
Proof.
  revert before; induction rest as [|[k m] rest IH]; intros before D; [reflexivity|].
  cbn [fold_left filter map fst snd]. cbv zeta.
  assert (D' := D). rewrite keys_app in D'. cbn in D'.
  assert (N : ~ In k (keys before))
    by (intros I; apply (NoDup_remove_2 _ _ _ D'), in_or_app; now left).
  rewrite set_app by assumption.
  destruct (Nat.eqb (size (sweepRoom ws m)) 0); cbn [negb].
  - rewrite delete_app by assumption. apply IH.
    rewrite keys_app. now apply NoDup_remove_1 in D'.
  - change (before ++ (k, sweepRoom ws m) :: rest)
      with (before ++ [(k, sweepRoom ws m)] ++ rest).
    rewrite app_assoc. rewrite IH; [now rewrite <- app_assoc|].
    rewrite <- app_assoc, keys_app. cbn. exact D'.
Qed.

Lemma onClose_filter (ws : Sock) (rooms : Rooms) :
  NoDup (keys rooms) ->
  onClose ws rooms
  = filter (fun entry => negb (Nat.eqb (size (snd entry)) 0))
      (map (fun entry => (fst entry, sweepRoom ws (snd entry))) rooms).
Proof. intros D. apply (close_from ws rooms [] D). Qed.

Lemma get_map_snd {A B} (f : A -> B) (l : JsMap A) (k : string) :
  get (map (fun entry => (fst entry, f (snd entry))) l) k = option_map f (get l k).
Proof.
  induction l as [|[k' v] l IH]; cbn; [reflexivity|].
  now destruct (k' =? k)%string.
Qed.

Lemma WF_room (rooms : Rooms) (room : string) (m : JsMap Sock) :
  WF rooms -> get rooms room = Some m -> NoDup (keys m) /\ m <> [].
Proof.
  intros [_ F] G. apply get_Some_In in G.
  rewrite Forall_forall in F. exact (F _ G).
Qed.

Lemma Forall_set {V} (P : string * V -> Prop) (m : JsMap V) (k : string) (v : V) :
  Forall P m -> P (k, v) -> Forall P (set m k v).
Proof.
  intros F Pk. induction m as [|[k' v'] m IH]; cbn; [auto|].
  inversion F; subst. destruct (k' =? k)%string; auto.
Qed.

Lemma WF_empty : WF [].
Proof. split; constructor. Qed.

Lemma WF_onClose (ws : Sock) (rooms : Rooms) : WF rooms -> WF (onClose ws rooms).
Proof.
  intros [D F]. rewrite onClose_filter by assumption. split.
  - apply NoDup_keys_filter. now rewrite (keys_map_snd (fun e => sweepRoom ws (snd e))).
  - apply Forall_forall. intros [k m] I.
    apply filter_In in I as [I E]. cbn [snd] in *.
    apply in_map_iff in I as ([k0 m0] & [= <- <-] & I0).
    rewrite Forall_forall in F. destruct (F _ I0) as [D0 _]. cbn [snd] in *.
    split.
    + rewrite sweepRoom_filter by assumption. now apply NoDup_keys_filter.
    + intros Z. rewrite Z in E. discriminate.
Qed.

Lemma set_set {V} (m : JsMap V) (k : string) (v v' : V) :
  set (set m k v) k v' = set m k v'.
Proof.
  induction m as [|[k0 v0] m IH]; cbn.
  - now rewrite String.eqb_refl.
  - destruct (String.eqb_spec k0 k) as [->|]; cbn.
    + now rewrite String.eqb_refl.
    + destruct (String.eqb_spec k0 k); [contradiction | now rewrite IH].
Qed.

(** What a [join] makes of the rooms. *)
Lemma join_rooms (ready : Sock -> bool) (ws : Sock) (msg : Envelope) (rooms : Rooms) :
  truthy (e_type msg) = true -> truthy (e_room msg) = true ->
  truthy (e_from msg) = true -> strictEq (e_type msg) "join" = true ->
  onMessage ready ws (Some msg) rooms
  = (set rooms (str (e_room msg))
       (set (match get rooms (str (e_room msg)) with
             | Some m => m
             | None => []
             end) (str (e_from msg)) ws),
     safeSend ready ws
       (EnvelopeFrame {| e_type := Some "joined"; e_room := e_room msg;
                         e_from := e_from msg; e_to := None;
                         e_payload := None |})).
Proof.
  intros T R F J. unfold onMessage. rewrite T, R, F, J. cbn [negb orb].
  unfold has. destruct (get rooms (str (e_room msg))) as [m|] eqn:G.
  - now rewrite G.
  - now rewrite get_set_same, set_set.
Qed.

(** Any other message leaves the rooms as they are. *)
Lemma other_rooms (ready : Sock -> bool) (ws : Sock) (raw : option Envelope)
    (rooms : Rooms) :
  match raw with
  | Some msg =>
      truthy (e_type msg) && truthy (e_room msg) && truthy (e_from msg)
        && strictEq (e_type msg) "join" = false
  | None => True
  end ->
  fst (onMessage ready ws raw rooms) = rooms.
Proof.
  destruct raw as [msg|]; [|reflexivity]. unfold onMessage.
  destruct (truthy (e_type msg)), (truthy (e_room msg)), (truthy (e_from msg));
    cbn [negb orb andb]; try reflexivity.
  intros ->.
  destruct (get rooms (str (e_room msg))) as [m|]; [|reflexivity].
  destruct (negb (truthy (e_to msg))); [reflexivity|].
  now destruct (get m (str (e_to msg))).
Qed.

Lemma WF_onMessage (ready : Sock -> bool) (ws : Sock) (raw : option Envelope)
    (rooms : Rooms) :
  WF rooms -> WF (fst (onMessage ready ws raw rooms)).
Proof.
  intros W.
  destruct raw as [msg|]; [|exact W].
  destruct (truthy (e_type msg) && truthy (e_room msg) && truthy (e_from msg)
            && strictEq (e_type msg) "join") eqn:J.
  - repeat (apply andb_true_iff in J as [J ?]).
    rewrite join_rooms by assumption. cbn [fst].
    set (room := str (e_room msg)).
    assert (D : NoDup (keys (match get rooms room with Some m => m | None => [] end))).
    { destruct (get rooms room) as [m|] eqn:G; [|constructor].
      now apply (WF_room rooms room). }
    destruct W as [Dr F]. split; [now apply NoDup_set|].
    apply Forall_set; [exact F|]. cbn [snd].
    split; [now apply NoDup_set | apply set_nonempty].
  - now rewrite (other_rooms ready ws (Some msg) rooms J).
Qed.

Lemma run_WF (evs : list Event) (rooms : Rooms) :
  WF rooms -> WF (fst (run evs rooms)).
Proof.
  revert rooms; induction evs as [|ev evs IH]; intros rooms W; [exact W|].
  cbn [run]. destruct (handler ev rooms) as [rooms1 out1] eqn:H.
  specialize (IH rooms1). destruct (run evs rooms1) as [rooms2 out2].
  cbn [fst] in *. apply IH.
  destruct ev as [ready ws raw|ws]; cbn [handler] in H.
  - pose proof (WF_onMessage ready ws raw rooms W) as W'. now rewrite H in W'.
  - injection H as <- _. now apply WF_onClose.
Qed.

(** The socket that holds a peer id after a socket closed. *)
Lemma holder_onClose (ws : Sock) (rooms : Rooms) (room peerId : string) :
  WF rooms ->
  holder (onClose ws rooms) room peerId
  = match holder rooms room peerId with
    | Some sock => if Nat.eqb sock ws then None else Some sock
    | None => None
    end.
Proof.
  intros W. assert (W' := W). destruct W' as [D F].
  unfold holder. rewrite onClose_filter by assumption.
  rewrite get_filter
    by (now rewrite (keys_map_snd (fun e => sweepRoom ws (snd e)))).
  rewrite (get_map_snd (sweepRoom ws)).
  destruct (get rooms room) as [m|] eqn:G; cbn [option_map]; [|reflexivity].
  destruct (WF_room rooms room m W G) as [Dm _].
  cbn [snd]. rewrite sweepRoom_filter by assumption.
  pose proof (get_filter (fun entry => negb (Nat.eqb (snd entry) ws)) m peerId Dm) as GF.
  cbn [snd] in GF. unfold Sock in *.
  destruct (filter (fun entry => negb (Nat.eqb (snd entry) ws)) m) as [|e l] eqn:Fl;
    cbn [size List.length Nat.eqb negb].
  - cbn [get] in GF. destruct (get m peerId) as [sock|]; [|reflexivity].
    destruct (Nat.eqb sock ws); cbn in GF; [reflexivity | discriminate GF].
  - rewrite GF. destruct (get m peerId) as [sock|]; [|reflexivity].
    now destruct (Nat.eqb sock ws).
Qed.

Lemma isJoin_fields (msg : Envelope) :
  isJoin msg = true ->
  truthy (e_type msg) = true /\ truthy (e_room msg) = true /\
  truthy (e_from msg) = true /\ strictEq (e_type msg) "join" = true.
Proof. unfold isJoin. rewrite !andb_true_iff. tauto. Qed.

Lemma join_eq (ready : Sock -> bool) (ws : Sock) (msg : Envelope) (rooms : Rooms) :
  isJoin msg = true ->
  onMessage ready ws (Some msg) rooms
  = (set rooms (str (e_room msg))
       (set (match get rooms (str (e_room msg)) with
             | Some m => m
             | None => []
             end) (str (e_from msg)) ws),
     safeSend ready ws (ack msg)).
Proof. intros J. apply isJoin_fields in J as (T & R & F & J). now apply join_rooms. Qed.

Lemma holder_join (ready : Sock -> bool) (ws : Sock) (msg : Envelope) (rooms : Rooms)
    (room peerId : string) :
  isJoin msg = true ->
  holder (fst (onMessage ready ws (Some msg) rooms)) room peerId
  = if (room =? str (e_room msg))%string && (peerId =? str (e_from msg))%string
    then Some ws
    else holder rooms room peerId.
Proof.
  intros J. rewrite join_eq by assumption. cbn [fst]. unfold holder.
  destruct (String.eqb_spec room (str (e_room msg))) as [->|N]; cbn [andb].
  - rewrite get_set_same.
    destruct (String.eqb_spec peerId (str (e_from msg))) as [->|N'].
    + apply get_set_same.
    + rewrite get_set_other by assumption.
      now destruct (get rooms (str (e_room msg))).
  - now rewrite get_set_other.
Qed.

Lemma route_eq (ready : Sock -> bool) (ws : Sock) (msg : Envelope) (rooms : Rooms) :
  routable msg = true ->
  onMessage ready ws (Some msg) rooms
  = (rooms,
     match get rooms (str (e_room msg)) with
     | None => []
     | Some m =>
         match get m (str (e_to msg)) with
         | None => safeSend ready ws (notInRoom (e_to msg))
         | Some target => logged msg :: safeSend ready target (EnvelopeFrame msg)
         end
     end).
Proof.
  unfold routable. rewrite !andb_true_iff, negb_true_iff.
  intros ((((T & R) & F) & To) & J).
  unfold onMessage. rewrite T, R, F, To, J. cbn [negb orb].
  destruct (get rooms (str (e_room msg))) as [m|]; [|reflexivity].
  destruct (get m (str (e_to msg))) as [target|]; [|reflexivity].
  now destruct msg.
Qed.

Lemma message_cases (msg : Envelope) :
  isJoin msg = true \/ routable msg = true \/
  forall ready ws rooms, onMessage ready ws (Some msg) rooms = (rooms, []).
Proof.
  unfold isJoin, routable, onMessage.
  destruct (truthy (e_type msg)), (truthy (e_room msg)), (truthy (e_from msg));
    cbn [negb orb andb]; auto.
  destruct (strictEq (e_type msg) "join"); cbn [negb andb]; auto.
  destruct (truthy (e_to msg)); cbn [negb andb]; auto.
  right. right. intros ready ws rooms.
  now destruct (get rooms (str (e_room msg))).
Qed.

Lemma safeSend_In (ready : Sock -> bool) (ws x : Sock) (f g : Frame) :
  In (send x g) (safeSend ready ws f) -> x = ws /\ g = f.
Proof.
  unfold safeSend. destruct (ready ws); cbn; [|tauto].
  intros [E|[]]. now injection E as <- <-.
Qed.

(** Where the frames of one message go: back to the sender, or to the
    holder of the addressee's id. *)
Lemma onMessage_sends (ready : Sock -> bool) (ws : Sock) (raw : option Envelope)
    (rooms : Rooms) (x : Sock) (f : Frame) :
  In (send x f) (snd (onMessage ready ws raw rooms)) ->
  (x = ws /\
   exists msg, raw = Some msg /\
     ((isJoin msg = true /\ f = ack msg) \/
      (routable msg = true /\ f = notInRoom (e_to msg) /\
       holder rooms (str (e_room msg)) (str (e_to msg)) = None))) \/
  (exists msg, raw = Some msg /\ routable msg = true /\ f = EnvelopeFrame msg /\
     holder rooms (str (e_room msg)) (str (e_to msg)) = Some x).
Proof.
  destruct raw as [msg|]; [|intros []].
  destruct (message_cases msg) as [J|[R|N]].
  - rewrite join_eq by assumption. cbn [snd]. intros I.
    apply safeSend_In in I as [-> ->]. left. split; [reflexivity|].
    exists msg. auto.
  - rewrite route_eq by assumption. cbn [snd].
    assert (H : holder rooms (str (e_room msg)) (str (e_to msg))
                = match get rooms (str (e_room msg)) with
                  | Some m => get m (str (e_to msg))
                  | None => None
                  end) by reflexivity.
    destruct (get rooms (str (e_room msg))) as [m|]; [|intros []].
    destruct (get m (str (e_to msg))) as [target|].
    + intros [E|I]; [discriminate E|].
      apply safeSend_In in I as [-> ->]. right. exists msg. auto.
    + intros I. apply safeSend_In in I as [-> ->]. left. split; [reflexivity|].
      exists msg. split; [reflexivity|]. right. auto.
  - rewrite N. intros [].
Qed.

Lemma relay_run_cons (ev : Event) (evs : list Event) (rooms : Rooms) :
  run (ev :: evs) rooms
  = (fst (run evs (fst (handler ev rooms))),
     snd (handler ev rooms) ++ snd (run evs (fst (handler ev rooms)))).
Proof.
  cbn [run]. destruct (handler ev rooms) as [rooms1 out1]. cbn [fst snd].
  now destruct (run evs rooms1).
Qed.

Lemma relay_run_app (evs1 evs2 : list Event) (rooms : Rooms) :
  run (evs1 ++ evs2) rooms
  = (fst (run evs2 (fst (run evs1 rooms))),
     snd (run evs1 rooms) ++ snd (run evs2 (fst (run evs1 rooms)))).
Proof.
  revert rooms; induction evs1 as [|ev evs1 IH]; intros rooms.
  - cbn. now destruct (run evs2 rooms).
  - cbn [app]. rewrite !relay_run_cons, IH. cbn [fst snd]. now rewrite app_assoc.
Qed.

Lemma handler_WF (ev : Event) (rooms : Rooms) : WF rooms -> WF (fst (handler ev rooms)).
Proof.
  intros W. destruct ev as [ready ws raw|ws]; cbn [handler fst].
  - now apply WF_onMessage.
  - now apply WF_onClose.
Qed.

Lemma Reachable_WF (rooms : Rooms) : Reachable rooms -> WF rooms.
Proof. intros [evs <-]. apply run_WF, WF_empty. Qed.

(** The holders after one event. *)
Lemma holder_handler (ev : Event) (rooms : Rooms) (room peerId : string) (x : Sock) :
  WF rooms ->
  holder (fst (handler ev rooms)) room peerId = Some x ->
  joinsAs x room peerId ev = true \/
  (holder rooms room peerId = Some x /\
   match ev with Close ws => x <> ws | Message _ _ _ => True end).
Proof.
  intros W. destruct ev as [ready ws raw|ws]; cbn [handler fst].
  - destruct raw as [msg|]; [|now right].
    destruct (message_cases msg) as [J|[R|N]].
    + rewrite holder_join by assumption.
      destruct (String.eqb_spec room (str (e_room msg))) as [->|];
        [|now right].
      destruct (String.eqb_spec peerId (str (e_from msg))) as [->|];
        [|now right].
      cbn [andb]. intros [= <-]. left. cbn [joinsAs].
      now rewrite Nat.eqb_refl, J, !String.eqb_refl.
    + rewrite route_eq by assumption. now right.
    + rewrite N. now right.
  - rewrite holder_onClose by assumption.
    destruct (holder rooms room peerId) as [sock|]; [|discriminate].
    destruct (Nat.eqb_spec sock ws); [discriminate|].
    intros [= <-]. now right.
Qed.

Lemma sentTo_app (t : Sock) (out1 out2 : list Out) :
  sentTo t (out1 ++ out2) = sentTo t out1 ++ sentTo t out2.
Proof. apply flat_map_app. Qed.

Lemma sentTo_nil (t : Sock) (out : list Out) :
  (forall x f, In (send x f) out -> x <> t) -> sentTo t out = [].
Proof.
  induction out as [|[x f|e] out IH]; intros H; cbn; [reflexivity| |].
  - destruct (Nat.eqb_spec x t) as [->|].
    + now destruct (H t f (or_introl eq_refl)).
    + apply IH. intros y g I. apply (H y g). now right.
  - apply IH. intros y g I. apply (H y g). now right.
Qed.

(** A socket that holds no id and does not speak is sent nothing. *)
Lemma absent_run (t : Sock) (evs : list Event) (rooms : Rooms) :
  WF rooms ->
  (forall room peerId, holder rooms room peerId <> Some t) ->
  forallb (fun ev => negb (speaks t ev)) evs = true ->
  sentTo t (snd (run evs rooms)) = [] /\
  forall room peerId, holder (fst (run evs rooms)) room peerId <> Some t.
Proof.
  revert rooms; induction evs as [|ev evs IH]; intros rooms W A S.
  - now split.
  - cbn [forallb] in S. apply andb_true_iff in S as [S1 S].
    apply negb_true_iff in S1.
    rewrite relay_run_cons. cbn [fst snd]. rewrite sentTo_app.
    assert (A' : forall room peerId,
               holder (fst (handler ev rooms)) room peerId <> Some t).
    { intros room peerId H.
      apply (holder_handler _ _ _ _ _ W) in H as [J|[H _]];
        [|now apply (A room peerId)].
      destruct ev as [ready ws [msg|]|ws]; cbn [joinsAs speaks] in *;
        try discriminate.
      rewrite S1 in J. discriminate. }
    destruct (IH _ (handler_WF ev rooms W) A' S) as [E H]. split; [|exact H].
    rewrite E, app_nil_r. apply sentTo_nil. intros x f I ->.
    destruct ev as [ready ws raw|ws]; cbn [handler snd speaks] in *; [|destruct I].
    apply onMessage_sends in I as [[-> _]|(msg & _ & _ & _ & H')].
    + now rewrite Nat.eqb_refl in S1.
    + now apply (A _ _ H').
Qed.

(** The holders of a run are sockets that joined in it. *)
Lemma holders_joined (evs past : list Event) (rooms : Rooms) :
  WF rooms ->
  (forall room peerId x, holder rooms room peerId = Some x ->
     existsb (joinsAs x room peerId) past = true) ->
  (forall room peerId x, holder (fst (run evs rooms)) room peerId = Some x ->
     existsb (joinsAs x room peerId) (past ++ evs) = true) /\
  (forall x f, In (send x f) (snd (run evs rooms)) ->
     match f with
     | ErrorFrame _ => True
     | EnvelopeFrame e =>
         existsb (joinsAs x (str (e_room e)) (str (e_to e))) (past ++ evs) = true \/
         (e_type e = Some "joined" /\ e_to e = None /\
          existsb (joinsAs x (str (e_room e)) (str (e_from e))) (past ++ evs) = true)
     end).
Proof.
  revert past rooms; induction evs as [|ev evs IH]; intros past rooms W H.
  - rewrite app_nil_r. split; [exact H | intros x f []].
  - assert (H' : forall room peerId x,
               holder (fst (handler ev rooms)) room peerId = Some x ->
               existsb (joinsAs x room peerId) (past ++ [ev]) = true).
    { intros room peerId x Hx. rewrite existsb_app. cbn [existsb].
      apply (holder_handler _ _ _ _ _ W) in Hx as [J|[Hx _]].
      - rewrite J. now rewrite orb_true_r.
      - now rewrite (H _ _ _ Hx). }
    destruct (IH (past ++ [ev]) _ (handler_WF ev rooms W) H') as [IH1 IH2].
    rewrite <- app_assoc in IH1, IH2. cbn [app] in IH1, IH2.
    rewrite relay_run_cons. cbn [fst snd]. split; [exact IH1|].
    intros x f I. apply in_app_or in I as [I|I]; [|now apply IH2].
    destruct ev as [ready ws raw|ws]; cbn [handler snd] in I; [|destruct I].
    apply onMessage_sends in I
      as [[-> (msg & -> & [[J ->]|(R & -> & _)])]|(msg & -> & R & -> & Hx)].
    + right. cbn [ack e_type e_to e_room e_from]. repeat split.
      rewrite existsb_app. cbn [existsb joinsAs].
      now rewrite Nat.eqb_refl, J, !String.eqb_refl, !orb_true_r.
    + exact I.
    + left. rewrite existsb_app. now rewrite (H _ _ _ Hx).
Qed.

(** X1. Every room the relay keeps has a member: a room is created by
    the first [join] and deleted when the last socket in it closes. *)
Theorem relay_rooms_have_members (rooms : Rooms) (room : string) (m : JsMap Sock) :
  Reachable rooms ->
  get rooms room = Some m ->
  exists peerId ws, holder rooms room peerId = Some ws.
Proof.
  intros R G. apply Reachable_WF in R.
  destruct (WF_room rooms room m R G) as [_ N].
  destruct m as [|[peerId ws] m]; [now destruct N|].
  exists peerId, ws. unfold holder. rewrite G. cbn. now rewrite String.eqb_refl.
Qed.

(** X2. A [join] registers the socket under the id in the room, whoever
    held the id before; no other id and no other room changes, and the
    acknowledgement goes to the joining socket only. *)
Theorem join_registers (ready : Sock -> bool) (ws : Sock) (msg : Envelope)
    (rooms : Rooms) :
  isJoin msg = true ->
  let r := onMessage ready ws (Some msg) rooms in
  holder (fst r) (str (e_room msg)) (str (e_from msg)) = Some ws /\
  (forall room peerId,
     (room, peerId) <> (str (e_room msg), str (e_from msg)) ->
     holder (fst r) room peerId = holder rooms room peerId) /\
  sends (snd r) = if ready ws then [(ws, ack msg)] else [].
Proof.
  intros J r. subst r. repeat split.
  - rewrite holder_join by assumption. now rewrite !String.eqb_refl.
  - intros room peerId N. rewrite holder_join by assumption.
    destruct (String.eqb_spec room (str (e_room msg))) as [->|]; [|reflexivity].
    destruct (String.eqb_spec peerId (str (e_from msg))) as [->|]; [|reflexivity].
    now destruct N.
  - rewrite join_eq by assumption. cbn [snd]. unfold safeSend.
    now destruct (ready ws).
Qed.

(** X3. A message with a type other than [join], a room, a sender and an
    addressee is passed on as it is to the socket that holds the
    addressee's id in that room, and to no one else; if no socket holds
    it the sender is told so, and if the room does not exist nothing is
    sent. The rooms stay as they are. *)
Theorem relay_routes_to_holder (ready : Sock -> bool) (ws : Sock) (msg : Envelope)
    (rooms : Rooms) :
  routable msg = true ->
  let r := onMessage ready ws (Some msg) rooms in
  fst r = rooms /\
  sends (snd r)
  = match holder rooms (str (e_room msg)) (str (e_to msg)) with
    | Some target => if ready target then [(target, EnvelopeFrame msg)] else []
    | None =>
        if has rooms (str (e_room msg)) && ready ws
        then [(ws, notInRoom (e_to msg))]
        else []
    end.
Proof.
  intros R r. subst r. rewrite route_eq by assumption. cbn [fst snd].
  split; [reflexivity|]. unfold holder, has.
  destruct (get rooms (str (e_room msg))) as [m|]; [|reflexivity].
  destruct (get m (str (e_to msg))) as [target|]; cbn [sends flat_map andb];
    unfold safeSend.
  - now destruct (ready target).
  - now destruct (ready ws).
Qed.

(** X4. The relay does not check who sends: a message for a registered
    addressee is handled the same whichever socket it comes from, also
    one that never joined or that joined under another id than the
    message's [from]. *)
Theorem relay_does_not_check_sender (ready : Sock -> bool) (ws ws' target : Sock)
    (msg : Envelope) (rooms : Rooms) :
  routable msg = true ->
  holder rooms (str (e_room msg)) (str (e_to msg)) = Some target ->
  onMessage ready ws (Some msg) rooms = onMessage ready ws' (Some msg) rooms.
Proof.
  intros R H. rewrite !route_eq by assumption. unfold holder in H.
  destruct (get rooms (str (e_room msg))) as [m|]; [|reflexivity].
  now rewrite H.
Qed.

(** X5. When a socket closes, every id it held is free again, in every
    room, and every id held by another socket stays with that socket. *)
Theorem close_unregisters (ws : Sock) (rooms : Rooms) (room peerId : string) :
  Reachable rooms ->
  holder (onClose ws rooms) room peerId
  = match holder rooms room peerId with
    | Some sock => if Nat.eqb sock ws then None else Some sock
    | None => None
    end.
Proof. intros R. apply holder_onClose. now apply Reachable_WF. Qed.

(** X6. After a socket has closed, nothing is sent to it, whatever the
    other sockets send and whether or not they close, as long as it does
    not speak again. *)
Theorem closed_socket_receives_nothing (t : Sock) (rooms : Rooms) (evs : list Event) :
  Reachable rooms ->
  forallb (fun ev => negb (speaks t ev)) evs = true ->
  sentTo t (snd (run evs (onClose t rooms))) = [].
Proof.
  intros R S. apply Reachable_WF in R.
  apply absent_run; [now apply WF_onClose| |exact S].
  intros room peerId. rewrite holder_onClose by assumption.
  destruct (holder rooms room peerId) as [sock|]; [|discriminate].
  destruct (Nat.eqb_spec sock t); [discriminate|]. congruence.
Qed.

(** X7. In a run of the relay from its start, an envelope is only sent
    to a socket that joined the envelope's room in that run: under the
    addressee's id for a relayed message, under the sender's id for the
    acknowledgement of a join. *)
Theorem delivered_only_to_members (evs : list Event) (x : Sock) (e : Envelope) :
  In (send x (EnvelopeFrame e)) (snd (run evs [])) ->
  existsb (joinsAs x (str (e_room e)) (str (e_to e))) evs = true \/
  (e_type e = Some "joined" /\ e_to e = None /\
   existsb (joinsAs x (str (e_room e)) (str (e_from e))) evs = true).
Proof.
  intros I.
  destruct (holders_joined evs [] [] WF_empty) as [_ H].
  - intros room peerId y Hy. discriminate Hy.
  - exact (H x (EnvelopeFrame e) I).
Qed.

(** X8. Once a socket has joined under an id, a message for that id in
    that room reaches this socket, from whichever socket it comes and
    whoever held the id before the join. *)
Theorem join_then_delivered (ready ready' : Sock -> bool) (ws ws' : Sock)
    (j msg : Envelope) (rooms : Rooms) :
  isJoin j = true ->
  routable msg = true ->
  e_room msg = e_room j ->
  e_to msg = e_from j ->
  ready' ws = true ->
  sends (snd (run [Message ready ws (Some j); Message ready' ws' (Some msg)] rooms))
  = (if ready ws then [(ws, ack j)] else []) ++ [(ws, EnvelopeFrame msg)].
Proof.
  intros J R Er Et Rd. rewrite relay_run_cons. cbn [fst snd handler].
  rewrite relay_run_cons. cbn [fst snd handler run]. rewrite app_nil_r.
  unfold sends. rewrite flat_map_app. fold (sends (snd (onMessage ready ws (Some j) rooms))).
  f_equal.
  - rewrite join_eq by assumption. cbn [snd]. unfold safeSend.
    now destruct (ready ws).
  - pose proof (holder_join ready ws j rooms (str (e_room j)) (str (e_from j)) J) as H.
    rewrite !String.eqb_refl in H. cbn [andb] in H.
    rewrite route_eq by assumption. cbn [snd]. rewrite Er, Et.
    unfold holder in H.
    destruct (get (fst (onMessage ready ws (Some j) rooms)) (str (e_room j)))
      as [m|]; [|discriminate H].
    rewrite H. cbn. unfold safeSend. now rewrite Rd.
Qed.

End RelayFacts.

(** * More of the client *)

Section Sending.
Context {node : Node}.
Variables (room me peer curve : string) (ecdh : ECDH).

Lemma sent_envelopes_app (out1 out2 : list Effect) :
  sent_envelopes (out1 ++ out2) = sent_envelopes out1 ++ sent_envelopes out2.
Proof. apply flat_map_app. Qed.

Lemma no_send_no_envelope (out : list Effect) :
  filter is_send out = [] -> sent_envelopes out = [].
Proof.
  induction out as [|e out IH]; [reflexivity|].
  destruct e; cbn; try exact IH. intros H; discriminate H.
Qed.

Lemma counters_app (out1 out2 : list Effect) :
  counters (out1 ++ out2) = counters out1 ++ counters out2.
Proof. unfold counters. now rewrite sent_envelopes_app, filter_app, map_app. Qed.

(** [promptLoop] resumed by a line, case by case. *)
Lemma onLine_eq (line : string) (iv : bytes) (st : Client) :
  onLine room me peer line iv st =
  if negb (promptLoop_awaiting st) then (st, [], Return)
  else if (line =? "")%string then (st, [rl_question], Normal tt)
  else if (line =? "/quit")%string
  then (set_promptLoop_awaiting false st, [ws_close], Normal tt)
  else
    match session st with
    | None => (st, [console_log LogSessionNotReady; rl_question], Normal tt)
    | Some s =>
        let counter := Z.of_N (incr (sendCounter st)) in
        match encryptAesGcm (kEnc s) line
                (buildAad room (Some me) peer (Some counter)) iv with
        | Ok sealed =>
            (set_sendCounter (incr (sendCounter st)) st,
             [ws_send
                (msgEnvelope room me peer counter sealed
                   (hmacSha256 (kMac s)
                      (buildAad room (Some me) peer (Some counter)
                         ++ s_iv sealed ++ s_ct sealed ++ s_tag sealed)));
              rl_question],
             Normal tt)
        | Err e =>
            (set_sendCounter (incr (sendCounter st))
               (set_promptLoop_awaiting false st),
             [], Throw e)
        end
    end.
Proof.
  unfold onLine, promptLoop_body, sendMessage, encryptAesGcm. step_m.
  destruct st as [j hs s sc rc ph pm pr pa]. cbn [promptLoop_awaiting].
  destruct pa; cbn [negb]; [|reflexivity].
  destruct (line =? "")%string; [reflexivity|].
  destruct (line =? "/quit")%string; [reflexivity|].
  record_m. cbn. destruct s as [keys|]; [|reflexivity].
  now destruct (aes256gcm_encrypt _ _ _ _) as [[ct tag]|].
Qed.

(** The state after the drain of an accepted handshake. *)
Lemma drained_state (keys : SessionKeys) (st : Client) :
  let st' := state_of (processPendingMessages room me (keyed keys st)) in
  sendCounter st' = sendCounter st /\
  handshakeSent st' = true /\
  promptLoop_awaiting st' = promptLoop_awaiting st /\
  promptLoop_running st' = promptLoop_running st /\
  session st' = Some keys /\
  sent_envelopes (effects_of (processPendingMessages room me (keyed keys st))) = [].
Proof.
  cbn zeta.
  destruct (processPendingMessages_spec room me (keyed keys st)) as (S & _ & F & _).
  apply no_send_no_envelope in S.
  destruct (processPendingMessages room me (keyed keys st)) as [[st2 out2] c2].
  cbn [state_of effects_of fst snd] in *. rewrite F.
  now destruct st.
Qed.

(** What the message handler leaves alone, and what it may send. *)
Lemma onMessage_frame (raw : option Envelope) (st : Client) :
  let r := onMessage room me peer curve ecdh raw st in
  sendCounter (state_of r) = sendCounter st /\
  (handshakeSent st = true -> handshakeSent (state_of r) = true) /\
  (promptLoop_awaiting (state_of r) = true ->
   promptLoop_awaiting st = true \/ session (state_of r) <> None) /\
  (sent_envelopes (effects_of r) = [] \/
   exists to,
     sent_envelopes (effects_of r) = [handshakeEnvelope room me curve ecdh to] /\
     (is_request me (WsMessage raw) = true \/
      (handshakeSent st = false /\ handshakeSent (state_of r) = true))).
Proof.
  cbn zeta.
  destruct raw as [msg|]; [|rewrite onMessage_unparsable; cbn; auto].
  destruct (addressedTo me msg) eqn:A;
    [|rewrite onMessage_elsewhere by assumption; cbn; auto].
  destruct (type_cases (e_type msg)) as [T|[T|[T|[T|(T1 & T2 & T3 & T4)]]]].
  - rewrite (onMessage_joined room me peer curve ecdh) by assumption.
    cbn [state_of effects_of fst snd]. rewrite sent_envelopes_app.
    split; [now destruct st|]. split; [reflexivity|].
    split; [destruct st; cbn; auto|].
    destruct (handshakeSent st) eqn:H; [now left|].
    right. exists (Some peer). split; [reflexivity|]. right. now split.
  - rewrite onMessage_request_handshake by assumption.
    cbn [state_of effects_of fst snd]. repeat split; auto.
    right. exists (e_from msg). split; [reflexivity|]. left.
    cbn [is_request]. now rewrite A, T.
  - destruct (peerHandshakeReceived st) eqn:P.
    { rewrite onMessage_handshake_duplicate by assumption. cbn; auto. }
    destruct (strictEq (otherCurve msg) curve) eqn:C.
    2:{ rewrite onMessage_handshake_mismatch by assumption.
        cbn [state_of effects_of fst snd]. repeat split; auto. }
    assert (R : sent_envelopes (greeting msg ++ reply room me curve ecdh msg st) = [] \/
                exists to,
                  sent_envelopes (greeting msg ++ reply room me curve ecdh msg st)
                  = [handshakeEnvelope room me curve ecdh to] /\
                  handshakeSent st = false).
    { unfold reply. destruct (handshakeSent st); [now left|].
      right. now exists (e_from msg). }
    destruct (computeSecret ecdh (otherPub msg)) as [shared|] eqn:K.
    2:{ rewrite onMessage_handshake_badkey by assumption.
        cbn [state_of effects_of fst snd].
        split; [now destruct st|]. split; [now destruct st|].
        split; [destruct st; cbn; auto|].
        destruct R as [R|(to & R & H)]; [now left|].
        right. exists to. split; [exact R|]. right. split; [exact H|now destruct st]. }
    destruct (deriveSessionKeys shared (sessionContext room me curve (e_from msg)))
      as [keys|e0] eqn:Dk.
    2:{ rewrite (onMessage_handshake_refused room me peer curve ecdh msg st shared e0)
          by assumption.
        cbn [state_of effects_of fst snd].
        split; [now destruct st|]. split; [now destruct st|].
        split; [destruct st; cbn; auto|].
        destruct R as [R|(to & R & H)]; [now left|].
        right. exists to. split; [exact R|]. right. split; [exact H|now destruct st]. }
    rewrite (onMessage_handshake_established room me peer curve ecdh msg st shared keys)
      by assumption.
    cbn zeta.
    destruct (drained_state keys st) as (D1 & D2 & D3 & D4 & D5 & D6).
    destruct (processPendingMessages room me (keyed keys st)) as [[st2 out2] c2].
    cbn [state_of effects_of completion_of fst snd] in *.
    assert (E : forall tail,
               sent_envelopes tail = [] ->
               sent_envelopes
                 ((greeting msg ++ reply room me curve ecdh msg st
                     ++ [console_log LogSessionKeysDerived;
                         console_log LogStartChatting]) ++ out2 ++ tail) = [] \/
               exists to,
                 sent_envelopes
                   ((greeting msg ++ reply room me curve ecdh msg st
                       ++ [console_log LogSessionKeysDerived;
                           console_log LogStartChatting]) ++ out2 ++ tail)
                 = [handshakeEnvelope room me curve ecdh to] /\
                 (is_request me (WsMessage (Some msg)) = true \/
                  handshakeSent st = false /\ true = true)).
    { intros tail Ht. rewrite !sent_envelopes_app, D6, Ht in *.
      cbn [sent_envelopes flat_map app] in *. rewrite !app_nil_r in *.
      destruct R as [R|(to & R & H)]; [now left|].
      right. exists to. auto. }
    assert (E0 := E [] eq_refl). rewrite app_nil_r in E0.
    destruct c2 as [[]| |e|]; cbn [state_of effects_of fst snd];
      try (destruct (promptLoop_running st2);
           cbn [state_of effects_of fst snd]);
      repeat split; try rewrite D2; try rewrite D5; auto;
      try (right; congruence);
      try (destruct st2; cbn in *; auto; fail);
      try (destruct st2; cbn in *; rewrite D2; exact (E [rl_question] eq_refl)).
    all: try (intros _; right; destruct st2; cbn in *; congruence).
  - destruct (session st) as [keys|] eqn:S.
    + rewrite onMessage_msg_opened by congruence. unfold call.
      destruct (Opens_frame room me msg st _ (handle_opens room me msg st))
        as (F1 & _ & F3 & _).
      apply no_send_no_envelope in F3.
      destruct (handleEncryptedMessage room me msg st) as [[st1 out1] c1].
      cbn [state_of effects_of completion_of fst snd] in *.
      assert (sendCounter st1 = sendCounter st /\
              handshakeSent st1 = handshakeSent st /\
              promptLoop_awaiting st1 = promptLoop_awaiting st)
        as (H1 & H2 & H3) by (rewrite F1; now destruct st).
      destruct c1 as [[]| | |]; cbn [state_of effects_of fst snd];
        (split; [exact H1|]; split; [congruence|]; split; [|now left];
         intros H; left; congruence).
    + rewrite onMessage_msg_queued by assumption.
      cbn [state_of effects_of fst snd]. repeat split; auto; now destruct st.
  - rewrite onMessage_other by assumption. cbn; auto.
Qed.

(** What one handler sends, and what it does to the counter, to the
    handshake flag and to the prompt. *)
Lemma handler_sends (ev : Event) (st : Client) :
  let r := handler room me peer curve ecdh ev st in
  let sent := sent_envelopes (effects_of r) in
  (handshakeSent st = true -> handshakeSent (state_of r) = true) /\
  (promptLoop_awaiting (state_of r) = true ->
   promptLoop_awaiting st = true \/ session (state_of r) <> None) /\
  ((sendCounter (state_of r) = sendCounter st /\
    (sent = [] \/ sent = [joinEnvelope room me] \/
     sent = [requestEnvelope room me peer] \/
     exists to,
       sent = [handshakeEnvelope room me curve ecdh to] /\
       (is_request me ev = true \/
        (handshakeSent st = false /\ handshakeSent (state_of r) = true)))) \/
   (sendCounter (state_of r) = incr (sendCounter st) /\
    is_request me ev = false /\
    ((sent = [] /\ alive (completion_of r) = false) \/
     exists sealed mac,
       sent = [msgEnvelope room me peer (Z.of_N (incr (sendCounter st))) sealed mac]))).
Proof.
  cbn zeta. destruct ev as [ |raw| | | |line iv| ]; cbn [handler].
  7:{ cbn. split; [auto|]. split; [auto|]. left. auto. }
  - cbn. split; [auto|]. split; [auto|]. left. auto.
  - destruct (onMessage_frame raw st) as (F1 & F2 & F3 & F4).
    split; [exact F2|]. split; [exact F3|]. left. split; [exact F1|].
    destruct F4 as [F4|F4]; auto.
  - cbn. split; [auto|]. split; [auto|]. left. auto.
  - cbn. split; [auto|]. split; [auto|]. left. auto.
  - unfold onTimeout. step_m.
    destruct (peerHandshakeReceived st); cbn;
      (split; [auto|]; split; [auto|]; left; auto).
  - rewrite onLine_eq.
    destruct (promptLoop_awaiting st) eqn:PA; cbn [negb];
      [|cbn; split; [auto|]; split; [intros H; congruence|]; left; auto].
    destruct (line =? "")%string;
      [cbn; split; [auto|]; split; [auto|]; left; auto|].
    destruct (line =? "/quit")%string;
      [cbn; split; [now destruct st|]; split; [auto|]; left; split;
       [now destruct st|auto]|].
    destruct (session st) as [s|] eqn:S;
      [|cbn; split; [auto|]; split; [auto|]; left; auto].
    cbn zeta. destruct (encryptAesGcm _ _ _ _) as [sealed|e];
      cbn [state_of effects_of completion_of fst snd];
      (split; [now destruct st|]; split; [auto|]; right;
       split; [now destruct st|]; split; [reflexivity|]).
    + right. eexists _, _. reflexivity.
    + left. now split.
Qed.

Lemma In_sent_envelopes (env : Envelope) (out : list Effect) :
  In (ws_send env) out <-> In env (sent_envelopes out).
Proof.
  unfold sent_envelopes. rewrite in_flat_map. split.
  - intros I. exists (ws_send env). split; [exact I | now left].
  - intros (e & I & H). destruct e; cbn in H; try now destruct H.
    destruct H as [->|[]]. exact I.
Qed.

(** What the envelopes of one handler look like. *)
Lemma handler_envelopes (ev : Event) (st : Client) (env : Envelope) :
  In env (sent_envelopes (effects_of (handler room me peer curve ecdh ev st))) ->
  e_room env = Some room /\ e_from env = Some me /\
  clientType (e_type env) = true /\
  (is_msg env = true ->
   e_to env = Some peer /\ hasMsgFields env = true /\
   exists n, p_counter (orEmpty (e_payload env)) = Some (Z.of_N n)).
Proof.
  destruct (handler_sends ev st) as (_ & _ & [(_ & H)|(_ & _ & H)]).
  - destruct H as [->|[->|[->|(to & -> & _)]]]; [intros []| | |];
      (intros [<-|[]]; repeat split; discriminate).
  - destruct H as [(-> & _)|(sealed & mac & ->)]; [intros []|].
    intros [<-|[]]. repeat split. now eexists.
Qed.

Lemma NoDup_map_injective {A B : Type} (f : A -> B) (l : list A) :
  (forall x y, f x = f y -> x = y) -> NoDup l -> NoDup (map f l).
Proof.
  intros Inj. induction 1 as [|x l N D IH]; cbn; constructor; [|exact IH].
  intros I. apply in_map_iff in I as (y & E & I). apply Inj in E. now subst.
Qed.

Lemma count_from_length (c : N) (n : nat) : List.length (count_from c n) = n.
Proof. revert c; induction n as [|n IH]; intros c; cbn; [reflexivity | now rewrite IH]. Qed.

Lemma count_from_below (c : N) (n : nat) :
  (c + N.of_nat n <= 2 ^ 53)%N ->
  map (fun k => Some (Z.of_N k)) (count_from c n)
  = map (fun i => Some (Z.of_N c + Z.of_nat i + 1)%Z) (seq 0 n).
Proof.
  revert c; induction n as [|n IH]; intros c B; [reflexivity|].
  cbn [count_from map seq].
  assert (E : incr c = (c + 1)%N).
  { unfold incr. destruct (N.ltb_spec c (2 ^ 53)); [reflexivity | lia]. }
  rewrite E. f_equal; [f_equal; lia|].
  rewrite IH by lia. rewrite <- seq_shift, map_map.
  apply map_ext. intros i. f_equal. lia.
Qed.

Lemma counters_of_sent (out : list Effect) (sent : list Envelope) :
  sent_envelopes out = sent ->
  counters out = map (fun env => p_counter (orEmpty (e_payload env))) (filter is_msg sent).
Proof. now intros <-. Qed.

(** What the message handler does to the prompt loop. *)
Lemma onMessage_loop (raw : option Envelope) (st : Client) :
  let r := onMessage room me peer curve ecdh raw st in
  (promptLoop_running st = true ->
   promptLoop_running (state_of r) = true /\
   promptLoop_awaiting (state_of r) = promptLoop_awaiting st) /\
  (promptLoop_awaiting (state_of r) = true ->
   promptLoop_awaiting st = true \/ promptLoop_running (state_of r) = true).
Proof.
  cbn zeta.
  destruct raw as [msg|]; [|rewrite onMessage_unparsable; cbn; auto].
  destruct (addressedTo me msg) eqn:A;
    [|rewrite onMessage_elsewhere by assumption; cbn; auto].
  destruct (type_cases (e_type msg)) as [T|[T|[T|[T|(T1 & T2 & T3 & T4)]]]].
  - rewrite (onMessage_joined room me peer curve ecdh) by assumption.
    cbn [state_of effects_of fst snd]. destruct st; cbn; auto.
  - rewrite onMessage_request_handshake by assumption. cbn; auto.
  - destruct (peerHandshakeReceived st) eqn:P.
    { rewrite onMessage_handshake_duplicate by assumption. cbn; auto. }
    destruct (strictEq (otherCurve msg) curve) eqn:C.
    2:{ rewrite onMessage_handshake_mismatch by assumption. cbn; auto. }
    destruct (computeSecret ecdh (otherPub msg)) as [shared|] eqn:K.
    2:{ rewrite onMessage_handshake_badkey by assumption.
        cbn [state_of fst]. destruct st; cbn; auto. }
    destruct (deriveSessionKeys shared (sessionContext room me curve (e_from msg)))
      as [keys|e0] eqn:Dk.
    2:{ rewrite (onMessage_handshake_refused room me peer curve ecdh msg st shared e0)
          by assumption.
        cbn [state_of fst]. destruct st; cbn; auto. }
    rewrite (onMessage_handshake_established room me peer curve ecdh msg st shared keys)
      by assumption.
    cbn zeta.
    destruct (drained_state keys st) as (_ & _ & D3 & D4 & _ & _).
    destruct (processPendingMessages room me (keyed keys st)) as [[st2 out2] c2].
    cbn [state_of effects_of completion_of fst snd] in *.
    destruct c2 as [[]| |e|]; cbn [state_of fst];
      try (destruct (promptLoop_running st2) eqn:R2; cbn [state_of fst]);
      rewrite <- ?D3;
      try (split; [intros R; split; congruence | auto]; fail);
      (split; [intros R; congruence|]; intros _; right; now destruct st2).
  - destruct (session st) as [keys|] eqn:S.
    + rewrite onMessage_msg_opened by congruence. unfold call.
      destruct (Opens_frame room me msg st _ (handle_opens room me msg st))
        as (F1 & _).
      destruct (handleEncryptedMessage room me msg st) as [[st1 out1] c1].
      cbn [state_of effects_of completion_of fst snd] in *.
      assert (promptLoop_running st1 = promptLoop_running st /\
              promptLoop_awaiting st1 = promptLoop_awaiting st)
        as (H1 & H2) by (rewrite F1; now destruct st).
      destruct c1 as [[]| | |]; cbn [state_of fst]; rewrite H1, H2; auto.
    + rewrite onMessage_msg_queued by assumption.
      cbn [state_of fst]. destruct st; cbn; auto.
  - rewrite onMessage_other by assumption. cbn; auto.
Qed.

(** What one handler does to the prompt loop, and that the counter
    moves in the prompt loop only. *)
Lemma handler_loop (ev : Event) (st : Client) :
  let r := handler room me peer curve ecdh ev st in
  (promptLoop_running st = true -> promptLoop_running (state_of r) = true) /\
  (promptLoop_running st = true -> promptLoop_awaiting st = false ->
   promptLoop_awaiting (state_of r) = false) /\
  (promptLoop_awaiting (state_of r) = true ->
   promptLoop_awaiting st = true \/ promptLoop_running (state_of r) = true) /\
  (promptLoop_awaiting st = false ->
   sendCounter (state_of r) = sendCounter st /\ counters (effects_of r) = []) /\
  (sendCounter (state_of r) <> sendCounter st ->
   alive (completion_of r) = false ->
   promptLoop_awaiting st = true /\ promptLoop_awaiting (state_of r) = false).
Proof.
  cbn zeta. destruct ev as [ |raw| | | |line iv| ]; cbn [handler].
  - cbn. repeat split; auto; congruence.
  - destruct (onMessage_loop raw st) as (L1 & L2).
    destruct (onMessage_frame raw st) as (F1 & _ & _ & F4).
    split; [intros R; now destruct (L1 R)|].
    split; [intros R W; destruct (L1 R); congruence|].
    split; [exact L2|]. split; [|congruence].
    intros _. split; [exact F1|].
    destruct F4 as [F4|(to & F4 & _)]; now rewrite (counters_of_sent _ _ F4).
  - cbn. repeat split; auto; congruence.
  - cbn. repeat split; auto; congruence.
  - unfold onTimeout. step_m.
    destruct (peerHandshakeReceived st); cbn; repeat split; auto; congruence.
  - rewrite onLine_eq.
    destruct (promptLoop_awaiting st) eqn:PA; cbn [negb];
      [|cbn; repeat split; auto; congruence].
    destruct (line =? "")%string; [cbn; repeat split; auto; congruence|].
    destruct (line =? "/quit")%string;
      [cbn; destruct st; cbn in *; repeat split; auto; congruence|].
    destruct (session st) as [k|] eqn:S; [|cbn; repeat split; auto; congruence].
    cbn zeta. destruct (encryptAesGcm _ _ _ _) as [sealed|e];
      cbn [state_of effects_of completion_of fst snd alive];
      destruct st; cbn in *; repeat split; auto; congruence.
  - cbn. repeat split; auto; congruence.
Qed.

Lemma handler_LoopInv (ev : Event) (st : Client) :
  LoopInv st -> LoopInv (state_of (handler room me peer curve ecdh ev st)).
Proof.
  intros I W. destruct (handler_loop ev st) as (L1 & _ & L3 & _).
  destruct (L3 W) as [W'|R]; auto.
Qed.

(** Once the prompt loop has ended no message is sent any more. *)
Lemma turn_LoopEnded (rejected : bool) (evs : list Event) (st : Client) :
  LoopEnded st ->
  counters (effects_of (turn room me peer curve ecdh rejected evs st)) = [].
Proof.
  revert rejected st; induction evs as [|ev evs IH]; intros rejected st [R W];
    [reflexivity|].
  destruct (turn_step room me peer curve ecdh rejected ev evs st) as (rest & -> & T).
  destruct (handler_loop ev st) as (L1 & L2 & _ & L4 & _).
  destruct (L4 W) as [_ E]. rewrite counters_app, E. cbn [app].
  destruct T as [->|(rej & ->)]; [reflexivity|].
  apply IH. split; auto.
Qed.

Lemma turn_counters (rejected : bool) (evs : list Event) (st : Client) :
  LoopInv st ->
  let cs := counters (effects_of (turn room me peer curve ecdh rejected evs st)) in
  cs = map (fun c => Some (Z.of_N c)) (count_from (sendCounter st) (List.length cs)).
Proof.
  cbn zeta. revert rejected st; induction evs as [|ev evs IH]; intros rejected st I;
    [reflexivity|].
  destruct (turn_step room me peer curve ecdh rejected ev evs st) as (rest & -> & T).
  rewrite counters_app.
  destruct (handler_sends ev st) as (_ & _ & H).
  destruct (handler_loop ev st) as (L1 & _ & _ & _ & L5).
  pose proof (handler_LoopInv ev st I) as I'.
  set (r := handler room me peer curve ecdh ev st) in *.
  assert (R : counters rest
              = map (fun c => Some (Z.of_N c))
                    (count_from (sendCounter (state_of r))
                       (List.length (counters rest)))).
  { destruct T as [->|(rej & ->)]; [reflexivity | now apply IH]. }
  destruct H as [(C & H)|(C & _ & H)].
  - assert (E : counters (effects_of r) = []).
    { destruct H as [H|[H|[H|(to & H & _)]]];
        now rewrite (counters_of_sent _ _ H). }
    rewrite E. cbn [app]. now rewrite <- C.
  - destruct H as [(H & L)|(sealed & mac & H)].
    + rewrite (counters_of_sent _ _ H). cbn [filter map app].
      destruct (N.eq_dec (sendCounter (state_of r)) (sendCounter st)) as [E|E].
      * now rewrite <- E.
      * (* the prompt loop threw after [sendCounter++]: it has ended *)
        destruct (L5 E L) as [W W'].
        assert (Z : counters rest = []).
        { destruct T as [->|(rej & ->)]; [reflexivity|].
          apply turn_LoopEnded. split; auto. }
        now rewrite Z.
    + rewrite (counters_of_sent _ _ H). cbn [filter].
      change (is_msg (msgEnvelope room me peer (Z.of_N (incr (sendCounter st)))
                        sealed mac)) with true.
      cbn [map app List.length count_from msgEnvelope e_payload orEmpty p_counter].
      f_equal. now rewrite <- C.
Qed.

Lemma is_request_count (ev : Event) (evs : list Event) :
  List.length (filter (is_request me) (ev :: evs))
  = ((if is_request me ev then 1 else 0) + List.length (filter (is_request me) evs))%nat.
Proof. cbn [filter]. now destruct (is_request me ev). Qed.

Lemma run_envelopes (evs : list Event) (st : Client) (env : Envelope) :
  In env (sent_envelopes (effects_of (run room me peer curve ecdh evs st))) ->
  exists ev st', In env (sent_envelopes (effects_of (handler room me peer curve ecdh ev st'))).
Proof.
  intros I. apply In_sent_envelopes in I.
  destruct (turn_effects room me peer curve ecdh (fun _ => True) false evs st
              (ws_send env)) as (ev & st' & _ & J); auto.
  exists ev, st'. now apply In_sent_envelopes.
Qed.

(** The prompt waits for a line only once the session exists, in every
    state a run leaves. *)
Lemma turn_PromptInv (rejected : bool) (evs : list Event) (st : Client) :
  Guarded st -> PromptInv st ->
  PromptInv (state_of (turn room me peer curve ecdh rejected evs st)).
Proof.
  intros G P.
  apply (turn_keeps room me peer curve ecdh
           (fun st => Guarded st /\ PromptInv st)); [|now split].
  clear. intros ev st [G P].
  destruct (handler_keepsKeys room me peer curve ecdh ev st G) as [G' K].
  split; [exact G'|].
  destruct (handler_sends ev st) as (_ & A & _).
  intros W. destruct (A W) as [W'|W']; [|exact W'].
  specialize (P W'). destruct (session st) as [keys|] eqn:S; [|now destruct P].
  rewrite (K keys eq_refl). discriminate.
Qed.

Lemma Reachable_PromptInv (st : Client) :
  Reachable room me peer curve ecdh st -> PromptInv st.
Proof.
  intros (evs & out & live & R).
  pose proof (turn_PromptInv false evs initial
                (Guarded_initial) ltac:(discriminate)) as P.
  unfold run in R. now rewrite R in P.
Qed.

Lemma Reachable_LoopInv (st : Client) :
  Reachable room me peer curve ecdh st -> LoopInv st.
Proof.
  intros (evs & out & live & R).
  pose proof (turn_keeps room me peer curve ecdh LoopInv false evs initial
                handler_LoopInv ltac:(discriminate)) as P.
  unfold run in R. now rewrite R in P.
Qed.

Lemma call_facts (body : M unit) (st : Client) :
  state_of (call body st) = state_of (body st) /\
  effects_of (call body st) = effects_of (body st) /\
  alive (completion_of (call body st)) = alive (completion_of (body st)).
Proof. unfold call. now destruct (body st) as [[st1 out1] [[]| | |]]. Qed.

(** Messages that arrive once the session exists. *)
Lemma run_arrivals_established (ms : list Envelope) (st : Client) (keys : SessionKeys) :
  session st = Some keys ->
  forallb (isMsgFor me) ms = true ->
  forallb hasMsgFields ms = true ->
  let r := run room me peer curve ecdh (arrivals ms) st in
  effects_of r = List.concat (map (openEffects room me keys) ms) /\
  snd r = true /\
  sameButRecv st (state_of r).
Proof.
  cbn zeta. revert st; induction ms as [|m ms IH]; intros st S A F.
  - cbn. repeat split. apply sameButRecv_refl.
  - cbn [forallb] in A, F. apply andb_true_iff in A as [A1 A], F as [F1 F].
    unfold isMsgFor in A1. apply andb_true_iff in A1 as [A1 T].
    assert (T' : e_type m = Some "msg").
    { destruct (e_type m) as [t|]; [|discriminate T]. cbn in T.
      apply String.eqb_eq in T. now subst. }
    cbn [arrivals map]. fold (arrivals ms).
    destruct (call_facts (handleEncryptedMessage room me m) st) as (C1 & C2 & C3).
    rewrite run_cons_alive; cbn zeta; cbn [handler];
      rewrite (onMessage_msg_opened room me peer curve ecdh) by congruence;
      [|rewrite C3; exact (handle_wellformed room me m st F1)].
    rewrite C1, C2.
    destruct (Opens_frame room me m st _ (handle_opens room me m st)) as (B & _).
    assert (S' : session (state_of (handleEncryptedMessage room me m st)) = Some keys)
      by (now rewrite (sameButRecv_session _ _ B)).
    destruct (IH _ S' A F) as (E & L & B').
    cbn [state_of effects_of fst snd] in *. cbn [map List.concat].
    rewrite E, (handle_openEffects room me m st keys S). repeat split.
    + exact L.
    + eapply sameButRecv_trans; eassumption.
Qed.

(** Events the client does not react to. *)
Lemma noise_handler (ev : Event) (st : Client) :
  noise me ev = true ->
  handler room me peer curve ecdh ev st = (st, [], Return).
Proof.
  destruct ev as [ |[msg|]| | | |line iv| ]; cbn [noise handler]; try discriminate.
  - intros A. apply negb_true_iff in A. now apply onMessage_elsewhere.
  - reflexivity.
Qed.

End Sending.

(** ** The session, once it exists *)

Section Established.
Context {node : Node}.
Variables (room me peer curve : string) (ecdh : ECDH).

(** X9. The session keys are set once: whatever arrives and whatever is
    typed after the session exists, later handshakes included, the keys
    stay the ones derived from the first accepted handshake. *)
Theorem session_keys_never_change (evs : list Event) (st : Client) (keys : SessionKeys) :
  Reachable room me peer curve ecdh st ->
  session st = Some keys ->
  session (state_of (run room me peer curve ecdh evs st)) = Some keys.
Proof.
  intros R S. apply turn_session_stable; [|exact S].
  now apply (Reachable_Guarded room me peer curve ecdh).
Qed.

(** X10. Once the session exists, each message that arrives is opened
    on its own: what the client does with it depends on the keys and on
    the envelope only, not on what arrived before. The counter of the
    payload is not compared with [recvCounter], so a message that
    arrives twice is opened twice and messages out of order are opened
    in the order they arrive. *)
Theorem arrivals_opened_independently (ms : list Envelope) (st : Client)
    (keys : SessionKeys) :
  session st = Some keys ->
  forallb (isMsgFor me) ms = true ->
  forallb hasMsgFields ms = true ->
  let r := run room me peer curve ecdh (arrivals ms) st in
  effects_of r = List.concat (map (openEffects room me keys) ms) /\
  snd r = true /\
  session (state_of r) = Some keys.
Proof.
  intros S A F r.
  destruct (run_arrivals_established room me peer curve ecdh ms st keys S A F)
    as (E & L & B).
  repeat split; [exact E | exact L |].
  fold r in B. now rewrite (sameButRecv_session _ _ B).
Qed.

(** X11. A message whose MAC is right but which AES-GCM refuses: the
    exception of [decryptAesGcm] is caught, the failure is printed, the
    state stays as it is ([recvCounter] included) and the client goes on. *)
Theorem decrypt_failure_caught (msg : Envelope) (st : Client) (keys : SessionKeys) :
  session st = Some keys ->
  isMsgFor me msg = true ->
  hasMsgFields msg = true ->
  timingSafeEq (macExpected room me keys msg) (hmacB msg) = Ok true ->
  aes256gcm_decrypt (kEnc keys) (ivB msg) (aad room me msg) (ctB msg) (tagB msg) = None ->
  run room me peer curve ecdh [WsMessage (Some msg)] st
  = (st,
     [call_decryptAesGcm (kEnc keys) (ivB msg) (ctB msg) (tagB msg) (aad room me msg);
      console_log (LogDecryptFailed CryptoError)],
     true).
Proof.
  intros S A F H D. unfold isMsgFor in A. apply andb_true_iff in A as [A T].
  assert (T' : e_type msg = Some "msg").
  { destruct (e_type msg) as [t|]; [|discriminate T]. cbn in T.
    apply String.eqb_eq in T. now subst. }
  rewrite run_one. cbn [handler].
  rewrite (onMessage_msg_opened room me peer curve ecdh) by congruence.
  unfold call.
  pose proof (handle_opens room me msg st) as O.
  inversion O as [S0|k S0 F0|k S0 F0 H0|k S0 F0 H0 D0|k pt S0 F0 H0 D0];
    try congruence;
    rewrite S in S0; injection S0 as <-; try congruence.
  reflexivity.
Qed.



(** X14. But for the handshake sent on [joined], the message handler
    never looks at the configured peer: a handshake, a request for one
    or a message is handled the same whoever the peer was said to be.
    In particular the sender of an envelope is not compared with it. *)
Theorem peer_never_checked (peer' : string) (raw : option Envelope) (st : Client) :
  match raw with
  | Some msg => strictEq (e_type msg) "joined" = false
  | None => True
  end ->
  onMessage room me peer curve ecdh raw st = onMessage room me peer' curve ecdh raw st.
Proof.
  destruct raw as [msg|]; [|reflexivity].
  intros T. unfold onMessage. cbv zeta. rewrite T. reflexivity.
Qed.

(** X15. Frames that are not JSON and envelopes addressed to someone
    else leave no trace: a run with them is the run without them. *)
Theorem noise_ignored (evs : list Event) (st : Client) :
  run room me peer curve ecdh (filter (fun ev => negb (noise me ev)) evs) st
  = run room me peer curve ecdh evs st.
Proof.
  unfold run. generalize false as rejected.
  revert st; induction evs as [|ev evs IH]; intros st rejected; [reflexivity|].
  cbn [filter]. destruct (noise me ev) eqn:N; cbn [negb].
  - rewrite IH.
    pose proof (noise_handler room me peer curve ecdh ev st N) as H.
    destruct ev as [ |raw| | | |line iv| ]; try discriminate N.
    cbn [turn]. rewrite H.
    now destruct (turn room me peer curve ecdh rejected evs st) as [[st' out'] a'].
  - destruct ev as [ |raw| | | |line iv| ]; cbn [turn];
      try (destruct (handler room me peer curve ecdh _ st) as [[st1 out1] [[]| |e|]];
           now rewrite ?IH).
    destruct rejected; [reflexivity | apply IH].
Qed.

(** X16. The prompt asks for a line only once the session exists, so
    the branch of the prompt loop that prints the "session not ready"
    line is never taken. *)
Theorem session_not_ready_unreachable (st : Client) (line : string) (iv : bytes) :
  Reachable room me peer curve ecdh st ->
  (promptLoop_awaiting st = true -> Established st) /\
  ~ In (console_log LogSessionNotReady)
       (effects_of (handler room me peer curve ecdh (Line line iv) st)).
Proof.
  intros R. apply Reachable_PromptInv in R. split; [exact R|].
  cbn [handler]. rewrite onLine_eq.
  destruct (promptLoop_awaiting st) eqn:PA; cbn [negb]; [|intros []].
  destruct (line =? "")%string; [cbn; intuition discriminate|].
  destruct (line =? "/quit")%string; [cbn; intuition discriminate|].
  destruct (session st) as [s|] eqn:S; [|now destruct (R PA)].
  cbn zeta. destruct (encryptAesGcm _ _ _ _) as [sealed|e];
    cbn; intuition discriminate.
Qed.

(** X17. Every envelope the client sends names its own room and its own
    id as the sender, and is a [join], a [handshake], a
    [request_handshake] or a [msg]; a [msg] goes to the configured peer
    and carries [iv], [ct], [tag], [hmac] and a counter. *)
Theorem client_sends_own_identity (evs : list Event) (st : Client) (env : Envelope) :
  In (ws_send env) (effects_of (run room me peer curve ecdh evs st)) ->
  e_room env = Some room /\ e_from env = Some me /\
  clientType (e_type env) = true /\
  (is_msg env = true ->
   e_to env = Some peer /\ hasMsgFields env = true /\
   exists n, p_counter (orEmpty (e_payload env)) = Some (Z.of_N n)).
Proof.
  intros I. apply In_sent_envelopes in I.
  apply (run_envelopes room me peer curve ecdh) in I as (ev & st' & I).
  exact (handler_envelopes room me peer curve ecdh ev st' env I).
Qed.

(** X18. The counters of the messages a run sends from a reachable
    state are the successive values of [sendCounter]. As long as the
    counter does not pass 2^53 they are consecutive integers and none is
    used twice. At 2^53 the counter no longer moves, and every message
    sent from then on carries 2^53. *)
Theorem sent_counters_consecutive (evs : list Event) (st : Client) :
  Reachable room me peer curve ecdh st ->
  let cs := counters (effects_of (run room me peer curve ecdh evs st)) in
  cs = map (fun c => Some (Z.of_N c)) (count_from (sendCounter st) (List.length cs)) /\
  ((sendCounter st + N.of_nat (List.length cs) <= 2 ^ 53)%N ->
   cs = map (fun i => Some (Z.of_N (sendCounter st) + Z.of_nat i + 1)%Z)
            (seq 0 (List.length cs)) /\
   NoDup cs) /\
  ((2 ^ 53 <= sendCounter st)%N ->
   forall c, In c cs -> c = Some (Z.of_N (sendCounter st))).
Proof.
  intros R cs.
  pose proof (turn_counters room me peer curve ecdh false evs st
                (Reachable_LoopInv room me peer curve ecdh st R)) as H.
  cbn zeta in H. fold (run room me peer curve ecdh evs st) in H. fold cs in H.
  split; [exact H|]. split.
  - intros B. rewrite <- (count_from_below _ _ B). split; [exact H|].
    rewrite H, (count_from_below _ _ B).
    apply NoDup_map_injective; [|apply seq_NoDup].
    intros i j E. injection E as E. lia.
  - intros B c I. rewrite H in I. apply in_map_iff in I as (k & <- & I).
    do 2 f_equal. revert I. generalize (List.length cs) as n.
    assert (E : incr (sendCounter st) = sendCounter st).
    { unfold incr. destruct (N.ltb_spec (sendCounter st) (2 ^ 53)); [lia|reflexivity]. }
    induction n as [|n IH]; cbn [count_from]; [intros []|].
    rewrite E. intros [<-|I]; [reflexivity | now apply IH].
Qed.

(** X19. The client sends its own handshake once, on [joined] or in
    answer to the first handshake it accepts; every further handshake it
    sends answers a [request_handshake]. *)
Theorem handshake_sent_once (evs : list Event) (st : Client) :
  (List.length
     (filter is_handshake
        (sent_envelopes (effects_of (run room me peer curve ecdh evs st))))
   <= (if handshakeSent st then 0 else 1)
      + List.length (filter (is_request me) evs))%nat.
Proof.
  unfold run. generalize false as rejected.
  revert st; induction evs as [|ev evs IH]; intros st rejected; [cbn; lia|].
  destruct (turn_step room me peer curve ecdh rejected ev evs st) as (rest & -> & Tl).
  rewrite sent_envelopes_app, filter_app, length_app, is_request_count.
  destruct (handler_sends room me peer curve ecdh ev st) as (M & _ & H).
  set (r := handler room me peer curve ecdh ev st) in *.
  assert (R : (List.length (filter is_handshake (sent_envelopes rest))
               <= (if handshakeSent (state_of r) then 0 else 1)
                  + List.length (filter (is_request me) evs))%nat).
  { destruct Tl as [->|(rej & ->)]; [cbn; lia | apply IH]. }
  destruct H as [(_ & H)|(_ & Q & H)].
  - destruct H as [H|[H|[H|(to & H & [Q|(F & T)])]]]; rewrite H;
      cbn [filter is_handshake joinEnvelope requestEnvelope handshakeEnvelope
           e_type strictEq String.eqb Ascii.eqb Bool.eqb List.length];
      try (destruct (handshakeSent st); [rewrite M in R by reflexivity|];
           destruct (handshakeSent (state_of r)), (is_request me ev); lia).
  - destruct H as [(H & _)|(sealed & mac & H)]; rewrite H;
      cbn [filter is_handshake msgEnvelope
           e_type strictEq String.eqb Ascii.eqb Bool.eqb List.length];
      (destruct (handshakeSent st); [rewrite M in R by reflexivity|];
       destruct (handshakeSent (state_of r)); lia).
Qed.

End Established.

(** ** The timer and the request for a handshake *)

Section Recovery.
Context {node : Node}.
Variables (room curve : string).

(** X20. A client that has not accepted a handshake when its timer
    fires asks its peer for one; the peer answers with its handshake in
    whatever state it is, also when it sent one before; and, when the
    context string of the two ids is at most 1024 bytes long, the answer
    gives the asking client the session, with the keys
    [deriveSessionKeys] returns for that context. *)
Theorem timer_recovers_session (a b peerA : string) (ecdhA ecdhB : ECDH)
    (stA stB : Client) :
  base64_roundtrip ->
  agree ecdhA ecdhB ->
  peerHandshakeReceived stB = false ->
  (List.length (utf8 (sessionContext room b curve (Some a))) <= 1024)%nat ->
  let request := requestEnvelope room b a in
  let answer := handshakeEnvelope room a curve ecdhA (Some b) in
  onTimeout room b a stB
  = (stB, [console_log LogRequestingHandshake; ws_send request], Normal tt) /\
  onMessage room a peerA curve ecdhA (Some request) stA
  = (stA,
     [console_log (LogPeerRequestsHandshake (Some b)); ws_send answer;
      console_log (LogHandshakeSent (Some b))],
     Normal tt) /\
  exists shared keys,
    computeSharedSecret ecdhB (publicKey ecdhA) = Ok shared /\
    computeSharedSecret ecdhA (publicKey ecdhB) = Ok shared /\
    deriveSessionKeys shared (sessionContext room b curve (Some a)) = Ok keys /\
    session (state_of (onMessage room b a curve ecdhB (Some answer) stB))
    = Some keys.
Proof.
  intros B64 (shared & KA & KB) P L request answer. split; [|split].
  - unfold onTimeout. step_m. now rewrite P.
  - now rewrite (onMessage_request_handshake room a peerA curve ecdhA request stA)
      by auto using addressedTo_self.
  - pose proof (deriveSessionKeys_ok shared _ L) as Dk.
    eexists shared, _.
    split; [unfold computeSharedSecret, publicKey; now rewrite KB|].
    split; [unfold computeSharedSecret, publicKey; now rewrite KA|].
    split; [exact Dk|].
    assert (O : otherPub answer = getPublicKey ecdhA)
      by (unfold otherPub; cbn; apply B64).
    apply (onMessage_handshake_session room b a curve ecdhB answer stB shared);
      auto using addressedTo_self;
      [cbn; apply String.eqb_refl | now rewrite O].
Qed.

End Recovery.

(** ** From a client through the relay to a client *)

Section Through.
Context {node : Node}.
Variables (room me peer curve : string) (ecdh : ECDH).

Lemma truthy_str (x : option string) : truthy x = true -> x = Some (Relay.str x).
Proof. destruct x; [reflexivity | discriminate]. Qed.

(** X21. What a client with a room and an id sends to an id that is
    registered in its room arrives as it is at the socket registered
    under that id, from whichever socket the relay gets it, and passes
    the address filter of the client of that id. Its [join] is taken for
    a join of its room under its id. *)
Theorem client_envelope_relayed (evs : list Event) (st : Client) (env : Envelope)
    (ready : Relay.Sock -> bool) (ws : Relay.Sock) (rooms : Relay.Rooms) :
  room <> "" -> me <> "" ->
  In (ws_send env) (effects_of (run room me peer curve ecdh evs st)) ->
  (e_type env = Some "join" ->
   Relay.isJoin env = true /\ Relay.str (e_room env) = room /\
   Relay.str (e_from env) = me) /\
  (e_type env <> Some "join" ->
   forall target,
     Relay.holder rooms room (Relay.str (e_to env)) = Some target ->
     truthy (e_to env) = true ->
     Relay.onMessage ready ws (Some env) rooms
     = (rooms, Relay.logged env :: Relay.safeSend ready target (Relay.EnvelopeFrame env)) /\
     addressedTo (Relay.str (e_to env)) env = true).
Proof.
  intros Nr Nm I. apply In_sent_envelopes in I.
  apply (run_envelopes room me peer curve ecdh) in I as (ev & st' & I).
  destruct (handler_envelopes room me peer curve ecdh ev st' env I)
    as (R & F & T & _).
  assert (Tr : truthy (e_room env) = true /\ truthy (e_from env) = true).
  { rewrite R, F. cbn. split; apply negb_true_iff, String.eqb_neq; assumption. }
  destruct Tr as [Tr Tf].
  assert (Tt : truthy (e_type env) = true).
  { unfold clientType in T. destruct (e_type env) as [t|]; [|discriminate T].
    cbn in *. destruct (String.eqb_spec t ""); [subst; discriminate T | reflexivity]. }
  split.
  - intros J. unfold Relay.isJoin. rewrite Tt, Tr, Tf, J, R, F. now cbn.
  - intros J target H To.
    assert (Rt : Relay.routable env = true).
    { unfold Relay.routable. rewrite Tt, Tr, Tf, To. cbn [andb].
      destruct (e_type env) as [t|] eqn:E; [|reflexivity]. cbn.
      destruct (String.eqb_spec t "join"); [subst; now destruct J | reflexivity]. }
    rewrite (RelayFacts.route_eq ready ws env rooms Rt). rewrite R. cbn [Relay.str].
    unfold Relay.holder in H.
    destruct (Relay.get rooms room) as [m|]; [|discriminate H].
    rewrite H. split; [reflexivity|].
    apply addressedTo_self. now apply truthy_str.
Qed.

End Through.

(** ** The restyled client *)

Section Restyled.
Context {node : Node}.
Variables (room me peer curve : string) (ecdh : ECDH).

Lemma styled_handle_frame (msg : Envelope) (st : Client) :
  let r := Styled.handleEncryptedMessage room me msg st in
  sameButRecv st (state_of r) /\
  filter is_send (effects_of r) = [] /\
  (completion_of r = Throw TypeError \/ alive (completion_of r) = true).
Proof.
  cbn zeta. unfold Styled.handleEncryptedMessage. step_m.
  destruct (session st) as [keys|]; [|cbn; auto using sameButRecv_refl].
  destruct (p_iv (orEmpty (e_payload msg))); cbn [unb64];
    [|cbn; auto using sameButRecv_refl].
  destruct (p_ct (orEmpty (e_payload msg))); cbn [unb64];
    [|cbn; auto using sameButRecv_refl].
  destruct (p_tag (orEmpty (e_payload msg))); cbn [unb64];
    [|cbn; auto using sameButRecv_refl].
  destruct (p_hmac (orEmpty (e_payload msg))); cbn [unb64];
    [|cbn; auto using sameButRecv_refl].
  rewrite timingSafeEq_decides.
  destruct (bytes_eqb _ _); cbn [negb]; [|cbn; auto using sameButRecv_refl].
  unfold decryptAesGcm.
  destruct (aes256gcm_decrypt _ _ _ _ _); cbn;
    (split; [now destruct st | auto]).
Qed.

Lemma styled_forEach_frame (q : list Envelope) (st : Client) :
  let r := forEach q (Styled.handleEncryptedMessage room me) st in
  sameButRecv st (state_of r) /\
  filter is_send (effects_of r) = [] /\
  (completion_of r = Throw TypeError \/ completion_of r = Normal tt).
Proof.
  revert st; induction q as [|msg q IH]; intros st; cbn zeta.
  - cbn. auto using sameButRecv_refl.
  - cbn [forEach]. unfold bind, call.
    destruct (styled_handle_frame msg st) as (F1 & F3 & F4).
    destruct (Styled.handleEncryptedMessage room me msg st) as [[st1 out1] c1].
    cbn [state_of effects_of completion_of fst snd] in *.
    specialize (IH st1). cbn zeta in IH. destruct IH as (I1 & I3 & I4).
    destruct c1 as [[]| |e|]; cbn [alive] in F4.
    + destruct (forEach q (Styled.handleEncryptedMessage room me) st1)
        as [[st2 out2] c2].
      cbn [state_of effects_of completion_of fst snd] in *.
      rewrite !filter_app, F3, I3. eauto using sameButRecv_trans.
    + destruct (forEach q (Styled.handleEncryptedMessage room me) st1)
        as [[st2 out2] c2].
      cbn [state_of effects_of completion_of fst snd] in *.
      rewrite !filter_app, F3, I3. eauto using sameButRecv_trans.
    + destruct F4 as [F4|F4]; [|discriminate F4].
      cbn [state_of effects_of completion_of fst snd]. auto.
    + destruct F4 as [F4|F4]; discriminate F4.
Qed.

Lemma styled_drain_frame (st : Client) :
  let r := Styled.processPendingMessages room me st in
  filter is_send (effects_of r) = [] /\
  sameButRecv (set_pendingMessages (pendingMessages (state_of r)) st) (state_of r).
Proof.
  cbn zeta. unfold Styled.processPendingMessages. step_m.
  destruct (pendingMessages st) as [|m q] eqn:Q.
  - cbn. split; [reflexivity|]. unfold sameButRecv. destruct st; cbn in *. now subst.
  - change (0 <? List.length (m :: q))%nat with true. cbv iota.
    destruct (styled_forEach_frame (m :: q) st) as (F1 & F3 & F4).
    destruct (forEach (m :: q) (Styled.handleEncryptedMessage room me) st)
      as [[st1 out1] c1].
    cbn [state_of effects_of completion_of fst snd] in *.
    destruct F4 as [-> | ->]; cbn [state_of effects_of completion_of fst snd app];
      cbn [filter is_send]; rewrite ?filter_app, F3; cbn [filter is_send app].
    + split; [reflexivity|]. unfold sameButRecv in *. rewrite F1. now destruct st.
    + split; [reflexivity|]. unfold sameButRecv in *. rewrite F1. now destruct st.
Qed.

Lemma styled_handshake_accepted (msg : Envelope) (st : Client) (shared : bytes)
    (keys : SessionKeys) :
  addressedTo me msg = true ->
  e_type msg = Some "handshake" ->
  peerHandshakeReceived st = false ->
  strictEq (otherCurve msg) curve = true ->
  computeSecret ecdh (otherPub msg) = Some shared ->
  deriveSessionKeys shared (sessionContext room me curve (e_from msg)) = Ok keys ->
  Styled.onMessage room me peer curve ecdh (Some msg) st =
  bind (fun _ => (set_peerHandshakeReceived true (set_session (Some keys) st),
                  [console_log (LogHandshakeReceived (e_from msg));
                   console_log LogFingerprintLabel;
                   console_log (LogPeerFingerprint (fingerprint (otherPub msg)));
                   console_log LogVerifyFingerprint;
                   console_log LogSessionEstablished],
                  Normal tt))
       (fun _ => bind (call (Styled.processPendingMessages room me))
                      (fun _ => call promptLoop))
       st.
Proof.
  intros A T P C K D. apply addressedTo_filter in A.
  unfold Styled.onMessage. rewrite A, T.
  cbn [strictEq String.eqb Ascii.eqb Bool.eqb].
  unfold otherCurve in C.
  cbv beta iota zeta delta [bind get when ret]. rewrite P, unb64_pub.
  step_m. rewrite C. cbn [negb]. unfold computeSharedSecret. rewrite K, D.
  destruct st as [j hs s sc rc ph pm pr pa]. record_m.
  destruct (Styled.processPendingMessages _ _ _) as [[st2 out2] [[]| | |]];
    try (cbn; rewrite ?app_nil_r; reflexivity);
    destruct (promptLoop st2) as [[st3 out3] [[]| | |]];
    cbn; rewrite ?app_nil_r; reflexivity.
Qed.

(** Whatever the drain does, the restyled client has the keys afterwards,
    and has sent nothing. *)
Lemma styled_handshake_session (msg : Envelope) (st : Client) (shared : bytes)
    (keys : SessionKeys) :
  addressedTo me msg = true ->
  e_type msg = Some "handshake" ->
  peerHandshakeReceived st = false ->
  strictEq (otherCurve msg) curve = true ->
  computeSecret ecdh (otherPub msg) = Some shared ->
  deriveSessionKeys shared (sessionContext room me curve (e_from msg)) = Ok keys ->
  let r := Styled.onMessage room me peer curve ecdh (Some msg) st in
  session (state_of r) = Some keys /\
  peerHandshakeReceived (state_of r) = true /\
  handshakeSent (state_of r) = handshakeSent st /\
  sent_envelopes (effects_of r) = [].
Proof.
  intros A T P C K D. cbn zeta.
  rewrite (styled_handshake_accepted msg st shared keys A T P C K D). cbn zeta.
  set (st0 := set_peerHandshakeReceived true (set_session (Some keys) st)).
  unfold bind, call.
  destruct (styled_drain_frame st0) as (S & F).
  apply no_send_no_envelope in S.
  destruct (Styled.processPendingMessages room me st0) as [[st2 out2] c2].
  cbn [state_of effects_of completion_of fst snd] in *.
  assert (H : session st2 = Some keys /\ peerHandshakeReceived st2 = true /\
              handshakeSent st2 = handshakeSent st)
    by (rewrite F; subst st0; now destruct st).
  destruct H as (H1 & H2 & H3).
  destruct c2 as [[]| |e|];
    try rewrite promptLoop_eq; try destruct (promptLoop_running st2);
    cbn [state_of effects_of fst snd];
    rewrite ?app_nil_r, ?sent_envelopes_app, ?S;
    (repeat split; try assumption; try reflexivity; now destruct st2).
Qed.

(** What the message handler of the restyled client may send. *)
Lemma styled_onMessage_frame (raw : option Envelope) (st : Client) :
  let r := Styled.onMessage room me peer curve ecdh raw st in
  (handshakeSent st = true -> handshakeSent (state_of r) = true) /\
  (sent_envelopes (effects_of r) = [] \/
   (sent_envelopes (effects_of r) = [handshakeEnvelope room me curve ecdh (Some peer)] /\
    handshakeSent st = false /\ handshakeSent (state_of r) = true)).
Proof.
  cbn zeta. destruct raw as [msg|]; [|cbn; auto].
  destruct (addressedTo me msg) eqn:A.
  2:{ unfold Styled.onMessage. unfold addressedTo in A.
      apply negb_false_iff in A. rewrite A. cbn; auto. }
  assert (A' := addressedTo_filter me msg A).
  destruct (type_cases (e_type msg)) as [T|[T|[T|[T|(T1 & T2 & T3 & T4)]]]].
  - unfold Styled.onMessage. rewrite A', T.
    cbn [strictEq String.eqb Ascii.eqb Bool.eqb]. step_m.
    destruct st as [j hs s sc rc ph pm pr pa]. cbn [handshakeSent set_joined].
    destruct hs; cbn; auto.
  - unfold Styled.onMessage. rewrite A', T. cbn; auto.
  - destruct (peerHandshakeReceived st) eqn:P.
    { unfold Styled.onMessage. rewrite A', T.
      cbn [strictEq String.eqb Ascii.eqb Bool.eqb]. step_m. rewrite P. cbn; auto. }
    destruct (strictEq (otherCurve msg) curve) eqn:C.
    2:{ destruct (styled_curve_mismatch_discarded room me peer curve ecdh msg st []
                    A T P C) as [E _].
        rewrite E. cbn; auto. }
    destruct (computeSecret ecdh (otherPub msg)) as [shared|] eqn:K.
    + destruct (deriveSessionKeys shared (sessionContext room me curve (e_from msg)))
        as [keys|e0] eqn:Dk.
      * destruct (styled_handshake_session msg st shared keys A T P C K Dk)
          as (_ & _ & H & S).
        rewrite S, H. auto.
      * unfold Styled.onMessage. rewrite A', T.
        cbn [strictEq String.eqb Ascii.eqb Bool.eqb].
        unfold otherCurve in C.
        cbv beta iota zeta delta [bind get when ret]. rewrite P, unb64_pub.
        step_m. rewrite C. cbn [negb]. unfold computeSharedSecret. rewrite K, Dk.
        cbn; auto.
    + unfold Styled.onMessage. rewrite A', T.
      cbn [strictEq String.eqb Ascii.eqb Bool.eqb].
      unfold otherCurve in C.
      cbv beta iota zeta delta [bind get when ret]. rewrite P, unb64_pub.
      step_m. rewrite C. cbn [negb]. unfold computeSharedSecret. rewrite K.
      cbn; auto.
  - unfold Styled.onMessage. rewrite A', T.
    cbn [strictEq String.eqb Ascii.eqb Bool.eqb]. step_m.
    destruct (session st) as [keys|] eqn:S.
    + destruct (styled_handle_frame msg st) as (F1 & F3 & _).
      apply no_send_no_envelope in F3.
      destruct (Styled.handleEncryptedMessage room me msg st) as [[st1 out1] c1].
      cbn [state_of effects_of completion_of fst snd] in *.
      assert (H : handshakeSent st1 = handshakeSent st)
        by (rewrite F1; now destruct st).
      destruct c1 as [[]| | |]; cbn [state_of effects_of fst snd];
        rewrite ?app_nil_r, H; auto.
    + cbn. split; [now destruct st | auto].
  - unfold Styled.onMessage. rewrite A', T1, T3, T4. cbn; auto.
Qed.

Lemma styled_turn_step (rejected : bool) (ev : Event) (evs : list Event)
    (st : Client) :
  let h := Styled.handler room me peer curve ecdh ev st in
  exists rest,
    effects_of (Styled.turn room me peer curve ecdh rejected (ev :: evs) st)
    = effects_of h ++ rest /\
    (rest = [] \/
     exists rejected',
       rest = effects_of (Styled.turn room me peer curve ecdh rejected' evs
                            (state_of h))).
Proof.
  cbn zeta.
  destruct ev as [ |raw| | | |line iv| ]; cbn [Styled.turn];
    try (destruct (Styled.handler room me peer curve ecdh _ st)
           as [[st1 out1] [[]| |e|]];
         cbn [state_of effects_of fst snd];
         [exists (effects_of (Styled.turn room me peer curve ecdh rejected evs st1))
         |exists (effects_of (Styled.turn room me peer curve ecdh rejected evs st1))
         |exists (effects_of (Styled.turn room me peer curve ecdh true evs st1))
         |exists []; rewrite app_nil_r; now auto];
         (split;
          [now destruct (Styled.turn room me peer curve ecdh _ evs st1)
             as [[st2 out2] a]
          |right; eexists; reflexivity])).
  cbn [Styled.handler ret effects_of state_of fst snd app].
  destruct rejected; [exists []; now auto|].
  eexists. split; [reflexivity|]. right. now exists false.
Qed.

(** What one handler of the restyled client may send. *)
Lemma styled_handler_frame (ev : Event) (st : Client) :
  let r := Styled.handler room me peer curve ecdh ev st in
  (handshakeSent st = true -> handshakeSent (state_of r) = true) /\
  (filter is_handshake (sent_envelopes (effects_of r)) = [] \/
   (filter is_handshake (sent_envelopes (effects_of r))
    = [handshakeEnvelope room me curve ecdh (Some peer)] /\
    handshakeSent st = false /\ handshakeSent (state_of r) = true)).
Proof.
  cbn zeta. destruct ev as [ |raw| | | |line iv| ]; cbn [Styled.handler].
  7:{ cbn. auto. }
  - cbn. auto.
  - destruct (styled_onMessage_frame raw st) as (M & [H|(H & F & T)]);
      rewrite H; (split; [exact M|]); [now left | right; now repeat split].
  - cbn. auto.
  - cbn. auto.
  - cbn. auto.
  - destruct (handler_sends room me peer curve ecdh (Line line iv) st)
      as (M & _ & H).
    cbn [handler] in M, H. split; [exact M|]. left.
    destruct H as [(_ & H)|(_ & _ & H)].
    + cbn [is_request] in H.
      destruct H as [H|[H|[H|(to & H & [Q|(F & T)])]]];
        try (rewrite H; reflexivity); try discriminate Q.
      rewrite onLine_eq in T.
      destruct (promptLoop_awaiting st); cbn [negb] in T;
        [|cbn in T; congruence].
      destruct (line =? "")%string; [cbn in T; congruence|].
      destruct (line =? "/quit")%string;
        [destruct st; cbn in *; congruence|].
      destruct (session st); [|cbn in T; congruence].
      cbn zeta in T. destruct (encryptAesGcm _ _ _ _);
        destruct st; cbn in *; congruence.
    + destruct H as [(H & _)|(sealed & mac & H)]; rewrite H; reflexivity.
Qed.

End Restyled.

Section RestyledClient.
Context {node : Node}.
Variables (room curve : string).

(** X22. The restyled client and the client of [index.js] understand
    each other: for distinct identities whose context string is at most
    1024 bytes long, when each handles the handshake of the other, both
    store the same session keys, those [deriveSessionKeys] returns for
    the shared secret and the context string. *)
Theorem restyled_client_agrees (a b peerA peerB : string) (ecdhA ecdhB : ECDH)
    (stA stB : Client) :
  base64_roundtrip ->
  agree ecdhA ecdhB ->
  peerHandshakeReceived stA = false ->
  peerHandshakeReceived stB = false ->
  utf16 a <> utf16 b ->
  (List.length (utf8 (sessionContext room a curve (Some b))) <= 1024)%nat ->
  let fromA := handshakeEnvelope room a curve ecdhA (Some b) in
  let fromB := handshakeEnvelope room b curve ecdhB (Some a) in
  let rA := onMessage room a peerA curve ecdhA (Some fromB) stA in
  let rB := Styled.onMessage room b peerB curve ecdhB (Some fromA) stB in
  effects_of (Styled.sendHandshake room b curve ecdhB (Some a) stB)
  = effects_of (sendHandshake room b curve ecdhB (Some a) stB) /\
  exists shared keys,
    computeSharedSecret ecdhA (publicKey ecdhB) = Ok shared /\
    deriveSessionKeys shared (sessionContext room a curve (Some b)) = Ok keys /\
    session (state_of rA) = Some keys /\
    session (state_of rB) = Some keys.
Proof.
  intros B64 (shared & KA & KB) PA PB D L fromA fromB rA rB.
  split; [reflexivity|].
  pose proof (deriveSessionKeys_ok shared _ L) as Dk.
  eexists shared, _.
  assert (OA : otherPub fromA = getPublicKey ecdhA)
    by (unfold otherPub; cbn; apply B64).
  assert (OB : otherPub fromB = getPublicKey ecdhB)
    by (unfold otherPub; cbn; apply B64).
  assert (C : forall who ecdh to,
             strictEq (otherCurve (handshakeEnvelope room who curve ecdh to)) curve
             = true) by (intros; cbn; apply String.eqb_refl).
  split; [unfold computeSharedSecret, publicKey; now rewrite KA|].
  split; [exact Dk|]. split.
  - apply (onMessage_handshake_session room a peerA curve ecdhA fromB stA shared);
      auto using addressedTo_self; [apply C | now rewrite OB].
  - apply (styled_handshake_session room b peerB curve ecdhB fromA stB shared);
      auto using addressedTo_self; [apply C | now rewrite OA |].
    cbn [fromA handshakeEnvelope e_from].
    rewrite <- (sessionContext_symmetric room curve a b D). exact Dk.
Qed.

(** X23. The restyled client sends its handshake once in a run, on
    [joined], and never again: it neither answers a handshake it accepts
    nor a [request_handshake]. A client that has sent it sends none. *)
Theorem restyled_handshake_at_most_once (me peer : string) (ecdh : ECDH)
    (evs : list Event) (st : Client) :
  (List.length
     (filter is_handshake
        (sent_envelopes (effects_of (Styled.run room me peer curve ecdh evs st))))
   <= (if handshakeSent st then 0 else 1))%nat.
Proof.
  unfold Styled.run. generalize false as rejected.
  revert st; induction evs as [|ev evs IH]; intros st rejected;
    [cbn; destruct (handshakeSent st); lia|].
  destruct (styled_turn_step room me peer curve ecdh rejected ev evs st)
    as (rest & -> & Tl).
  rewrite sent_envelopes_app, filter_app, length_app.
  destruct (styled_handler_frame room me peer curve ecdh ev st) as (M & H).
  set (r := Styled.handler room me peer curve ecdh ev st) in *.
  assert (R : (List.length (filter is_handshake (sent_envelopes rest))
               <= (if handshakeSent (state_of r) then 0 else 1))%nat).
  { destruct Tl as [->|(rej & ->)]; [|apply IH].
    cbn. destruct (handshakeSent (state_of r)); lia. }
  destruct H as [H|(H & F & T)]; rewrite H; cbn [List.length].
  - destruct (handshakeSent st); [rewrite M in R by reflexivity|];
      destruct (handshakeSent (state_of r)); lia.
  - rewrite F. rewrite T in R. lia.
Qed.

(** X24. The restyled client opens a message as the client of
    [index.js] does: it ends the same way in the same state, and calls
    [decryptAesGcm] on the same buffers, after the same comparison of
    the MAC. Only the lines printed differ. *)
Theorem restyled_opens_alike (me : string) (msg : Envelope) (st : Client) :
  let r := handleEncryptedMessage room me msg st in
  let r' := Styled.handleEncryptedMessage room me msg st in
  state_of r' = state_of r /\
  completion_of r' = completion_of r /\
  filter is_decrypt_call (effects_of r') = filter is_decrypt_call (effects_of r) /\
  filter is_send (effects_of r') = filter is_send (effects_of r).
Proof.
  cbn zeta. unfold handleEncryptedMessage, Styled.handleEncryptedMessage. step_m.
  destruct (session st) as [keys|]; [|now cbn].
  destruct (p_iv (orEmpty (e_payload msg))); cbn [unb64]; [|now cbn].
  destruct (p_ct (orEmpty (e_payload msg))); cbn [unb64]; [|now cbn].
  destruct (p_tag (orEmpty (e_payload msg))); cbn [unb64]; [|now cbn].
  destruct (p_hmac (orEmpty (e_payload msg))); cbn [unb64]; [|now cbn].
  rewrite timingSafeEq_decides.
  destruct (bytes_eqb _ _); cbn [negb]; [|now cbn].
  unfold decryptAesGcm.
  now destruct (aes256gcm_decrypt _ _ _ _ _).
Qed.

End RestyledClient.

(** ** A handshake for a peer that is not there *)

Section Lost.
Context {node : Node}.
Variables (room me peer curve : string) (ecdh : ECDH).

(** X25. A handshake sent while the peer has not joined the room is
    lost without a trace: the relay does not keep it, it answers the
    sender that the peer is not in the room, and the client does nothing
    with that answer: no line is printed and its state stays as it is. *)
Theorem handshake_to_absent_peer_lost (ready : Relay.Sock -> bool) (ws : Relay.Sock)
    (rooms : Relay.Rooms) (st : Client) :
  room <> "" -> me <> "" -> peer <> "" ->
  Relay.holder rooms room me = Some ws ->
  Relay.holder rooms room peer = None ->
  let hs := handshakeEnvelope room me curve ecdh (Some peer) in
  let r := Relay.onMessage ready ws (Some hs) rooms in
  fst r = rooms /\
  Relay.sends (snd r) = (if ready ws then [(ws, Relay.notInRoom (Some peer))] else []) /\
  onMessage room me peer curve ecdh
    (Some (Relay.reading (Relay.notInRoom (Some peer)))) st
  = (st, [], Normal tt).
Proof.
  intros Nr Nm Np Hm Hp hs r. subst r.
  assert (R : Relay.routable hs = true).
  { unfold Relay.routable. cbn.
    destruct (String.eqb_spec room ""); [contradiction|].
    destruct (String.eqb_spec me ""); [contradiction|].
    destruct (String.eqb_spec peer ""); [contradiction|]. reflexivity. }
  rewrite (RelayFacts.route_eq ready ws hs rooms R). cbn [fst snd].
  split; [reflexivity|]. split; [|reflexivity].
  cbn [hs handshakeEnvelope e_room e_to Relay.str].
  unfold Relay.holder in Hm, Hp.
  destruct (Relay.get rooms room) as [m|]; [|discriminate Hm].
  rewrite Hp. unfold Relay.safeSend. now destruct (ready ws).
Qed.

End Lost.

(** * The further properties at work on alice, bob and the relay *)

Module MoreChecks.
Import Scenario ScenarioChecks MoreScenario RelayScenario.

Lemma alice_is_reachable :
  Reachable (node := modelNode) room alice bob curve ecdhA aliceEstablished.
Proof.
  exists aliceJoins, (effects_of (runAlice aliceJoins initial)), true.
  exact alice_reachable.
Qed.

Lemma bothJoined_reachable : Relay.Reachable bothJoined.
Proof. exists bothJoin. reflexivity. Qed.

Lemma undecryptable_for_alice : isMsgFor alice undecryptable = true.
Proof. vm_compute. reflexivity. Qed.

Lemma undecryptable_fields : hasMsgFields undecryptable = true.
Proof. vm_compute. reflexivity. Qed.

Lemma undecryptable_mac :
  timingSafeEq
    (macExpected (node := modelNode) room alice keys undecryptable)
    (hmacB (node := modelNode) undecryptable) = Ok true.
Proof. vm_compute. reflexivity. Qed.

Lemma undecryptable_tag :
  aes256gcm_decrypt (Node := modelNode) (kEnc keys)
    (ivB (node := modelNode) undecryptable)
    (aad (node := modelNode) room alice undecryptable)
    (ctB (node := modelNode) undecryptable)
    (tagB (node := modelNode) undecryptable) = None.
Proof. vm_compute. reflexivity. Qed.


Lemma hello_twice_for_alice : forallb (isMsgFor alice) [hello; hello] = true.
Proof. vm_compute. reflexivity. Qed.

Lemma hello_twice_fields : forallb hasMsgFields [hello; hello] = true.
Proof. vm_compute. reflexivity. Qed.

Lemma alice_sends_handshake :
  In (ws_send fromAlice)
     (effects_of (run (node := modelNode) room alice bob curve ecdhA
                    [WsOpen; WsMessage (Some (joinedAck alice))] initial)).
Proof. vm_compute. right. left. reflexivity. Qed.

(** Alice reads "hello" each time it arrives. *)
Example hello_read_twice :
  filter (fun e => negb (is_decrypt_call e))
    (effects_of (runAlice (arrivals [hello; hello]) aliceEstablished))
  = [console_log (LogMessage (Some bob) "hello");
     console_log (LogMessage (Some bob) "hello")].
Proof. vm_compute. reflexivity. Qed.

(** The counters of the two lines alice types are 1 and 2. *)
Example alice_counters :
  counters (effects_of (runAlice aliceTypes initial)) = [Some 1%Z; Some 2%Z].
Proof. vm_compute. reflexivity. Qed.

(** Two restyled clients that join one after the other: alice's
    handshake is lost, she accepts bob's, and bob is left without a
    session whatever she sends him afterwards. *)
Example restyled_second_joiner_waits :
  let alice1 := Styled.run (node := modelNode) room alice bob curve ecdhA
                  [WsOpen; WsMessage (Some (joinedAck alice));
                   WsMessage (Some (Relay.reading (Relay.notInRoom (Some bob))));
                   WsMessage (Some fromBob)] initial in
  session (state_of alice1) = Some keys /\
  filter is_handshake (sent_envelopes (effects_of alice1)) = [fromAlice] /\
  Relay.sends (snd (Relay.run [Relay.Message allOpen wsAlice (Some (join alice));
                               Relay.Message allOpen wsAlice (Some fromAlice)] []))
  = [(wsAlice, Relay.ack (join alice)); (wsAlice, Relay.notInRoom (Some bob))].
Proof. vm_compute. repeat split. Qed.

End MoreChecks.

Module ExtraWitnesses.
Import Scenario ScenarioChecks MoreScenario RelayScenario MoreChecks.

Lemma relay_rooms_have_members_witness :
  Relay.Reachable bothJoined /\
  Relay.get bothJoined room = Some [(alice, wsAlice); (bob, wsBob)] /\
  exists peerId ws, Relay.holder bothJoined room peerId = Some ws.
Proof.
  split; [exact bothJoined_reachable|]. split; [reflexivity|].
  exact (RelayFacts.relay_rooms_have_members bothJoined room
           [(alice, wsAlice); (bob, wsBob)] bothJoined_reachable eq_refl).
Defined.

Lemma join_registers_witness :
  Relay.isJoin (join bob) = true /\
  Relay.holder (fst (Relay.onMessage allOpen wsMallory (Some (join bob)) bothJoined))
    room bob = Some wsMallory /\
  Relay.sends (snd (Relay.onMessage allOpen wsMallory (Some (join bob)) bothJoined))
  = [(wsMallory, Relay.ack (join bob))].
Proof.
  split; [reflexivity|].
  destruct (RelayFacts.join_registers allOpen wsMallory (join bob) bothJoined eq_refl)
    as (H1 & _ & H3).
  exact (conj H1 H3).
Defined.

Lemma relay_routes_to_holder_witness :
  Relay.routable requestFromBob = true /\
  Relay.sends (snd (Relay.onMessage allOpen wsBob (Some requestFromBob) bothJoined))
  = [(wsAlice, Relay.EnvelopeFrame requestFromBob)].
Proof.
  split; [reflexivity|].
  destruct (RelayFacts.relay_routes_to_holder allOpen wsBob requestFromBob bothJoined
              eq_refl) as (_ & H).
  exact H.
Defined.

Lemma relay_does_not_check_sender_witness :
  Relay.routable requestFromBob = true /\
  Relay.holder bothJoined room alice = Some wsAlice /\
  Relay.onMessage allOpen wsBob (Some requestFromBob) bothJoined
  = Relay.onMessage allOpen wsMallory (Some requestFromBob) bothJoined.
Proof.
  split; [reflexivity|]. split; [reflexivity|].
  exact (RelayFacts.relay_does_not_check_sender allOpen wsBob wsMallory wsAlice
           requestFromBob bothJoined eq_refl eq_refl).
Defined.

Lemma close_unregisters_witness :
  Relay.Reachable bothJoined /\
  Relay.holder (Relay.onClose wsBob bothJoined) room bob = None /\
  Relay.holder (Relay.onClose wsBob bothJoined) room alice = Some wsAlice.
Proof.
  split; [exact bothJoined_reachable|]. split.
  - exact (RelayFacts.close_unregisters wsBob bothJoined room bob bothJoined_reachable).
  - exact (RelayFacts.close_unregisters wsBob bothJoined room alice bothJoined_reachable).
Defined.

Lemma closed_socket_receives_nothing_witness :
  Relay.Reachable bothJoined /\
  Relay.sentTo wsBob
    (snd (Relay.run [Relay.Message allOpen wsAlice
                       (Some (requestEnvelope room alice bob))]
            (Relay.onClose wsBob bothJoined))) = [].
Proof.
  split; [exact bothJoined_reachable|].
  exact (RelayFacts.closed_socket_receives_nothing wsBob bothJoined
           [Relay.Message allOpen wsAlice (Some (requestEnvelope room alice bob))]
           bothJoined_reachable eq_refl).
Defined.

Lemma delivered_only_to_members_witness :
  In (Relay.send wsAlice (Relay.EnvelopeFrame requestFromBob))
     (snd (Relay.run (bothJoin ++ [Relay.Message allOpen wsBob (Some requestFromBob)]) [])) /\
  existsb (Relay.joinsAs wsAlice room alice)
    (bothJoin ++ [Relay.Message allOpen wsBob (Some requestFromBob)]) = true.
Proof.
  assert (I : In (Relay.send wsAlice (Relay.EnvelopeFrame requestFromBob))
                (snd (Relay.run
                        (bothJoin ++ [Relay.Message allOpen wsBob (Some requestFromBob)]) [])))
    by (do 3 right; left; reflexivity).
  split; [exact I|].
  destruct (RelayFacts.delivered_only_to_members
              (bothJoin ++ [Relay.Message allOpen wsBob (Some requestFromBob)])
              wsAlice requestFromBob I) as [H|(H & _)].
  - exact H.
  - discriminate H.
Defined.

Lemma join_then_delivered_witness :
  Relay.isJoin (join bob) = true /\
  Relay.routable (requestEnvelope room alice bob) = true /\
  Relay.sends
    (snd (Relay.run [takeover;
                     Relay.Message allOpen wsAlice (Some (requestEnvelope room alice bob))]
            bothJoined))
  = [(wsMallory, Relay.ack (join bob));
     (wsMallory, Relay.EnvelopeFrame (requestEnvelope room alice bob))].
Proof.
  split; [reflexivity|]. split; [reflexivity|].
  exact (RelayFacts.join_then_delivered allOpen allOpen wsMallory wsAlice
           (join bob) (requestEnvelope room alice bob) bothJoined
           eq_refl eq_refl eq_refl eq_refl eq_refl).
Defined.

Lemma session_keys_never_change_witness :
  Reachable (node := modelNode) room alice bob curve ecdhA aliceEstablished /\
  session aliceEstablished = Some keys /\
  session (state_of (run (node := modelNode) room alice bob curve ecdhA
                       [WsMessage (Some fromBob); WsMessage (Some hello)]
                       aliceEstablished)) = Some keys.
Proof.
  split; [exact alice_is_reachable|]. split; [exact alice_session|].
  exact (session_keys_never_change (node := modelNode) room alice bob curve ecdhA
           [WsMessage (Some fromBob); WsMessage (Some hello)] aliceEstablished keys
           alice_is_reachable alice_session).
Defined.

Lemma arrivals_opened_independently_witness :
  session aliceEstablished = Some keys /\
  forallb (isMsgFor alice) [hello; hello] = true /\
  forallb hasMsgFields [hello; hello] = true /\
  effects_of (run (node := modelNode) room alice bob curve ecdhA
                (arrivals [hello; hello]) aliceEstablished)
  = List.concat (map (openEffects (node := modelNode) room alice keys) [hello; hello]).
Proof.
  split; [exact alice_session|]. split; [exact hello_twice_for_alice|].
  split; [exact hello_twice_fields|].
  destruct (arrivals_opened_independently (node := modelNode) room alice bob curve ecdhA
              [hello; hello] aliceEstablished keys
              alice_session hello_twice_for_alice hello_twice_fields) as (H & _).
  exact H.
Defined.

Lemma decrypt_failure_caught_witness :
  session aliceEstablished = Some keys /\
  isMsgFor alice undecryptable = true /\
  hasMsgFields undecryptable = true /\
  snd (run (node := modelNode) room alice bob curve ecdhA
         [WsMessage (Some undecryptable)] aliceEstablished) = true /\
  state_of (run (node := modelNode) room alice bob curve ecdhA
              [WsMessage (Some undecryptable)] aliceEstablished) = aliceEstablished.
Proof.
  split; [exact alice_session|]. split; [exact undecryptable_for_alice|].
  split; [exact undecryptable_fields|].
  rewrite (decrypt_failure_caught (node := modelNode) room alice bob curve ecdhA
             undecryptable aliceEstablished keys
             alice_session undecryptable_for_alice undecryptable_fields
             undecryptable_mac undecryptable_tag).
  split; reflexivity.
Defined.



Lemma peer_never_checked_witness :
  strictEq (e_type fromBob) "joined" = false /\
  onMessage (node := modelNode) room alice bob curve ecdhA (Some fromBob) initial
  = onMessage (node := modelNode) room alice "carol" curve ecdhA (Some fromBob) initial.
Proof.
  split; [reflexivity|].
  exact (peer_never_checked (node := modelNode) room alice bob curve ecdhA "carol"
           (Some fromBob) initial eq_refl).
Defined.

Lemma session_not_ready_unreachable_witness :
  Reachable (node := modelNode) room alice bob curve ecdhA aliceEstablished /\
  ~ In (console_log LogSessionNotReady)
       (effects_of (handler (node := modelNode) room alice bob curve ecdhA
                      (Line "hello" iv1) aliceEstablished)).
Proof.
  split; [exact alice_is_reachable|].
  destruct (session_not_ready_unreachable (node := modelNode) room alice bob curve ecdhA
              aliceEstablished "hello" iv1 alice_is_reachable) as (_ & H).
  exact H.
Defined.

Lemma client_sends_own_identity_witness :
  In (ws_send fromAlice)
     (effects_of (run (node := modelNode) room alice bob curve ecdhA
                    [WsOpen; WsMessage (Some (joinedAck alice))] initial)) /\
  e_room fromAlice = Some room /\ e_from fromAlice = Some alice.
Proof.
  split; [exact alice_sends_handshake|].
  destruct (client_sends_own_identity (node := modelNode) room alice bob curve ecdhA
              [WsOpen; WsMessage (Some (joinedAck alice))] initial fromAlice
              alice_sends_handshake) as (H1 & H2 & _).
  exact (conj H1 H2).
Defined.

Lemma sent_counters_consecutive_witness :
  Reachable (node := modelNode) room alice bob curve ecdhA aliceEstablished /\
  NoDup (counters
           (effects_of (run (node := modelNode) room alice bob curve ecdhA
                          [Line "hello" iv1; Line "world" iv2] aliceEstablished))).
Proof.
  split; [exact alice_is_reachable|].
  destruct (sent_counters_consecutive (node := modelNode) room alice bob curve ecdhA
              [Line "hello" iv1; Line "world" iv2] aliceEstablished
              alice_is_reachable) as (_ & H & _).
  apply H. apply N.leb_le. vm_compute. reflexivity.
Defined.

Lemma timer_recovers_session_witness :
  base64_roundtrip (node := modelNode) /\
  agree (node := modelNode) ecdhA ecdhB /\
  peerHandshakeReceived initial = false /\
  (List.length (utf8 (Node := modelNode) (sessionContext room bob curve (Some alice)))
   <= 1024)%nat /\
  exists k,
    session (state_of (onMessage (node := modelNode) room bob alice curve ecdhB
                         (Some (handshakeEnvelope (node := modelNode) room alice curve
                                  ecdhA (Some bob)))
                         initial))
    = Some k.
Proof.
  split; [exact ModelFacts.model_base64|]. split; [exact keys_agree|].
  split; [reflexivity|]. split; [exact context_fits_bob|].
  destruct (timer_recovers_session (node := modelNode) room curve alice bob bob
              ecdhA ecdhB aliceEstablished initial
              ModelFacts.model_base64 keys_agree eq_refl context_fits_bob)
    as (_ & _ & sh & k & _ & _ & _ & H).
  exists k. exact H.
Defined.

Lemma client_envelope_relayed_witness :
  room <> "" /\ alice <> "" /\
  In (ws_send fromAlice)
     (effects_of (run (node := modelNode) room alice bob curve ecdhA
                    [WsOpen; WsMessage (Some (joinedAck alice))] initial)) /\
  Relay.onMessage allOpen wsAlice (Some fromAlice) bothJoined
  = (bothJoined,
     Relay.logged fromAlice
       :: Relay.safeSend allOpen wsBob (Relay.EnvelopeFrame fromAlice)).
Proof.
  assert (Nr : room <> "") by discriminate.
  assert (Na : alice <> "") by discriminate.
  split; [exact Nr|]. split; [exact Na|]. split; [exact alice_sends_handshake|].
  destruct (client_envelope_relayed (node := modelNode) room alice bob curve ecdhA
              [WsOpen; WsMessage (Some (joinedAck alice))] initial fromAlice
              allOpen wsAlice bothJoined Nr Na alice_sends_handshake) as (_ & H).
  assert (J : e_type fromAlice <> Some "join") by discriminate.
  destruct (H J wsBob eq_refl eq_refl) as (E & _).
  exact E.
Defined.

Lemma restyled_client_agrees_witness :
  base64_roundtrip (node := modelNode) /\
  agree (node := modelNode) ecdhA ecdhB /\
  utf16 alice <> utf16 bob /\
  (List.length (utf8 (Node := modelNode) (sessionContext room alice curve (Some bob)))
   <= 1024)%nat /\
  exists k,
    session (state_of (onMessage (node := modelNode) room alice bob curve ecdhA
                         (Some fromBob) initial)) = Some k /\
    session (state_of (Styled.onMessage (node := modelNode) room bob alice curve ecdhB
                         (Some fromAlice) initial)) = Some k.
Proof.
  split; [exact ModelFacts.model_base64|]. split; [exact keys_agree|].
  split; [exact alice_bob_distinct|]. split; [exact context_fits|].
  destruct (restyled_client_agrees (node := modelNode) room curve alice bob bob alice
              ecdhA ecdhB initial initial
              ModelFacts.model_base64 keys_agree eq_refl eq_refl
              alice_bob_distinct context_fits)
    as (_ & sh & k & _ & _ & HA & HB).
  exists k. exact (conj HA HB).
Defined.

Lemma handshake_to_absent_peer_lost_witness :
  room <> "" /\ alice <> "" /\ bob <> "" /\
  Relay.sends
    (snd (Relay.onMessage allOpen wsAlice (Some fromAlice)
            (fst (Relay.run [Relay.Message allOpen wsAlice (Some (join alice))] []))))
  = [(wsAlice, Relay.notInRoom (Some bob))].
Proof.
  assert (Nr : room <> "") by discriminate.
  assert (Na : alice <> "") by discriminate.
  assert (Nb : bob <> "") by discriminate.
  split; [exact Nr|]. split; [exact Na|]. split; [exact Nb|].
  destruct (handshake_to_absent_peer_lost (node := modelNode) room alice bob curve ecdhA
              allOpen wsAlice
              (fst (Relay.run [Relay.Message allOpen wsAlice (Some (join alice))] []))
              initial Nr Na Nb eq_refl eq_refl) as (_ & H & _).
  exact H.
Defined.

End ExtraWitnesses.
